(** * pydoc-markdown: the Python loader (contrib/loaders/python.py)

    A shallow embedding of the lib2to3-based reflection extractor:
    [ListScanner], the trivia resolver [get_most_recent_prefix], the
    docstring helpers ([prepare_docstring], [dedent_docstring],
    [get_hashtag_docstring_from_prefix], [get_statement_docstring],
    [get_docstring_from_first_node]) and the declaration and signature
    parsers of class [Parser].

    Conventions.
    - A Python [str] is a Rocq [string]; a character is a code point
      below 256.  [is_space] is [str.isspace] on that range, which is also
      what the regular-expression class [\s] matches on a [str] pattern.
    - A lib2to3 tree is a [tree]; a node together with its parent chain
      (lib2to3 nodes carry a [parent] pointer) is a [loc], a zipper.
    - A Python exception is the [Raise] branch of [result]. *)

From Stdlib Require Import String Ascii List Bool Arith Lia.
Import ListNotations.
Local Open Scope list_scope.
Local Open Scope string_scope.

Set Implicit Arguments.

(** ** Python string operations *)

Module Str.

Definition nl_char : ascii := "010"%char.
Definition nl : string := String nl_char "".

(** [str.isspace] for one code point below 256. *)
Definition is_space (c : ascii) : bool :=
  let n := nat_of_ascii c in
  (Nat.leb 9 n && Nat.leb n 13) || (Nat.leb 28 n && Nat.leb n 32)
  || Nat.eqb n 133 || Nat.eqb n 160.

Definition is_empty (s : string) : bool :=
  match s with "" => true | _ => false end.

(** Python truthiness of a string. *)
Definition truthy (s : string) : bool := negb (is_empty s).

Fixpoint lstrip (s : string) : string :=
  match s with
  | "" => ""
  | String c r => if is_space c then lstrip r else s
  end.

Fixpoint rstrip (s : string) : string :=
  match s with
  | "" => ""
  | String c r =>
      let r' := rstrip r in
      if is_space c && is_empty r' then "" else String c r'
  end.

Definition strip (s : string) : string := rstrip (lstrip s).

(** [s.startswith(p)] *)
Definition startswith (s p : string) : bool := String.prefix p s.

(** [s.split('\n')]: never empty. *)
Fixpoint split_nl (s : string) : list string :=
  match s with
  | "" => [""]
  | String c r =>
      if Ascii.eqb c nl_char then "" :: split_nl r
      else match split_nl r with
           | [] => [String c ""]
           | l :: ls => String c l :: ls
           end
  end.

(** ['\n'.join(ls)] *)
Definition join_nl (ls : list string) : string := String.concat nl ls.

(** [s[n:]] *)
Fixpoint drop (n : nat) (s : string) : string :=
  match n, s with
  | O, _ => s
  | S n', "" => ""
  | S n', String _ r => drop n' r
  end.

(** [s[a:-b]] for positive [b]. *)
Definition slice (a b : nat) (s : string) : string :=
  substring a (String.length s - a - b) s.

(** [s[::-1]] *)
Fixpoint rev (s : string) : string :=
  match s with
  | "" => ""
  | String c r => rev r ++ String c ""
  end.

(** [re.match(r'\s*', s).group(0)] *)
Fixpoint match_spaces (s : string) : string :=
  match s with
  | "" => ""
  | String c r => if is_space c then String c (match_spaces r) else ""
  end.

(** [s.count('\n')] *)
Fixpoint count_nl (s : string) : nat :=
  match s with
  | "" => 0
  | String c r => (if Ascii.eqb c nl_char then 1 else 0) + count_nl r
  end.

End Str.

(** ** textwrap.dedent (CPython 3.6 - 3.13)

    Both of its regular expressions are MULTILINE and anchored at the
    start of a line, so they act line by line on the text split at
    newlines: [_whitespace_only_re] matches a non-empty line made of
    spaces and tabs only, [_leading_whitespace_re] captures the leading
    spaces and tabs of a line that has some other character. *)

Module textwrap.

Definition is_blank (c : ascii) : bool :=
  Ascii.eqb c " "%char || Ascii.eqb c "009"%char.

Fixpoint all_blank (s : string) : bool :=
  match s with
  | "" => true
  | String c r => is_blank c && all_blank r
  end.

(** [_whitespace_only_re.sub('', text)] on one line. *)
Definition blank_out (line : string) : string :=
  if all_blank line then "" else line.

Fixpoint leading_blanks (s : string) : string :=
  match s with
  | "" => ""
  | String c r => if is_blank c then String c (leading_blanks r) else ""
  end.

(** [_leading_whitespace_re.findall(text)] on one line: the indent of a
    line that has a character other than space, tab and newline. *)
Definition indent_of (line : string) : option string :=
  if all_blank line then None else Some (leading_blanks line).

Fixpoint indents (lines : list string) : list string :=
  match lines with
  | [] => []
  | l :: ls =>
      match indent_of l with
      | Some i => i :: indents ls
      | None => indents ls
      end
  end.

(** The [for i, (x, y) in enumerate(zip(margin, indent))] loop: cut
    [margin] at the first position where the two differ. *)
Fixpoint cut_margin (margin indent : string) : string :=
  match margin, indent with
  | String x m, String y i =>
      if Ascii.eqb x y then String x (cut_margin m i) else ""
  | _, _ => margin
  end.

Definition step_margin (margin : option string) (indent : string)
  : option string :=
  match margin with
  | None => Some indent
  | Some m =>
      if Str.startswith indent m then Some m
      else if Str.startswith m indent then Some indent
      else Some (cut_margin m indent)
  end.

Definition strip_margin (margin line : string) : string :=
  if Str.startswith line margin then Str.drop (String.length margin) line
  else line.

Definition dedent (text : string) : string :=
  let lines := map blank_out (Str.split_nl text) in
  match fold_left step_margin (indents lines) None with
  | Some (String c m) =>
      Str.join_nl (map (strip_margin (String c m)) lines)
  | _ => Str.join_nl lines
  end.

End textwrap.

(** ** dedent_docstring *)

Definition dedent_docstring (s : string) : string :=
  match Str.split_nl s with
  | [] => Str.strip ""
  | first :: rest =>
      let lines0 := Str.strip first in
      let lines1 := Str.split_nl (textwrap.dedent (Str.join_nl rest)) in
      Str.strip (Str.join_nl (lines0 :: lines1))
  end.

(** ** lib2to3 trees

    Token and symbol numbers are kept abstract; the constructors list the
    kinds the loader tests for and a few more, [OTHER n] stands for the
    rest. *)

Module token.

Inductive t : Set :=
| ENDMARKER | NAME | NUMBER | STRING | NEWLINE | INDENT | DEDENT
| LPAR | RPAR | COLON | COMMA | SEMI | EQUAL | DOT | STAR | DOUBLESTAR
| PLUSEQUAL | AT | RARROW | OTHER (n : nat).

Definition eq_dec (a b : t) : {a = b} + {a <> b}.
Proof. decide equality. apply Nat.eq_dec. Defined.

End token.

Module syms.

Inductive t : Set :=
| file_input | simple_stmt | expr_stmt | import_name | import_from
| funcdef | classdef | async_stmt | async_funcdef | decorated
| decorator | decorators | parameters | typedargslist | tname
| suite | arglist | argument | dotted_name | annassign | atom | power
| trailer | pass_stmt | if_stmt | for_stmt | while_stmt | try_stmt
| with_stmt | OTHER (n : nat).

Definition eq_dec (a b : t) : {a = b} + {a <> b}.
Proof. decide equality. apply Nat.eq_dec. Defined.

End syms.

Inductive node_type : Set :=
| Tok (t : token.t)
| Sym (s : syms.t).
Coercion Tok : token.t >-> node_type.
Coercion Sym : syms.t >-> node_type.

Definition node_type_eq_dec (a b : node_type) : {a = b} + {a <> b}.
Proof. decide equality; [apply token.eq_dec | apply syms.eq_dec]. Defined.

(** [a == b] on node types. *)
Definition type_eqb (a b : node_type) : bool :=
  if node_type_eq_dec a b then true else false.

(** [pytree.Leaf] and [pytree.Node].  A leaf stores its prefix and line
    number; a node computes both from its first child. *)
#[warnings="-register-all"]
Inductive tree : Type :=
| Leaf (type : token.t) (value : string) (prefix : string) (lineno : nat)
| Node (type : syms.t) (children : list tree).

Definition type (n : tree) : node_type :=
  match n with
  | Leaf t _ _ _ => t
  | Node s _ => s
  end.

(** [isinstance(n, Node)] *)
Definition is_Node (n : tree) : bool :=
  match n with Node _ _ => true | Leaf _ _ _ _ => false end.

(** [n.children]: for a leaf the empty tuple of [pytree.Base]. *)
Definition tree_children (n : tree) : list tree :=
  match n with Node _ ch => ch | Leaf _ _ _ _ => [] end.

(** The [prefix] property. *)
Fixpoint prefix (n : tree) : string :=
  match n with
  | Leaf _ _ p _ => p
  | Node _ [] => ""
  | Node _ (c :: _) => prefix c
  end.

(** [get_lineno] *)
Fixpoint get_lineno (n : tree) : option nat :=
  match n with
  | Leaf _ _ _ l => Some l
  | Node _ [] => None
  | Node _ (c :: _) => get_lineno c
  end.

(** ** Exceptions and the error monad *)

Inductive payload : Type :=
| NoPayload
| TypePayload (t : node_type)
| NodesPayload (ns : list tree).

Inductive exn : Type :=
| AssertionError (p : payload)
| RuntimeError (msg : string)
| IndexError
| AttributeError
| ValueError
| OutOfFuel.

Inductive result (A : Type) : Type :=
| Ok (a : A)
| Raise (e : exn).
Arguments Ok {A} a.
Arguments Raise {A} e.

Definition bind {A B} (r : result A) (k : A -> result B) : result B :=
  match r with
  | Ok a => k a
  | Raise e => Raise e
  end.

Declare Scope py_scope.
Delimit Scope py_scope with py.
Notation "x <- c ;; k" := (bind c (fun x => k))
  (at level 61, c at next level, right associativity) : py_scope.
Notation "' pat <- c ;; k" := (bind c (fun x => match x with pat => k end))
  (at level 61, pat pattern, c at next level, right associativity) : py_scope.
Local Open Scope py_scope.

Definition assert (b : bool) (p : payload) : result unit :=
  if b then Ok tt else Raise (AssertionError p).

(** [n.value]: only a leaf has one. *)
Definition value (n : tree) : result string :=
  match n with
  | Leaf _ v _ _ => Ok v
  | Node _ _ => Raise AttributeError
  end.

(** [l[i]] for a non-negative [i]. *)
Definition getitem {A} (l : list A) (i : nat) : result A :=
  match nth_error l i with
  | Some a => Ok a
  | None => Raise IndexError
  end.

(** [o.attr] where [o] may be [None]. *)
Definition deref {A} (o : option A) : result A :=
  match o with
  | Some a => Ok a
  | None => Raise AttributeError
  end.

(** ** Nodes in context

    lib2to3 nodes know their parent; a [loc] is a node with the chain of
    frames up to the root.  [lefts] holds the previous siblings, nearest
    first. *)

Record frame : Type := mkframe {
  ftype : syms.t;
  lefts : list tree;
  rights : list tree
}.

Record loc : Type := mkloc {
  focus : tree;
  path : list frame
}.

Definition plug (f : frame) (n : tree) : tree :=
  Node (ftype f) (List.rev (lefts f) ++ n :: rights f)%list.

(** [n.parent] *)
Definition parent (n : loc) : option loc :=
  match path n with
  | [] => None
  | f :: p => Some (mkloc (plug f (focus n)) p)
  end.

(** [n.prev_sibling] *)
Definition prev_sibling (n : loc) : option loc :=
  match path n with
  | [] => None
  | f :: p =>
      match lefts f with
      | [] => None
      | s :: ls => Some (mkloc s (mkframe (ftype f) ls (focus n :: rights f) :: p))
      end
  end.

(** [n.next_sibling] *)
Definition next_sibling (n : loc) : option loc :=
  match path n with
  | [] => None
  | f :: p =>
      match rights f with
      | [] => None
      | s :: rs => Some (mkloc s (mkframe (ftype f) (focus n :: lefts f) rs :: p))
      end
  end.

Fixpoint children_from (ty : syms.t) (ls rs : list tree) (p : list frame)
  : list loc :=
  match rs with
  | [] => []
  | c :: rs' =>
      mkloc c (mkframe ty ls rs' :: p) :: children_from ty (c :: ls) rs' p
  end.

(** [n.children], each child in its context. *)
Definition children (n : loc) : list loc :=
  match focus n with
  | Node ty ch => children_from ty [] ch (path n)
  | Leaf _ _ _ _ => []
  end.

Definition root (n : tree) : loc := mkloc n [].

(** [find(predicate, iterable)] *)
Fixpoint find {A} (predicate : A -> bool) (iterable : list A) : option A :=
  match iterable with
  | [] => None
  | item :: rest => if predicate item then Some item else find predicate rest
  end.

(** ** ListScanner *)

Module ListScanner.

Record t (A : Type) : Type := make {
  _list : list A;
  _index : nat
}.
Arguments make {A} _ _.
Arguments _list {A} _.
Arguments _index {A} _.

Section Scanner.
Context {A : Type}.

(** [__bool__] *)
Definition bool_ (self : t A) : bool :=
  Nat.ltb (_index self) (List.length (_list self)).

(** [current] *)
Definition current (self : t A) : result A :=
  getitem (_list self) (_index self).

(** [can_advance]: [len - 1] is a Python integer, [-1] for the empty
    list; the comparison comes out the same on naturals. *)
Definition can_advance (self : t A) : bool :=
  Nat.ltb (_index self) (List.length (_list self) - 1).

(** [advance]: the index moves even when the call raises. *)
Definition advance (expect : bool) (self : t A) : t A * result (option A) :=
  let self := make (_list self) (_index self + 1) in
  match current self with
  | Ok a => (self, Ok (Some a))
  | Raise e => (self, if expect then Raise e else Ok None)
  end.

(** [safe_iter] is a generator.  [Fresh] is the generator before its
    first [next]; [Suspended index] is the generator stopped at its
    [yield], holding the local [index] it read once on entry. *)
Inductive gen : Type :=
| Fresh
| Suspended (index : nat)
| Finished.

Inductive outcome : Type :=
| Yield (a : A)
| StopIteration
| Raised (e : exn).

(** The [while self: yield self.current] head of the loop. *)
Definition loop_head (index : nat) (self : t A) : gen * t A * outcome :=
  if bool_ self then
    match current self with
    | Ok a => (Suspended index, self, Yield a)
    | Raise e => (Finished, self, Raised e)
    end
  else (Finished, self, StopIteration).

(** One [next()] on the generator of [safe_iter(auto_advance)]. *)
Definition next (auto_advance : bool) (g : gen) (self : t A)
  : gen * t A * outcome :=
  match g with
  | Fresh => loop_head (_index self) self
  | Suspended index =>
      if auto_advance then loop_head index (fst (advance false self))
      else if Nat.eqb (_index self) index then
        (Finished, self,
         Raised (RuntimeError "next() has not been called on the ListScanner"))
      else loop_head index self
  | Finished => (Finished, self, StopIteration)
  end.

End Scanner.
End ListScanner.

(** ** Trivia resolver *)

(** The first loop of [get_most_recent_prefix], on the chain of frames:
    [None] is the [return ''] at the root. *)
Fixpoint climb (node : tree) (p : list frame) : option loc :=
  match prev_sibling (mkloc node p) with
  | None =>
      if negb (Str.truthy (prefix node)) then
        match p with
        | [] => None
        | f :: p' => climb (plug f node) p'
        end
      else Some (mkloc node p)
  | Some _ => Some (mkloc node p)
  end.

(** [f(l[-1])], or [None] for the empty list. *)
Definition last_with {A B} (f : A -> B) : list A -> option B :=
  fix go (l : list A) : option B :=
    match l with
    | [] => None
    | c :: cs =>
        match go cs with
        | Some r => Some r
        | None => Some (f c)
        end
    end.

(** The second loop: [while isinstance(node, Node) and node.children:
    node = node.children[-1]]. *)
Fixpoint rightmost (node : tree) : tree :=
  match node with
  | Leaf _ _ _ _ => node
  | Node _ ch =>
      match last_with rightmost ch with
      | Some r => r
      | None => node
      end
  end.

Definition get_most_recent_prefix (node : loc) : result string :=
  if Str.truthy (prefix (focus node)) then Ok (prefix (focus node))
  else
    match climb (focus node) (path node) with
    | None => Ok ""
    | Some node =>
        if Str.truthy (prefix (focus node)) then Ok (prefix (focus node))
        else
          node <- deref (prev_sibling node) ;;
          Ok (prefix (rightmost (focus node)))
    end.

(** ** nodes_to_string *)

Fixpoint generator_node (node : tree) : string :=
  match node with
  | Leaf _ v _ _ => v
  | Node _ ch =>
      (fix generator (skip_first : bool) (nodes : list tree) : string :=
         match nodes with
         | [] => ""
         | n :: ns =>
             (if skip_first then "" else prefix n)
             ++ generator_node n ++ generator false ns
         end) true ch
  end.

Fixpoint generator (skip_first : bool) (nodes : list tree) : string :=
  match nodes with
  | [] => ""
  | n :: ns =>
      (if skip_first then "" else prefix n)
      ++ generator_node n ++ generator false ns
  end.

Definition nodes_to_string (nodes : list tree) : string :=
  generator true nodes.

(** [str(node)]: the text of the subtree with every prefix. *)
Fixpoint str_tree (node : tree) : string :=
  match node with
  | Leaf _ v p _ => p ++ v
  | Node _ ch =>
      (fix go (l : list tree) : string :=
         match l with
         | [] => ""
         | c :: cs => str_tree c ++ go cs
         end) ch
  end.

(** [name_to_string] *)
Definition name_to_string (node : tree) : result string :=
  if type_eqb (type node) syms.dotted_name then
    fold_right (fun x acc => v <- value x ;; r <- acc ;; Ok (v ++ r))
               (Ok "") (tree_children node)
  else value node.

(** ** Docstring extractor *)

Definition dquote : string := String "034"%char "".
Definition triple_dquote : string := dquote ++ dquote ++ dquote.

(** The comment branch of [prepare_docstring], for one line. *)
Definition strip_marker (line : string) : string :=
  let line := Str.strip line in
  let line := if Str.startswith line "#:" then Str.drop 2 line
              else Str.drop 1 line in
  Str.lstrip line.

Definition prepare_docstring (s : string) : option string :=
  let s := Str.strip s in
  if Str.startswith s "#" then
    Some (Str.strip (Str.join_nl (map strip_marker (Str.split_nl s))))
  else if Str.startswith s triple_dquote || Str.startswith s "'''" then
    Some (Str.strip (dedent_docstring (Str.slice 3 3 s)))
  else if Str.startswith s dquote || Str.startswith s "'" then
    Some (Str.strip (dedent_docstring (Str.slice 1 1 s)))
  else None.

Inductive doc_type : Set := statement | block.

(** The loop of [get_hashtag_docstring_from_prefix] over the reversed
    lines; [lines] is kept in append order. *)
Fixpoint scan_lines (rlines : list string) (lines : list string)
  (dt : option doc_type) : list string * option doc_type :=
  match rlines with
  | [] => (lines, dt)
  | line :: rest =>
      let line := Str.strip line in
      if negb (Nat.eqb (List.length lines) 0) && negb (Str.startswith line "#")
      then (lines, dt)
      else
        let dt :=
          match dt with
          | None =>
              if Str.startswith (Str.strip line) "#:" then Some statement
              else if Str.startswith (Str.strip line) "#" then Some block
              else None
          | Some d => Some d
          end in
        let lines :=
          if negb (Nat.eqb (List.length lines) 0) || Str.truthy line
          then (lines ++ [line])%list else lines in
        scan_lines rest lines dt
  end.

Definition get_hashtag_docstring_from_prefix (node : loc)
  : result (option string * option doc_type) :=
  prefix <- get_most_recent_prefix node ;;
  let '(lines, dt) := scan_lines (List.rev (Str.split_nl prefix)) [] None in
  Ok (prepare_docstring (Str.join_nl (List.rev lines)), dt).

Definition get_statement_docstring (node : loc) : result (option string) :=
  prefix <- get_most_recent_prefix node ;;
  let ws := Str.match_spaces (Str.rev prefix) in
  if Nat.eqb (Str.count_nl ws) 1 then
    '(docstring, dt) <- get_hashtag_docstring_from_prefix node ;;
    match dt with
    | Some statement => Ok docstring
    | _ => Ok None
    end
  else Ok None.

Definition get_docstring_from_first_node (parent : loc)
  : result (option string) :=
  match find (fun x => is_Node (focus x)) (children parent) with
  | None => Ok None
  | Some node =>
      let hashtag :=
        '(docstring, dt) <- get_hashtag_docstring_from_prefix node ;;
        match dt with
        | Some block => Ok docstring
        | _ => Ok None
        end in
      if type_eqb (type (focus node)) syms.simple_stmt then
        first <- getitem (tree_children (focus node)) 0 ;;
        if type_eqb (type first) token.STRING then
          v <- value first ;;
          Ok (prepare_docstring v)
        else hashtag
      else hashtag
  end.

(** ** Reflection entities *)

(** Modelled from the spec: [pydoc_markdown.reflection] is not among the
    sources.  An Expression wraps verbatim source text. *)
Record Expression : Type := mkExpression { text : string }.

(** Modelled from the spec: a Location is a file path and a 1-based line
    number ([get_lineno] gives [None] for a node without leaves). *)
Record Location : Type := mkLocation {
  loc_filename : string;
  loc_lineno : option nat
}.

(** Modelled from the spec: a Decorator has a dotted name and the text of
    its call arguments, if any. *)
Record Decorator : Type := mkDecorator {
  dec_name : string;
  call_expr : option Expression
}.

Module Argument.

(** Modelled from the spec: the five argument kinds. *)
Inductive kind : Set :=
| POS | POS_REMAINDER | KW_SEPARATOR | KW_ONLY | KW_REMAINDER.

(** Modelled from the spec: an Argument has a name, an optional
    annotation, an optional default value and a kind. *)
Record t : Type := make {
  name : string;
  annotation : option Expression;
  default : option Expression;
  argtype : kind
}.

End Argument.

(** Modelled from the spec: the reflection tree.  Every entity has a
    location, a name and an optional docstring; modules and classes own
    an ordered sequence of members.  The [parent] back-reference is the
    nesting of the tree: constructing an entity with a parent appends it
    to the parent's members, which the parsers below thread as state. *)
#[warnings="-register-all"]
Inductive Object : Type :=
| Module_ (location : Location) (name : string) (docstring : option string)
    (members : list Object)
| Class_ (location : Location) (name : string) (docstring : option string)
    (bases : list Expression) (metaclass : option Expression)
    (decorators : option (list Decorator)) (members : list Object)
| Function_ (location : Location) (name : string)
    (docstring : option string) (is_async : bool)
    (decorators : list Decorator) (args : list Argument.t)
    (return_ : option Expression)
| Data_ (location : Location) (name : string) (docstring : option string)
    (expr : Expression).

(** Modelled from the spec: [member.remove()] deletes the member from its
    owner's member sequence.  The parser only removes the entity that the
    call just before appended, so it is the last one. *)
Definition remove (members : list Object) : list Object :=
  removelast members.

(** ** os.path helpers used for the default module name *)

Module os_path.

Fixpoint has_char (c : ascii) (s : string) : bool :=
  match s with
  | "" => false
  | String d r => Ascii.eqb c d || has_char c r
  end.

(** [posixpath.basename] *)
Fixpoint basename (p : string) : string :=
  match p with
  | "" => ""
  | String c r =>
      if has_char "/"%char r then basename r
      else if Ascii.eqb c "/"%char then r else p
  end.

Fixpoint all_dots (s : string) : bool :=
  match s with
  | "" => true
  | String c r => Ascii.eqb c "."%char && all_dots r
  end.

(** [splitext(p)[0]]: cut at the last dot of the last path component,
    unless only dots come before it in that component. *)
Fixpoint splitext_root_component (p : string) : string :=
  match p with
  | "" => ""
  | String c r =>
      if has_char "."%char r then String c (splitext_root_component r)
      else if Ascii.eqb c "."%char then "" else p
  end.

Definition splitext_root_nosep (p : string) : string :=
  let r := splitext_root_component p in
  if all_dots r then p else r.

Fixpoint splitext_root (p : string) : string :=
  match p with
  | "" => ""
  | String c r =>
      if has_char "/"%char p then String c (splitext_root r)
      else splitext_root_nosep p
  end.

End os_path.

(** ** Parser *)

(** [pytree.Base.__eq__]: leaves compare by type and value, nodes by type
    and children. *)
Fixpoint tree_eqb (a b : tree) : bool :=
  match a, b with
  | Leaf t v _ _, Leaf t' v' _ _ => type_eqb t t' && String.eqb v v'
  | Node t ch, Node t' ch' =>
      type_eqb t t' &&
      (fix all2 (l l' : list tree) : bool :=
         match l, l' with
         | [], [] => true
         | x :: xs, y :: ys => tree_eqb x y && all2 xs ys
         | _, _ => false
         end) ch ch'
  | _, _ => false
  end.

(** [l.index(x)] *)
Fixpoint index_of (x : tree) (l : list tree) : result nat :=
  match l with
  | [] => Raise ValueError
  | y :: ys => if tree_eqb y x then Ok 0 else i <- index_of x ys ;; Ok (S i)
  end.

(** [l[::2]] *)
Fixpoint every_other {A} (l : list A) : list A :=
  match l with
  | [] => []
  | [x] => [x]
  | x :: _ :: rest => x :: every_other rest
  end.

(** The instance state of [Parser]: [filename] is unset until [parse]
    assigns it. *)
Record Parser : Type := mkParser { filename : option string }.

Definition location_from (self : Parser) (node : tree) : result Location :=
  fn <- deref (filename self) ;;
  Ok (mkLocation fn (get_lineno node)).

(** [nodes_to_string([node])] where [node] may be [None]. *)
Definition node_to_string (node : option tree) : result string :=
  match node with
  | Some n => Ok (nodes_to_string [n])
  | None => Raise AttributeError
  end.

Definition get_return_annotation (node : loc) : result (option Expression) :=
  match find (fun x => type_eqb (type (focus x)) token.RARROW) (children node) with
  | Some rarrow =>
      s <- node_to_string (option_map focus (next_sibling rarrow)) ;;
      Ok (Some (mkExpression s))
  | None => Ok None
  end.

Definition parse_decorator (node : tree) : result Decorator :=
  at_ <- getitem (tree_children node) 0 ;;
  v <- value at_ ;;
  _ <- assert (String.eqb v "@") NoPayload ;;
  n <- getitem (tree_children node) 1 ;;
  name <- name_to_string n ;;
  let call_expr := Str.strip (nodes_to_string (skipn 2 (tree_children node))) in
  Ok (mkDecorator name
        (if Str.truthy call_expr then Some (mkExpression call_expr) else None)).

(** *** Signature parser *)

Definition node_scanner : Type := ListScanner.t tree.

(** The local function [parse_annotated_name] of [parse_argument].  Its
    last branch needs a node that is neither [None] nor true. *)
Definition parse_annotated_name (node : option tree)
  : result (string * option Expression) :=
  node <- deref node ;;
  if type_eqb (type node) syms.tname then
    let scanner := ListScanner.make (tree_children node) 0 in
    cur <- ListScanner.current scanner ;;
    name <- value cur ;;
    let '(scanner, r) := ListScanner.advance false scanner in
    colon <- r ;;
    colon <- deref colon ;;
    _ <- assert (type_eqb (type colon) token.COLON) (NodesPayload [node]) ;;
    let '(scanner, r) := ListScanner.advance false scanner in
    ann <- r ;;
    s <- node_to_string ann ;;
    Ok (name, Some (mkExpression s))
  else
    name <- value node ;;
    Ok (name, None).

Definition parse_argument (node : option tree) (argtype : Argument.kind)
  (scanner : node_scanner) : result (Argument.t * node_scanner) :=
  '(name, annotation) <- parse_annotated_name node ;;
  let '(scanner, r) := ListScanner.advance false scanner in
  node <- r ;;
  match node with
  | Some n =>
      if type_eqb (type n) token.EQUAL then
        let '(scanner, r) := ListScanner.advance false scanner in
        node <- r ;;
        s <- node_to_string node ;;
        let '(scanner, r) := ListScanner.advance false scanner in
        _ <- r ;;
        Ok (Argument.make name annotation (Some (mkExpression s)) argtype,
            scanner)
      else Ok (Argument.make name annotation None argtype, scanner)
  | None => Ok (Argument.make name annotation None argtype, scanner)
  end.

(** The state of the loop of [parse_parameters]: the scanner [index],
    the list [result] and the local [argtype]. *)
Definition params_state : Type :=
  (node_scanner * list Argument.t * Argument.kind)%type.

(** One pass through the body of the [for] loop. *)
Definition parameters_body (st : params_state) : result params_state :=
  let '(index, result, argtype) := st in
  node <- ListScanner.current index ;;
  if type_eqb (type node) token.STAR then
    let '(index, r) := ListScanner.advance false index in
    node <- r ;;
    node <- deref node ;;
    if type_eqb (type node) token.COMMA then
      let result :=
        (result ++ [Argument.make "" None None Argument.KW_SEPARATOR])%list in
      let '(index, _) := ListScanner.advance false index in
      Ok (index, result, Argument.KW_ONLY)
    else
      '(arg, index) <- parse_argument (Some node) Argument.POS_REMAINDER index ;;
      Ok (index, (result ++ [arg])%list, Argument.KW_ONLY)
  else if type_eqb (type node) token.DOUBLESTAR then
    let '(index, r) := ListScanner.advance false index in
    node <- r ;;
    '(arg, index) <- parse_argument node Argument.KW_REMAINDER index ;;
    Ok (index, (result ++ [arg])%list, argtype)
  else
    '(arg, index) <- parse_argument (Some node) argtype index ;;
    let '(index, _) := ListScanner.advance false index in
    Ok (index, (result ++ [arg])%list, argtype).

(** [for node in index.safe_iter(auto_advance=False): ...], driving the
    generator [g]. *)
Fixpoint parameters_loop (fuel : nat) (g : ListScanner.gen)
  (st : params_state) : result (list Argument.t) :=
  match fuel with
  | O => Raise OutOfFuel
  | S fuel =>
      let '(index, result, argtype) := st in
      match ListScanner.next false g index with
      | (g, index, ListScanner.Yield _) =>
          st <- parameters_body (index, result, argtype) ;;
          parameters_loop fuel g st
      | (_, _, ListScanner.StopIteration) => Ok result
      | (_, _, ListScanner.Raised e) => Raise e
      end
  end.

Definition parse_parameters (parameters : option tree)
  : result (list Argument.t) :=
  parameters <- deref parameters ;;
  _ <- assert (type_eqb (type parameters) syms.parameters)
         (TypePayload (type parameters)) ;;
  let ch := tree_children parameters in
  match find (fun x => type_eqb (type x) syms.typedargslist) ch with
  | None =>
      match find (fun x => type_eqb (type x) syms.tname) ch with
      | Some tname =>
          i <- index_of tname ch ;;
          '(arg, _) <- parse_argument (Some tname) Argument.POS
                         (ListScanner.make ch i) ;;
          Ok [arg]
      | None =>
          _ <- assert (Nat.eqb (List.length ch) 2 || Nat.eqb (List.length ch) 3)
                 (NodesPayload ch) ;;
          if Nat.eqb (List.length ch) 3 then
            n <- getitem ch 1 ;;
            v <- value n ;;
            Ok [Argument.make v None None Argument.POS]
          else Ok []
      end
  | Some arglist =>
      let index := ListScanner.make (tree_children arglist) 0 in
      parameters_loop (S (List.length (tree_children arglist)))
        ListScanner.Fresh (index, [], Argument.POS)
  end.

(** *** Declaration parser *)

(** [not isinstance(child, Node) and child.value == '='] *)
Definition is_assign_op (child : tree) : bool :=
  match child with
  | Leaf _ v _ _ => String.eqb v "="
  | Node _ _ => false
  end.

(** The first loop of [parse_statement]. *)
Fixpoint split_targets (children : list tree) (is_assignment : bool)
  (names : list (list tree)) (expression : list tree)
  : bool * list (list tree) * list tree :=
  match children with
  | [] => (is_assignment, names, expression)
  | child :: rest =>
      if is_assign_op child
      then split_targets rest true (names ++ [expression])%list []
      else split_targets rest is_assignment names (expression ++ [child])%list
  end.

(** The second loop of [parse_statement]: one [Data] per name, each
    appended to [parent]; [data] is the loop variable that is returned. *)
Fixpoint make_data (self : Parser) (stmt : tree) (docstring : option string)
  (expr : Expression) (names : list (list tree)) (parent : list Object)
  (data : option Object) : result (list Object * option Object) :=
  match names with
  | [] => Ok (parent, data)
  | name :: rest =>
      let name := nodes_to_string name in
      location <- location_from self stmt ;;
      let d := Data_ location name docstring expr in
      make_data self stmt docstring expr rest (parent ++ [d])%list (Some d)
  end.

Definition parse_statement (self : Parser) (parent : list Object)
  (stmt : loc) : result (list Object * option Object) :=
  let '(is_assignment, names, expression) :=
    split_targets (tree_children (focus stmt)) false [] [] in
  if is_assignment then
    docstring <- get_statement_docstring stmt ;;
    let expr := mkExpression (nodes_to_string expression) in
    _ <- assert (negb (Nat.eqb (List.length names) 0)) NoPayload ;;
    make_data self (focus stmt) docstring expr names parent None
  else Ok (parent, None).

Definition parse_funcdef (self : Parser) (parent : list Object) (node : loc)
  (is_async : bool) (decorators : option (list Decorator))
  : result (list Object * option Object) :=
  let parameters :=
    find (fun x => type_eqb (type (focus x)) syms.parameters) (children node) in
  let body :=
    match find (fun x => type_eqb (type (focus x)) syms.suite) (children node) with
    | Some b => Some b
    | None =>
        find (fun x => type_eqb (type (focus x)) syms.simple_stmt) (children node)
    end in
  n <- getitem (tree_children (focus node)) 1 ;;
  name <- value n ;;
  body <- deref body ;;
  docstring <- get_docstring_from_first_node body ;;
  args <- parse_parameters (option_map focus parameters) ;;
  return_ <- get_return_annotation node ;;
  let decorators := match decorators with Some d => d | None => [] end in
  location <- location_from self (focus node) ;;
  let f := Function_ location name docstring is_async decorators args return_ in
  Ok ((parent ++ [f])%list, Some f).

(** The loop over the class arguments in [parse_classdef]. *)
Fixpoint class_arguments (args : list tree) (bases : list Expression)
  (metaclass : option Expression)
  : result (list Expression * option Expression) :=
  match args with
  | [] => Ok (bases, metaclass)
  | child :: rest =>
      if type_eqb (type child) syms.argument then
        k <- getitem (tree_children child) 0 ;;
        key <- value k ;;
        let value := nodes_to_string (skipn 2 (tree_children child)) in
        if String.eqb key "metaclass"
        then class_arguments rest bases (Some (mkExpression value))
        else class_arguments rest bases metaclass
      else
        class_arguments rest (bases ++ [mkExpression (str_tree child)])%list
          metaclass
  end.

Section ClassDef.

(** [self.parse_declaration(class_, child)], the recursive call. *)
Variable parse_member :
  list Object -> loc -> result (list Object * option Object).

(** The loop over the class body: [members] are the members of [class_],
    [metaclass] is the local variable of [parse_classdef]. *)
Fixpoint class_body (children : list loc) (members : list Object)
  (metaclass : option Expression)
  : result (list Object * option Expression) :=
  match children with
  | [] => Ok (members, metaclass)
  | child :: rest =>
      if is_Node (focus child) then
        '(members, member) <- parse_member members child ;;
        match metaclass, member with
        | None, Some (Data_ _ name _ expr) =>
            if String.eqb name "__metaclass__"
            then class_body rest (remove members) (Some expr)
            else class_body rest members metaclass
        | _, _ => class_body rest members metaclass
        end
      else class_body rest members metaclass
  end.

(** [class_] is built from the value [metaclass] has before the loop;
    the loop assigns the local variable only. *)
Definition parse_classdef_with (self : Parser) (parent : list Object)
  (node : loc) (decorators : option (list Decorator))
  : result (list Object * option Object) :=
  n <- getitem (tree_children (focus node)) 1 ;;
  name <- value n ;;
  '(bases, metaclass) <-
    match find (fun x => type_eqb (type x) syms.arglist)
               (tree_children (focus node)) with
    | Some classargs =>
        class_arguments (every_other (tree_children classargs)) [] None
    | None => Ok ([], None)
    end ;;
  let suite :=
    find (fun x => type_eqb (type (focus x)) syms.suite) (children node) in
  suite <- deref suite ;;
  docstring <- get_docstring_from_first_node suite ;;
  location <- location_from self (focus node) ;;
  '(members, _) <- class_body (children suite) [] metaclass ;;
  let class_ :=
    Class_ location name docstring bases metaclass decorators members in
  Ok ((parent ++ [class_])%list, Some class_).

End ClassDef.

(** The loop over [decorator_nodes] in [parse_declaration]. *)
Fixpoint parse_decorators (decorator_nodes : list tree)
  (decorators : list Decorator) : result (list Decorator) :=
  match decorator_nodes with
  | [] => Ok decorators
  | child :: rest =>
      _ <- assert (type_eqb (type child) syms.decorator)
             (TypePayload (type child)) ;;
      d <- parse_decorator child ;;
      parse_decorators rest (decorators ++ [d])%list
  end.

(** [not decorators] *)
Definition no_decorators (decorators : option (list Decorator)) : bool :=
  match decorators with
  | None | Some [] => true
  | Some (_ :: _) => false
  end.

(** [parse_declaration(parent, node, decorators)]: [parent] stands for
    the members of the parent entity, returned updated together with the
    value of the call.  [fuel] bounds the depth of the recursion. *)
Fixpoint parse_declaration (fuel : nat) (self : Parser)
  (parent : list Object) (node : loc) (decorators : option (list Decorator))
  : result (list Object * option Object) :=
  match fuel with
  | O => Raise OutOfFuel
  | S fuel =>
      let ty := type (focus node) in
      if type_eqb ty syms.simple_stmt then
        _ <- assert (no_decorators decorators) NoPayload ;;
        stmt <- getitem (children node) 0 ;;
        if type_eqb (type (focus stmt)) syms.import_name
           || type_eqb (type (focus stmt)) syms.import_from
        then Ok (parent, None)
        else if type_eqb (type (focus stmt)) syms.expr_stmt
        then parse_statement self parent stmt
        else Ok (parent, None)
      else if type_eqb ty syms.funcdef then
        parse_funcdef self parent node false decorators
      else if type_eqb ty syms.classdef then
        parse_classdef_with
          (fun members child => parse_declaration fuel self members child None)
          self parent node decorators
      else if type_eqb ty syms.async_stmt || type_eqb ty syms.async_funcdef then
        child <- getitem (children node) 1 ;;
        if type_eqb (type (focus child)) syms.funcdef
        then parse_funcdef self parent child true decorators
        else Ok (parent, None)
      else if type_eqb ty syms.decorated then
        _ <- assert (Nat.eqb (List.length (children node)) 2) NoPayload ;;
        first <- getitem (tree_children (focus node)) 0 ;;
        decorator_nodes <-
          (if type_eqb (type first) syms.decorator then Ok [first]
           else if type_eqb (type first) syms.decorators
           then Ok (tree_children first)
           else Raise (AssertionError (TypePayload (type first)))) ;;
        decorators <- parse_decorators decorator_nodes [] ;;
        child <- getitem (children node) 1 ;;
        parse_declaration fuel self parent child (Some decorators)
      else Ok (parent, None)
  end.

Definition parse_classdef (fuel : nat) (self : Parser) :=
  parse_classdef_with
    (fun members child => parse_declaration fuel self members child None) self.

(** The depth of a tree, enough fuel for [parse_declaration]. *)
Fixpoint depth (n : tree) : nat :=
  match n with
  | Leaf _ _ _ _ => 1
  | Node _ ch =>
      S ((fix go (l : list tree) : nat :=
            match l with
            | [] => 0
            | c :: cs => Nat.max (depth c) (go cs)
            end) ch)
  end.

(** The loop over the module's children in [parse]. *)
Fixpoint module_body (fuel : nat) (self : Parser) (children : list loc)
  (members : list Object) : result (list Object) :=
  match children with
  | [] => Ok members
  | node :: rest =>
      '(members, _) <- parse_declaration fuel self members node None ;;
      module_body fuel self rest members
  end.

(** [parse(ast, filename, module_name)]: returns the instance, whose
    [filename] it has assigned, and the module. *)
Definition parse (self : Parser) (ast : tree) (filename : string)
  (module_name : option string) : Parser * result Object :=
  let self := mkParser (Some filename) in
  let module_name :=
    match module_name with
    | Some m => m
    | None => os_path.splitext_root (os_path.basename filename)
    end in
  (self,
   docstring <-
     (match tree_children ast with
      | [] => Ok None
      | _ :: _ => get_docstring_from_first_node (root ast)
      end) ;;
   location <- location_from self ast ;;
   members <- module_body (depth ast) self (children (root ast)) [] ;;
   Ok (Module_ location module_name docstring members)).

(** [parse_file(code, filename, module_name)] for a given [code].  The
    lib2to3 driver, [parse_to_ast], is outside the loader; it is a
    function of the text and the file name. *)
Section ParseFile.

Variable parse_to_ast : string -> string -> result tree.

Definition parse_file (self : Parser) (code filename : string)
  (module_name : option string) : result Object :=
  ast <- parse_to_ast (code ++ Str.nl) filename ;;
  snd (parse self ast filename module_name).

End ParseFile.

(** ** Definitions used to state the properties *)

(** A string without a newline: one line. *)
Fixpoint one_line (s : string) : bool :=
  match s with
  | "" => true
  | String c r => negb (Ascii.eqb c Str.nl_char) && one_line r
  end.

Fixpoint all_space (s : string) : bool :=
  match s with
  | "" => true
  | String c r => Str.is_space c && all_space r
  end.

(** [s] is empty or its last character is not whitespace. *)
Fixpoint ends_solid (s : string) : bool :=
  match s with
  | "" => true
  | String c "" => negb (Str.is_space c)
  | String _ r => ends_solid r
  end.

(** The run of comment lines that [get_hashtag_docstring_from_prefix]
    collects from a prefix, top line first, and its classification. *)
Definition comment_run (pfx : string) : list string :=
  List.rev (fst (scan_lines (List.rev (Str.split_nl pfx)) [] None)).

Definition run_doc_type (pfx : string) : option doc_type :=
  snd (scan_lines (List.rev (Str.split_nl pfx)) [] None).

(** The text of a comment run with the marker of every line removed. *)
Definition without_markers (run : list string) : string :=
  Str.strip (Str.join_nl (map strip_marker run)).

(** A result that is not the exhaustion of the embedding's fuel. *)
Definition fuel_free {A} (r : result A) : Prop := r <> Raise OutOfFuel.

(** A line of an indented block of text: a blank line, made of spaces
    and tabs, or a margin followed by text that is not blank. *)
Inductive block_line : Type :=
| Blank (w : string)
| Text (b : string).

Definition indented_line (margin : string) (it : block_line) : string :=
  match it with
  | Blank w => w
  | Text b => margin ++ b
  end.

Definition dedented_line (it : block_line) : string :=
  match it with
  | Blank _ => ""
  | Text b => b
  end.

Definition well_formed_line (it : block_line) : bool :=
  match it with
  | Blank w => textwrap.all_blank w
  | Text b => negb (textwrap.all_blank b) && one_line b
  end.

(** A line whose text begins right after the margin. *)
Definition flush_left (it : block_line) : bool :=
  match it with
  | Blank _ => false
  | Text b => Str.is_empty (textwrap.leading_blanks b)
  end.

(** The line after [dedent] has emptied the blank lines. *)
Definition blanked (margin : string) (it : block_line) : string :=
  match it with
  | Blank _ => ""
  | Text b => margin ++ b
  end.

(** The margin [dedent] holds while it goes through the indents: none
    yet, or one that begins with the margin of the block. *)
Definition margin_state (margin : string) (o : option string) : Prop :=
  o = None \/ exists x, o = Some (margin ++ x).

(** The shape of a stripped string that is not empty. *)
Definition solid (s : string) : Prop :=
  ends_solid s = true /\
  exists c r, s = String c r /\ Str.is_space c = false.

(** What the loop of [get_hashtag_docstring_from_prefix] maintains:
    the lines collected so far are single, solid lines; all but the
    first collected begin with [#]; and once the type of the run is
    known, the line collected last begins with [#]. *)
Record scan_inv (lines : list string) (dt : option doc_type) : Prop := {
  inv_lines : Forall (fun l => one_line l = true /\ solid l) lines;
  inv_last : dt <> None ->
             exists ls l, lines = (ls ++ [l])%list
                          /\ Str.startswith l "#" = true
}.

(** The children of an assignment statement: every target is a segment
    of nodes followed by its ['='] leaf, then comes the last segment. *)
Definition assignment_children (targets : list (list tree * tree))
  (last : list tree) : list tree :=
  (concat (map (fun tg => fst tg ++ [snd tg]) targets) ++ last)%list.

Definition no_assign_op (seg : list tree) : bool :=
  forallb (fun n => negb (is_assign_op n)) seg.

Definition well_formed_target (tg : list tree * tree) : bool :=
  no_assign_op (fst tg) && is_assign_op (snd tg).

(** The right-most descendant of a tree, as a relation: a leaf and a
    node without children are their own; otherwise it is the right-most
    descendant of the last child. *)
Inductive rightmost_of : tree -> tree -> Prop :=
| rightmost_of_leaf t v p ln : rightmost_of (Leaf t v p ln) (Leaf t v p ln)
| rightmost_of_childless t : rightmost_of (Node t []) (Node t [])
| rightmost_of_last t ch c d :
    rightmost_of c d -> rightmost_of (Node t (ch ++ [c])%list) d.

(** Some token of the statement, at any depth, is ['=']. *)
Fixpoint has_assign_token (n : tree) : bool :=
  match n with
  | Leaf _ v _ _ => String.eqb v "="
  | Node _ ch => existsb has_assign_token ch
  end.

(** The longest common prefix of two strings. *)
Fixpoint common_prefix (a b : string) : string :=
  match a, b with
  | String x a', String y b' =>
      if Ascii.eqb x y then String x (common_prefix a' b') else ""
  | _, _ => ""
  end.

(** The margin of a text: the longest string that the leading spaces and
    tabs of all its lines begin with, the lines made of spaces and tabs
    only left aside. *)
Definition common_margin (lines : list string) : string :=
  match map textwrap.leading_blanks
          (filter (fun l => negb (textwrap.all_blank l)) lines) with
  | [] => ""
  | i :: rest => fold_left common_prefix rest i
  end.

(** The dedented text: every line without the margin of the text, and
    the lines made of spaces and tabs only emptied. *)
Definition dedented (text : string) : string :=
  let lines := Str.split_nl text in
  let n := String.length (common_margin lines) in
  Str.join_nl
    (map (fun l => if textwrap.all_blank l then "" else Str.drop n l) lines).

(** The node kinds that [parse_declaration] has a branch for. *)
Definition recognized (ty : node_type) : bool :=
  type_eqb ty syms.simple_stmt || type_eqb ty syms.funcdef
  || type_eqb ty syms.classdef || type_eqb ty syms.async_stmt
  || type_eqb ty syms.async_funcdef || type_eqb ty syms.decorated.

(** The characters that may stand before the opening quote of a string
    literal. *)
Definition is_string_prefix_char (c : ascii) : bool :=
  os_path.has_char c "rRuUfFbB".

(** The metaclass given by the [metaclass] keyword of a class header,
    as the first loop of [parse_classdef] reads it. *)
Definition header_metaclass (node : tree) : option Expression :=
  match find (fun x => type_eqb (type x) syms.arglist) (tree_children node) with
  | Some classargs =>
      match class_arguments (every_other (tree_children classargs)) [] None with
      | Ok (_, metaclass) => metaclass
      | Raise _ => None
      end
  | None => None
  end.

(** The [metaclass] and [members] attributes of a class entity. *)
Definition metaclass_of (o : Object) : option Expression :=
  match o with
  | Class_ _ _ _ _ metaclass _ _ => metaclass
  | _ => None
  end.

Definition members_of (o : Object) : list Object :=
  match o with
  | Module_ _ _ _ members => members
  | Class_ _ _ _ _ _ _ members => members
  | _ => []
  end.

(** ** Example trees *)

Module Examples.

(** The [parameters] node lib2to3 builds for
    [(a, b=1, *args, c, d=2, **kwargs)]; [pre i] and [ln i] are the
    prefix and the line of the [i]-th token. *)
Definition signature (pre : nat -> string) (ln : nat -> nat) : tree :=
  Node syms.parameters
    [ Leaf token.LPAR "(" (pre 0) (ln 0);
      Node syms.typedargslist
        [ Leaf token.NAME "a" (pre 1) (ln 1);
          Leaf token.COMMA "," (pre 2) (ln 2);
          Leaf token.NAME "b" (pre 3) (ln 3);
          Leaf token.EQUAL "=" (pre 4) (ln 4);
          Leaf token.NUMBER "1" (pre 5) (ln 5);
          Leaf token.COMMA "," (pre 6) (ln 6);
          Leaf token.STAR "*" (pre 7) (ln 7);
          Leaf token.NAME "args" (pre 8) (ln 8);
          Leaf token.COMMA "," (pre 9) (ln 9);
          Leaf token.NAME "c" (pre 10) (ln 10);
          Leaf token.COMMA "," (pre 11) (ln 11);
          Leaf token.NAME "d" (pre 12) (ln 12);
          Leaf token.EQUAL "=" (pre 13) (ln 13);
          Leaf token.NUMBER "2" (pre 14) (ln 14);
          Leaf token.COMMA "," (pre 15) (ln 15);
          Leaf token.DOUBLESTAR "**" (pre 16) (ln 16);
          Leaf token.NAME "kwargs" (pre 17) (ln 17) ];
      Leaf token.RPAR ")" (pre 18) (ln 18) ].

(** The statement [__metaclass__ = Meta] on line 2 of a class body. *)
Definition metaclass_stmt : tree :=
  Node syms.simple_stmt
    [ Node syms.expr_stmt
        [ Leaf token.NAME "__metaclass__" "" 2;
          Leaf token.EQUAL "=" " " 2;
          Leaf token.NAME "Meta" " " 2 ];
      Leaf token.NEWLINE Str.nl "" 2 ].

(** The class
[[
class C:
    __metaclass__ = Meta
]] *)
Definition classdef_C : tree :=
  Node syms.classdef
    [ Leaf token.NAME "class" "" 1;
      Leaf token.NAME "C" " " 1;
      Leaf token.COLON ":" "" 1;
      Node syms.suite
        [ Leaf token.NEWLINE Str.nl "" 1;
          Leaf token.INDENT "    " "" 2;
          metaclass_stmt;
          Leaf token.DEDENT "" "" 3 ] ].

Definition module_C : tree :=
  Node syms.file_input [ classdef_C; Leaf token.ENDMARKER "" "" 3 ].

(** The statement
[[
if x: pass
]] *)
Definition if_stmt_x : tree :=
  Node syms.if_stmt
    [ Leaf token.NAME "if" "" 1;
      Leaf token.NAME "x" " " 1;
      Leaf token.COLON ":" "" 1;
      Node syms.simple_stmt
        [ Leaf token.NAME "pass" " " 1; Leaf token.NEWLINE Str.nl "" 1 ] ].

(** The assignment [x = y = 1] on line 2, below the comment [comment]. *)
Definition assignment_expr (comment : string) : tree :=
  Node syms.expr_stmt
    [ Leaf token.NAME "x" (comment ++ Str.nl) 2;
      Leaf token.EQUAL "=" " " 2;
      Leaf token.NAME "y" " " 2;
      Leaf token.EQUAL "=" " " 2;
      Leaf token.NUMBER "1" " " 2 ].

(** Its [expr_stmt] node, inside the [simple_stmt] that is the first
    child of the module. *)
Definition assignment_loc (comment : string) : loc :=
  mkloc (assignment_expr comment)
    [ mkframe syms.simple_stmt [] [ Leaf token.NEWLINE Str.nl "" 2 ];
      mkframe syms.file_input [] [ Leaf token.ENDMARKER "" "" 3 ] ].

(** The statement [x += 1]: an [expr_stmt] without an ['='] leaf. *)
Definition augmented_loc : loc :=
  mkloc
    (Node syms.expr_stmt
       [ Leaf token.NAME "x" "" 1;
         Leaf token.PLUSEQUAL "+=" " " 1;
         Leaf token.NUMBER "1" " " 1 ])
    [ mkframe syms.simple_stmt [] [ Leaf token.NEWLINE Str.nl "" 1 ];
      mkframe syms.file_input [] [ Leaf token.ENDMARKER "" "" 2 ] ].

(** The statement [x: int = 1]: its ['='] lies inside the [annassign]
    node, not among the children of the [expr_stmt]. *)
Definition annotated_loc : loc :=
  mkloc
    (Node syms.expr_stmt
       [ Leaf token.NAME "x" "" 1;
         Node syms.annassign
           [ Leaf token.COLON ":" "" 1;
             Leaf token.NAME "int" " " 1;
             Leaf token.EQUAL "=" " " 1;
             Leaf token.NUMBER "1" " " 1 ] ])
    [ mkframe syms.simple_stmt [] [ Leaf token.NEWLINE Str.nl "" 1 ];
      mkframe syms.file_input [] [ Leaf token.ENDMARKER "" "" 2 ] ].

(** [classdef_C] as the first child of [module_C]. *)
Definition classdef_C_loc : loc :=
  mkloc classdef_C
    [ mkframe syms.file_input [] [ Leaf token.ENDMARKER "" "" 3 ] ].

(** The entity the loader builds for [classdef_C] in the file [m.py]. *)
Definition class_C_parsed : Object :=
  Class_ (mkLocation "m.py" (Some 1)) "C" None [] None None [].

(** A [decorated] node whose first child is a name, not a decorator. *)
Definition bad_decorated : tree :=
  Node syms.decorated [ Leaf token.NAME "x" "" 1; classdef_C ].

(** A module whose first statement is the literal [r'doc']. *)
Definition module_raw_doc : tree :=
  Node syms.file_input
    [ Node syms.simple_stmt
        [ Leaf token.STRING "r'doc'" "" 1; Leaf token.NEWLINE Str.nl "" 1 ];
      Leaf token.ENDMARKER "" "" 2 ].

Definition raw_doc_stmt : loc :=
  mkloc (Node syms.simple_stmt
           [ Leaf token.STRING "r'doc'" "" 1; Leaf token.NEWLINE Str.nl "" 1 ])
    [ mkframe syms.file_input [] [ Leaf token.ENDMARKER "" "" 2 ] ].

(** The second statement of
[[
# top
x = 1  # c
y = 2
]]
    The comment [# c] lies in the prefix of the NEWLINE token that ends
    the first statement. *)
Definition first_stmt : tree :=
  Node syms.simple_stmt
    [ Node syms.expr_stmt
        [ Leaf token.NAME "x" ("# top" ++ Str.nl) 2;
          Leaf token.EQUAL "=" " " 2;
          Leaf token.NUMBER "1" " " 2 ];
      Leaf token.NEWLINE Str.nl "  # c" 2 ].

Definition second_stmt : loc :=
  mkloc
    (Node syms.expr_stmt
       [ Leaf token.NAME "y" "" 3;
         Leaf token.EQUAL "=" " " 3;
         Leaf token.NUMBER "2" " " 3 ])
    [ mkframe syms.simple_stmt [] [ Leaf token.NEWLINE Str.nl "" 3 ];
      mkframe syms.file_input [ first_stmt ] [ Leaf token.ENDMARKER "" "" 4 ] ].

(** The statement [y = 2] of
[[
# about x
if x:
    pass
    # trailing
y = 2
]]
    The comment below [pass] lies in the prefix of the DEDENT token that
    ends the block. *)
Definition if_block : tree :=
  Node syms.if_stmt
    [ Leaf token.NAME "if" ("# about x" ++ Str.nl) 2;
      Leaf token.NAME "x" " " 2;
      Leaf token.COLON ":" "" 2;
      Node syms.suite
        [ Leaf token.NEWLINE Str.nl "" 2;
          Leaf token.INDENT "    " "" 3;
          Node syms.simple_stmt
            [ Leaf token.NAME "pass" "" 3; Leaf token.NEWLINE Str.nl "" 3 ];
          Leaf token.DEDENT "" ("    # trailing" ++ Str.nl) 5 ] ].

Definition after_if_stmt : loc :=
  mkloc
    (Node syms.expr_stmt
       [ Leaf token.NAME "y" "" 5;
         Leaf token.EQUAL "=" " " 5;
         Leaf token.NUMBER "2" " " 5 ])
    [ mkframe syms.simple_stmt [] [ Leaf token.NEWLINE Str.nl "" 5 ];
      mkframe syms.file_input [ if_block ] [ Leaf token.ENDMARKER "" "" 6 ] ].

End Examples.

(** ** Further definitions *)

(** A [for] loop over [safe_iter(auto_advance)] whose body leaves the
    scanner alone: the elements it is given, and the scanner at the end. *)
Fixpoint iterate {A} (fuel : nat) (auto_advance : bool)
  (g : ListScanner.gen) (self : ListScanner.t A)
  : result (list A * ListScanner.t A) :=
  match fuel with
  | O => Raise OutOfFuel
  | S fuel =>
      match ListScanner.next auto_advance g self with
      | (g, self, ListScanner.Yield a) =>
          '(rest, self) <- iterate fuel auto_advance g self ;;
          Ok (a :: rest, self)
      | (_, self, ListScanner.StopIteration) => Ok ([], self)
      | (_, _, ListScanner.Raised e) => Raise e
      end
  end.

(** A result that is a value or one of the allowed exceptions. *)
Definition raises_only {A} (allowed : exn -> bool) (r : result A) : Prop :=
  match r with
  | Ok _ => True
  | Raise e => allowed e = true
  end.

(** The exceptions of a tree that has not the expected shape. *)
Definition shape_error (e : exn) : bool :=
  match e with
  | AssertionError _ | AttributeError | IndexError => true
  | _ => false
  end.

(** ["".join(map(str, nodes))]: the text of a list of nodes with every
    prefix. *)
Fixpoint str_all (nodes : list tree) : string :=
  match nodes with
  | [] => ""
  | n :: ns => str_tree n ++ str_all ns
  end.

(** *** Parameter lists

    The parameter lists on which the signature parser is shown right,
    as relations between the children of a [typedargslist] and the
    arguments they stand for. *)

(** A parameter name: a NAME leaf, or a [tname] node
    [name ':' annotation]. *)
Inductive name_node : tree -> string -> option Expression -> Prop :=
| name_plain v p ln :
    name_node (Leaf token.NAME v p ln) v None
| name_annotated v p ln colon ann :
    type colon = token.COLON ->
    name_node (Node syms.tname [Leaf token.NAME v p ln; colon; ann]) v
      (Some (mkExpression (nodes_to_string [ann]))).

(** One parameter, [name] or [name '=' default]. *)
Inductive one_param :
  list tree -> string -> option Expression -> option Expression -> Prop :=
| param_bare n name ann :
    name_node n name ann ->
    one_param [n] name ann None
| param_default n name ann eq d :
    name_node n name ann ->
    type eq = token.EQUAL ->
    one_param [n; eq; d] name ann (Some (mkExpression (nodes_to_string [d]))).

(** [param_list k toks args]: the tokens [toks], read with [k] as the
    kind of a plain parameter, stand for the arguments [args].  A
    variadic parameter [*name] or [**name] is the last token. *)
Inductive param_list :
  Argument.kind -> list tree -> list Argument.t -> Prop :=
| params_end k :
    param_list k [] []
| params_last k toks name ann default :
    one_param toks name ann default ->
    param_list k toks [Argument.make name ann default k]
| params_cons k toks name ann default comma rest args :
    one_param toks name ann default ->
    type comma = token.COMMA ->
    param_list k rest args ->
    param_list k (toks ++ comma :: rest)
      (Argument.make name ann default k :: args)
| params_separator k star comma rest args :
    type star = token.STAR ->
    type comma = token.COMMA ->
    param_list Argument.KW_ONLY rest args ->
    param_list k (star :: comma :: rest)
      (Argument.make "" None None Argument.KW_SEPARATOR :: args)
| params_star k star n name ann :
    type star = token.STAR ->
    name_node n name ann ->
    param_list k [star; n]
      [Argument.make name ann None Argument.POS_REMAINDER]
| params_double_star k dstar n name ann :
    type dstar = token.DOUBLESTAR ->
    name_node n name ann ->
    param_list k [dstar; n]
      [Argument.make name ann None Argument.KW_REMAINDER].

(** The generator of [safe_iter] can be resumed at index [i] without
    its check failing. *)
Definition resumable (g : ListScanner.gen) (i : nat) : Prop :=
  g = ListScanner.Fresh \/ exists index, g = ListScanner.Suspended index /\ index < i.

(** The [parameters] node around the children [inner]. *)
Definition parameters_node (pl pr : string) (ll lr : nat) (inner : list tree)
  : tree :=
  Node syms.parameters
    (Leaf token.LPAR "(" pl ll :: inner ++ [Leaf token.RPAR ")" pr lr])%list.

(** Every location in a reflection tree names the file [fn]. *)
Fixpoint located (fn : string) (o : Object) : bool :=
  match o with
  | Module_ location _ _ members =>
      String.eqb (loc_filename location) fn && forallb (located fn) members
  | Class_ location _ _ _ _ _ members =>
      String.eqb (loc_filename location) fn && forallb (located fn) members
  | Function_ location _ _ _ _ _ _ => String.eqb (loc_filename location) fn
  | Data_ location _ _ _ => String.eqb (loc_filename location) fn
  end.

(** The [bases] attribute of a class entity. *)
Definition bases_of (o : Object) : list Expression :=
  match o with
  | Class_ _ _ _ bases _ _ _ => bases
  | _ => []
  end.

(** The [name] attribute of an entity. *)
Definition name_of (o : Object) : string :=
  match o with
  | Module_ _ name _ _ => name
  | Class_ _ name _ _ _ _ _ => name
  | Function_ _ name _ _ _ _ _ => name
  | Data_ _ name _ _ => name
  end.

Module MoreExamples.

(** The body of
[[
def f():
    # The doc.

    pass
]]
    with the comment and the blank line in the prefix of the INDENT
    token. *)
Definition commented_suite : tree :=
  Node syms.suite
    [ Leaf token.NEWLINE Str.nl "" 1;
      Leaf token.INDENT "    " ("    # The doc." ++ Str.nl ++ Str.nl) 4;
      Node syms.simple_stmt
        [ Leaf token.NAME "pass" "" 4; Leaf token.NEWLINE Str.nl "" 4 ];
      Leaf token.DEDENT "" "" 5 ].

(** Its first statement, in context. *)
Definition commented_stmt : loc :=
  mkloc
    (Node syms.simple_stmt
       [ Leaf token.NAME "pass" "" 4; Leaf token.NEWLINE Str.nl "" 4 ])
    [ mkframe syms.suite
        [ Leaf token.INDENT "    " ("    # The doc." ++ Str.nl ++ Str.nl) 4;
          Leaf token.NEWLINE Str.nl "" 1 ]
        [ Leaf token.DEDENT "" "" 5 ] ].

End MoreExamples.

(** ** PythonLoader: the files of a module or package *)

Module Loader.

(** [s.endswith(suffix)] *)
Fixpoint endswith (s suffix : string) : bool :=
  String.eqb s suffix
  || match s with
     | "" => false
     | String _ r => endswith r suffix
     end.

(** [s.rstrip(chars)]: drops from the end every character that occurs
    in [chars]. *)
Fixpoint rstrip_chars (chars s : string) : string :=
  match s with
  | "" => ""
  | String c r =>
      let r' := rstrip_chars chars r in
      if os_path.has_char c chars && Str.is_empty r' then "" else String c r'
  end.

(** The last character of [s] occurs in [chars]. *)
Fixpoint last_char_in (chars s : string) : bool :=
  match s with
  | "" => false
  | String c "" => os_path.has_char c chars
  | String _ r => last_char_in chars r
  end.

(** Every character of [s] occurs in [chars]. *)
Fixpoint all_chars_in (chars s : string) : bool :=
  match s with
  | "" => true
  | String c r => os_path.has_char c chars && all_chars_in chars r
  end.

(** [posixpath.join(a, b)] *)
Definition join (a b : string) : string :=
  if Str.startswith b "/" then b
  else if Str.is_empty a || endswith a "/" then a ++ b
  else a ++ "/" ++ b.

(** What a run of the generator [_iter_module_files] can end with:
    [LoaderError path] stands for the error with the message
    [path ... does not exist]. *)
Inductive error : Type :=
| LoaderError (path : string)
| StopIteration
| OutOfFuel.

(** A run of a generator: what it yields, in order, and the exception
    that ends it, if one does. *)
Definition run : Type := (list (string * string) * option error)%type.

(** [next(g)] on a new generator [g]. *)
Definition next (g : run) : error + (string * string) :=
  match g with
  | (x :: _, _) => inr x
  | ([], Some e) => inl e
  | ([], None) => inl StopIteration
  end.

(** The file system, as [os.path.isfile], [os.path.isdir] and
    [os.listdir] show it. *)
Section FileSystem.

Variables isfile isdir : string -> bool.
Variable listdir : string -> list string.

Section Items.

(** [self._iter_module_files], the recursive call. *)
Variable rec : string -> string -> run.
Variables module_name path : string.

(** The loop over [os.listdir(path)]. *)
Fixpoint iter_items (items : list string) : run :=
  match items with
  | [] => ([], None)
  | item :: rest =>
      if String.eqb item "__init__.py" then iter_items rest
      else
        let item_abs := join path item in
        let name := module_name ++ "." ++ rstrip_chars ".py" item in
        if isdir item_abs && isfile (join item_abs "__init__.py") then
          match rec name item_abs with
          | (xs, Some e) => (xs, Some e)
          | (xs, None) =>
              let '(ys, e) := iter_items rest in ((xs ++ ys)%list, e)
          end
        else if isfile item_abs && endswith item_abs ".py" then
          match next (rec name item_abs) with
          | inl e => ([], Some e)
          | inr x => let '(ys, e) := iter_items rest in (x :: ys, e)
          end
        else iter_items rest
  end.

End Items.

(** [_iter_module_files(module_name, path)]; [fuel] bounds the depth of
    the directories. *)
Fixpoint _iter_module_files (fuel : nat) (module_name path : string) : run :=
  match fuel with
  | O => ([], Some OutOfFuel)
  | S fuel =>
      if isfile path then ([(module_name, path)], None)
      else if isdir path then
        match next (_iter_module_files fuel module_name
                      (join path "__init__.py")) with
        | inl e => ([], Some e)
        | inr x =>
            let '(ys, e) :=
              iter_items (_iter_module_files fuel) module_name path
                (listdir path) in
            (x :: ys, e)
        end
      else ([], Some (LoaderError path))
  end.

(** The files of a package directory that [_iter_module_files] takes
    for submodules when none of its entries is a directory. *)
Definition is_submodule_file (path item : string) : bool :=
  negb (String.eqb item "__init__.py")
  && isfile (join path item) && endswith (join path item) ".py".

End FileSystem.

(** [l.index(x)] for an [x] that occurs in [l]. *)
Fixpoint index (x : string) (l : list string) : nat :=
  match l with
  | [] => 0
  | y :: ys => if String.eqb y x then 0 else S (index x ys)
  end.

(** The first statements of [load], on the attribute [search_path] of
    the loader and [sys.path]: the attribute after the statements (the
    slice assignment changes the list it holds) and the search path that
    replaces [sys.path] while the modules are looked up. *)
Definition load_search_path (search_path : option (list string))
  (sys_path : list string) : option (list string) * list string :=
  match search_path with
  | None => (None, sys_path)
  | Some sp =>
      if existsb (String.eqb "*") sp then
        let i := index "*" sp in
        let sp' := (firstn i sp ++ sys_path ++ skipn (i + 1) sp)%list in
        (Some sp', sp')
      else (Some sp, sp)
  end.

End Loader.

Module FileSystemExample.

(** A file system with the module [single.py], the package [pkg] and
    the directory [empty], which has no [__init__.py]. *)
Definition files : list string :=
  [ "single.py"; "pkg/__init__.py"; "pkg/util.py"; "pkg/happy.py";
    "pkg/README"; "empty/notes.py" ].

Definition isfile (path : string) : bool := existsb (String.eqb path) files.

Definition isdir (path : string) : bool :=
  String.eqb path "pkg" || String.eqb path "empty".

Definition listdir (path : string) : list string :=
  if String.eqb path "pkg"
  then [ "util.py"; "__init__.py"; "README"; "happy.py" ]
  else if String.eqb path "empty" then [ "notes.py" ]
  else [].

End FileSystemExample.

Module ClassExamples.

(** The class
[[
class D(Base):
    pass
]]
    whose single base is not wrapped in an [arglist]. *)
Definition classdef_D : loc :=
  mkloc
    (Node syms.classdef
       [ Leaf token.NAME "class" "" 1;
         Leaf token.NAME "D" " " 1;
         Leaf token.LPAR "(" "" 1;
         Leaf token.NAME "Base" "" 1;
         Leaf token.RPAR ")" "" 1;
         Leaf token.COLON ":" "" 1;
         Node syms.suite
           [ Leaf token.NEWLINE Str.nl "" 1;
             Leaf token.INDENT "    " "" 2;
             Node syms.simple_stmt
               [ Leaf token.NAME "pass" "" 2; Leaf token.NEWLINE Str.nl "" 2 ];
             Leaf token.DEDENT "" "" 3 ] ])
    [ mkframe syms.file_input [] [ Leaf token.ENDMARKER "" "" 3 ] ].

Definition class_D_parsed : Object :=
  Class_ (mkLocation "m.py" (Some 1)) "D" None [] None None [].

End ClassExamples.

(** * Properties *)

Unset Implicit Arguments.

(** ** Node types *)

Lemma type_eqb_refl (a : node_type) : type_eqb a a = true.
Proof.
  unfold type_eqb. destruct (node_type_eq_dec a a); congruence.
Qed.

Lemma type_eqb_eq (a b : node_type) : type_eqb a b = true <-> a = b.
Proof.
  unfold type_eqb. destruct (node_type_eq_dec a b); split; congruence.
Qed.

Lemma type_eqb_neq (a b : node_type) : type_eqb a b = false <-> a <> b.
Proof.
  unfold type_eqb. destruct (node_type_eq_dec a b); split; congruence.
Qed.

(** ** ListScanner *)

Section ScannerFacts.
Context {A : Type}.
Implicit Types (self : ListScanner.t A) (l : list A).

Lemma advance_index expect self :
  ListScanner._index (fst (ListScanner.advance expect self))
  = ListScanner._index self + 1.
Proof.
  unfold ListScanner.advance.
  destruct (ListScanner.current _); reflexivity.
Qed.

Lemma advance_list expect self :
  ListScanner._list (fst (ListScanner.advance expect self))
  = ListScanner._list self.
Proof.
  unfold ListScanner.advance.
  destruct (ListScanner.current _); reflexivity.
Qed.

(** Without [expect], [advance] returns and does not raise. *)
Lemma advance_no_expect self :
  snd (ListScanner.advance false self)
  = Ok (nth_error (ListScanner._list self) (ListScanner._index self + 1)).
Proof.
  unfold ListScanner.advance, ListScanner.current, getitem. simpl.
  destruct (nth_error _ _); reflexivity.
Qed.

(** In manual mode the generator does raise when the scanner still
    stands at the index it had when the iteration began. *)
Lemma safe_iter_raises_at_start l index :
  exists msg,
    ListScanner.next false (ListScanner.Suspended index)
      (ListScanner.make l index)
    = (ListScanner.Finished, ListScanner.make l index,
       ListScanner.Raised (RuntimeError msg)).
Proof.
  eexists. simpl. rewrite Nat.eqb_refl. reflexivity.
Qed.

(** C6. In manual-advance mode the generator of [safe_iter] compares the
    scanner's index with the index it read once, when the iteration
    began, not with the index at the last [yield].  So at any index [i]
    other than the starting one, resuming the generator with the scanner
    where the last [yield] left it raises nothing: the element at [i] is
    yielded again. *)
Theorem safe_iter_yields_again l index i x :
  i <> index ->
  nth_error l i = Some x ->
  ListScanner.next false (ListScanner.Suspended index) (ListScanner.make l i)
  = (ListScanner.Suspended index, ListScanner.make l i, ListScanner.Yield x).
Proof.
  intros Hi Hx. simpl.
  destruct (Nat.eqb_spec i index) as [->|_]; [contradiction|].
  unfold ListScanner.loop_head, ListScanner.bool_, ListScanner.current, getitem.
  simpl. rewrite Hx.
  assert (Hlt : i < List.length l) by (apply nth_error_Some; congruence).
  apply Nat.ltb_lt in Hlt. rewrite Hlt. reflexivity.
Qed.

End ScannerFacts.

(** The run on the list [x; y]: the first step yields [x] and the caller
    advances; the second step yields [y] and the caller does not move the
    scanner; the third step yields [y] again. *)
Lemma safe_iter_yields_again_run :
  let s0 := ListScanner.make ["x"; "y"] 0 in
  let s1 := fst (ListScanner.advance false s0) in
  ListScanner.next false ListScanner.Fresh s0
    = (ListScanner.Suspended 0, s0, ListScanner.Yield "x")
  /\ ListScanner.next false (ListScanner.Suspended 0) s1
    = (ListScanner.Suspended 0, s1, ListScanner.Yield "y")
  /\ s1 = ListScanner.make ["x"; "y"] 1
  /\ ListScanner.next false (ListScanner.Suspended 0)
       (ListScanner.make ["x"; "y"] 1)
    = (ListScanner.Suspended 0, ListScanner.make ["x"; "y"] 1,
       ListScanner.Yield "y").
Proof.
  intros s0 s1.
  split; [reflexivity|]. split; [reflexivity|]. split; [reflexivity|].
  apply (@safe_iter_yields_again string ["x"; "y"] 0 1 "y").
  - lia.
  - reflexivity.
Defined.

(** ** Signature parser *)

(** C1. On the parameter list [(a, b=1, *args, c, d=2, **kwargs)], with
    any whitespace between the tokens, [parse_parameters] returns eight
    arguments: after [*args] the scanner is left on the comma, which is
    parsed as an argument named [","], and from there on names and
    separators are out of step. *)
Theorem parse_parameters_star_args pre ln :
  parse_parameters (Some (Examples.signature pre ln))
  = Ok [ Argument.make "a" None None Argument.POS;
         Argument.make "b" None (Some (mkExpression "1")) Argument.POS;
         Argument.make "args" None None Argument.POS_REMAINDER;
         Argument.make "," None None Argument.KW_ONLY;
         Argument.make "," None None Argument.KW_ONLY;
         Argument.make "=" None None Argument.KW_ONLY;
         Argument.make "," None None Argument.KW_ONLY;
         Argument.make "kwargs" None None Argument.KW_ONLY ].
Proof. reflexivity. Qed.

(** ** Declaration parser *)

(** C2. [parse_classdef] builds the class entity from the value the
    local [metaclass] has before the body is parsed, and the loop over
    the body only assigns the local variable.  So the metaclass of the
    class is the one of its header: a class without a [metaclass]
    keyword never gets a metaclass, whatever its body assigns to
    [__metaclass__]. *)
Theorem parse_classdef_keeps_metaclass fuel self parent node decorators
  members c :
  parse_classdef fuel self parent node decorators = Ok (members, Some c) ->
  metaclass_of c = header_metaclass (focus node).
Proof.
  intros H. unfold parse_classdef, parse_classdef_with in H.
  unfold header_metaclass.
  destruct (getitem (tree_children (focus node)) 1); [|discriminate H].
  simpl in H. destruct (value a); [|discriminate H]. simpl in H.
  set (header := match find _ (tree_children (focus node)) with
                 | Some classargs => _
                 | None => _
                 end) in *.
  assert (Hm : forall bases metaclass,
            header = Ok (bases, metaclass) ->
            match find (fun x => type_eqb (type x) syms.arglist)
                       (tree_children (focus node)) with
            | Some classargs =>
                match class_arguments (every_other (tree_children classargs))
                        [] None with
                | Ok (_, m) => m
                | Raise _ => None
                end
            | None => None
            end = metaclass).
  { intros bases metaclass. unfold header.
    destruct (find _ _); [|now intros [= _ <-]].
    intros ->. reflexivity. }
  destruct header as [[bases metaclass]|]; [|discriminate H].
  specialize (Hm bases metaclass eq_refl). simpl in H.
  destruct (deref _); [|discriminate H]. simpl in H.
  destruct (get_docstring_from_first_node _); [|discriminate H]. simpl in H.
  destruct (location_from _ _); [|discriminate H]. simpl in H.
  destruct (class_body _ _ _ _) as [[ms mc]|]; [|discriminate H]. simpl in H.
  injection H as _ <-. simpl. now rewrite Hm.
Qed.

(** The class [C] whose body is [__metaclass__ = Meta]: the statement is
    parsed to a Data entity with the expression [Meta], the class comes
    out without that member and without a metaclass. *)
Lemma parse_classdef_keeps_metaclass_run :
  let self := mkParser (Some "m.py") in
  parse_statement self []
    (mkloc (Node syms.expr_stmt
              [ Leaf token.NAME "__metaclass__" "" 2;
                Leaf token.EQUAL "=" " " 2;
                Leaf token.NAME "Meta" " " 2 ]) [])
    = Ok ([Data_ (mkLocation "m.py" (Some 2)) "__metaclass__" None
             (mkExpression "Meta")],
          Some (Data_ (mkLocation "m.py" (Some 2)) "__metaclass__" None
                  (mkExpression "Meta")))
  /\ parse_classdef 2 self [] Examples.classdef_C_loc None
    = Ok ([Examples.class_C_parsed], Some Examples.class_C_parsed)
  /\ members_of Examples.class_C_parsed = []
  /\ metaclass_of Examples.class_C_parsed
     = header_metaclass Examples.classdef_C
  /\ header_metaclass Examples.classdef_C = None.
Proof.
  intros self.
  split; [reflexivity|]. split; [reflexivity|]. split; [reflexivity|].
  split; [|reflexivity].
  apply (parse_classdef_keeps_metaclass 2 self [] Examples.classdef_C_loc
           None [Examples.class_C_parsed] Examples.class_C_parsed).
  reflexivity.
Defined.

(** C5, as the code has it.  A node whose kind [parse_declaration] has no
    branch for is skipped: the call returns [None], adds no entity and
    raises nothing.  The shape check that does fail is the one on a
    [decorated] node: when its first child is neither a [decorator] nor a
    [decorators] node, the call raises an assertion error that carries
    the kind of that child and no location. *)
Theorem parse_declaration_unrecognized fuel self parent node decorators :
  (recognized (type (focus node)) = false ->
   parse_declaration (S fuel) self parent node decorators = Ok (parent, None))
  /\ (forall first second,
        focus node = Node syms.decorated [first; second] ->
        type_eqb (type first) syms.decorator = false ->
        type_eqb (type first) syms.decorators = false ->
        parse_declaration (S fuel) self parent node decorators
        = Raise (AssertionError (TypePayload (type first)))).
Proof.
  split.
  - unfold recognized. intros H.
    repeat (apply orb_false_iff in H; destruct H as [H ?]).
    simpl. repeat match goal with
    | E : type_eqb _ _ = false |- _ => rewrite E; clear E
    end. reflexivity.
  - intros first second Hn H1 H2. simpl.
    unfold children. rewrite Hn. simpl. rewrite H1, H2. reflexivity.
Qed.

Lemma parse_declaration_unrecognized_run :
  let self := mkParser (Some "m.py") in
  recognized (type Examples.if_stmt_x) = false
  /\ parse_declaration 1 self [] (root Examples.if_stmt_x) None = Ok ([], None)
  /\ parse_declaration 1 self [] (root Examples.bad_decorated) None
     = Raise (AssertionError (TypePayload token.NAME)).
Proof.
  intros self. split; [reflexivity|]. split.
  - apply (proj1 (parse_declaration_unrecognized 0 self []
                    (root Examples.if_stmt_x) None)).
    reflexivity.
  - apply (proj2 (parse_declaration_unrecognized 0 self []
                    (root Examples.bad_decorated) None)
             (Leaf token.NAME "x" "" 1) Examples.classdef_C);
      reflexivity.
Defined.

(** C5, as stated, fails on the statement [if x: pass]: its kind is not
    one the parser recognizes, yet the call raises nothing and returns
    [None] without an entity. *)
Lemma parse_declaration_if_stmt_silent :
  recognized (type Examples.if_stmt_x) = false
  /\ parse_declaration 1 (mkParser (Some "m.py")) []
       (root Examples.if_stmt_x) None = Ok ([], None)
  /\ ~ (exists e,
          parse_declaration 1 (mkParser (Some "m.py")) []
            (root Examples.if_stmt_x) None = Raise e).
Proof.
  split; [reflexivity|]. split; [reflexivity|].
  intros [e He]. discriminate He.
Qed.

(** C9. The result of [parse] does not depend on the instance it is
    called on: [parse] assigns the only attribute, [filename], before
    anything reads it.  Two instances given the same text, file name and
    module name return the same reflection tree (or the same error). *)
Theorem parse_deterministic (parse_to_ast : string -> string -> result tree)
  (p1 p2 : Parser) (code filename : string) (module_name : option string) :
  parse_file parse_to_ast p1 code filename module_name
  = parse_file parse_to_ast p2 code filename module_name
  /\ (forall ast,
        parse p1 ast filename module_name = parse p2 ast filename module_name).
Proof.
  split.
  - unfold parse_file. destruct (parse_to_ast _ _); reflexivity.
  - intros ast. reflexivity.
Qed.

(** ** Strings *)

Section StringFacts.
Implicit Types (s t : string) (c : ascii) (ls : list string).

Lemma append_empty_r s : s ++ "" = s.
Proof. induction s; simpl; congruence. Qed.

Lemma append_assoc s t u : (s ++ t) ++ u = s ++ t ++ u.
Proof. induction s; simpl; congruence. Qed.

Lemma length_append s t :
  String.length (s ++ t) = String.length s + String.length t.
Proof. induction s; simpl; congruence. Qed.

Lemma is_empty_true s : Str.is_empty s = true <-> s = "".
Proof. destruct s; simpl; split; congruence. Qed.

Lemma lstrip_solid c s :
  Str.is_space c = false -> Str.lstrip (String c s) = String c s.
Proof. intros H. simpl. rewrite H. reflexivity. Qed.

Lemma rstrip_cons c s :
  Str.rstrip (String c s)
  = if Str.is_space c && Str.is_empty (Str.rstrip s) then ""
    else String c (Str.rstrip s).
Proof. reflexivity. Qed.

Lemma rstrip_solid c s :
  Str.is_space c = false -> Str.rstrip (String c s) = String c (Str.rstrip s).
Proof. intros H. simpl. rewrite H. reflexivity. Qed.

(** What [lstrip] returns is empty or begins with a solid character. *)
Lemma lstrip_head s :
  Str.lstrip s = "" \/
  exists c r, Str.lstrip s = String c r /\ Str.is_space c = false.
Proof.
  induction s as [|c r IH]; simpl; [now left|].
  destruct (Str.is_space c) eqn:E; [exact IH|].
  right. now exists c, r.
Qed.

Lemma rstrip_idem s : Str.rstrip (Str.rstrip s) = Str.rstrip s.
Proof.
  induction s as [|c r IH]; simpl; [reflexivity|].
  destruct (Str.is_space c && Str.is_empty (Str.rstrip r)) eqn:E;
    [reflexivity|].
  simpl. rewrite IH, E. reflexivity.
Qed.

Lemma strip_idem s : Str.strip (Str.strip s) = Str.strip s.
Proof.
  unfold Str.strip.
  destruct (lstrip_head s) as [->|(c & r & -> & Hc)]; [reflexivity|].
  rewrite (rstrip_solid c r Hc), (lstrip_solid c _ Hc).
  rewrite <- (rstrip_solid c r Hc). apply rstrip_idem.
Qed.

(** [rstrip] leaves a string alone when it ends with a solid character. *)
Lemma rstrip_ends_solid s : ends_solid s = true -> Str.rstrip s = s.
Proof.
  induction s as [|c r IH]; [reflexivity|].
  intros H. simpl in H. destruct r as [|d r'].
  - simpl. apply negb_true_iff in H. rewrite H. reflexivity.
  - specialize (IH H). rewrite rstrip_cons, IH.
    rewrite andb_false_r. reflexivity.
Qed.

Lemma ends_solid_append s t :
  t <> "" -> ends_solid t = true -> ends_solid (s ++ t) = true.
Proof.
  intros Ht H. induction s as [|c r IH]; [exact H|].
  simpl. destruct (r ++ t) eqn:E; [|exact IH].
  destruct r; simpl in E; [contradiction|discriminate].
Qed.

(** A string that begins and ends with a solid character is its own
    [strip]. *)
Lemma strip_solid c s :
  Str.is_space c = false -> ends_solid (String c s) = true ->
  Str.strip (String c s) = String c s.
Proof.
  intros Hc He. unfold Str.strip. rewrite (lstrip_solid c s Hc).
  now apply rstrip_ends_solid.
Qed.

Lemma split_nl_nonempty s : Str.split_nl s <> [].
Proof.
  destruct s as [|c r]; simpl; [discriminate|].
  destruct (Ascii.eqb c Str.nl_char); [discriminate|].
  destruct (Str.split_nl r); discriminate.
Qed.

Lemma join_nl_cons x y ls :
  Str.join_nl (x :: y :: ls) = x ++ Str.nl ++ Str.join_nl (y :: ls).
Proof. reflexivity. Qed.

Lemma join_nl_cons_nonempty x ls :
  ls <> [] -> Str.join_nl (x :: ls) = x ++ Str.nl ++ Str.join_nl ls.
Proof. destruct ls; [contradiction|reflexivity]. Qed.

(** ['\n'.join(s.split('\n')) == s] *)
Lemma join_split_nl s : Str.join_nl (Str.split_nl s) = s.
Proof.
  induction s as [|c r IH]; [reflexivity|].
  simpl. destruct (Ascii.eqb_spec c Str.nl_char) as [->|Hc].
  - rewrite join_nl_cons_nonempty by apply split_nl_nonempty.
    rewrite IH. reflexivity.
  - destruct (Str.split_nl r) as [|l ls] eqn:E.
    + now apply split_nl_nonempty in E.
    + destruct ls as [|l' ls'].
      * unfold Str.join_nl in *. simpl in *. congruence.
      * rewrite join_nl_cons. rewrite join_nl_cons in IH.
        simpl. simpl in IH. congruence.
Qed.

(** Splitting [first ++ nl ++ rest] when [first] is one line. *)
Lemma split_nl_first first rest :
  one_line first = true ->
  Str.split_nl (first ++ Str.nl ++ rest) = first :: Str.split_nl rest.
Proof.
  induction first as [|c r IH]; intros H.
  - reflexivity.
  - simpl in H. apply andb_true_iff in H as [Hc Hr].
    apply negb_true_iff in Hc.
    cbn [append Str.split_nl]. rewrite Hc, (IH Hr). reflexivity.
Qed.

Lemma split_nl_one_line s : one_line s = true -> Str.split_nl s = [s].
Proof.
  induction s as [|c r IH]; [reflexivity|].
  simpl. intros H. apply andb_true_iff in H as [Hc Hr].
  apply negb_true_iff in Hc. rewrite Hc, (IH Hr). reflexivity.
Qed.

(** [('\n'.join(ls)).split('\n') == ls] for lines without a newline. *)
Lemma split_join_nl ls :
  ls <> [] -> Forall (fun l => one_line l = true) ls ->
  Str.split_nl (Str.join_nl ls) = ls.
Proof.
  induction ls as [|x ls IH]; [contradiction|].
  intros _ H. inversion H as [|? ? Hx Hls]; subst.
  destruct ls as [|y ls'].
  - simpl. now apply split_nl_one_line.
  - rewrite join_nl_cons, (split_nl_first x _ Hx), IH; [reflexivity| |assumption].
    discriminate.
Qed.

Lemma startswith_append p s : Str.startswith (p ++ s) p = true.
Proof.
  unfold Str.startswith. induction p as [|c r IH]; simpl.
  - destruct s; reflexivity.
  - destruct (ascii_dec c c); [exact IH|contradiction].
Qed.

Lemma startswith_head c d s t :
  c <> d -> Str.startswith (String d s) (String c t) = false.
Proof.
  intros H. unfold Str.startswith. simpl.
  destruct (ascii_dec c d); [contradiction|reflexivity].
Qed.

Lemma substring_all s : substring 0 (String.length s) s = s.
Proof. induction s; simpl; congruence. Qed.

Lemma substring_prefix n s t :
  n = String.length s -> substring 0 n (s ++ t) = s.
Proof.
  intros ->. induction s as [|c r IH]; simpl.
  - destruct t; reflexivity.
  - now rewrite IH.
Qed.

(** [(q ++ body ++ q')[len(q) : -len(q')] == body] *)
Lemma slice_between q body q' :
  Str.slice (String.length q) (String.length q') (q ++ body ++ q') = body.
Proof.
  unfold Str.slice. rewrite !length_append.
  replace (String.length q + (String.length body + String.length q')
           - String.length q - String.length q')
    with (String.length body) by lia.
  induction q as [|c r IH]; simpl.
  - now apply substring_prefix.
  - exact IH.
Qed.

End StringFacts.

(** ** Docstring extractor *)

Lemma dedent_docstring_lines first rest :
  one_line first = true ->
  dedent_docstring (first ++ Str.nl ++ rest)
  = Str.strip (Str.strip first ++ Str.nl ++ textwrap.dedent rest).
Proof.
  intros H. unfold dedent_docstring.
  rewrite (split_nl_first first rest H), join_split_nl.
  rewrite join_nl_cons_nonempty by apply split_nl_nonempty.
  rewrite join_split_nl. reflexivity.
Qed.

Lemma quoted_strip c q body :
  Str.is_space c = false ->
  ends_solid (String c q) = true ->
  Str.strip (String c q ++ body ++ String c q) = String c q ++ body ++ String c q.
Proof.
  intros Hc He. change (String c q ++ body ++ String c q)
    with (String c (q ++ body ++ String c q)).
  apply strip_solid; [exact Hc|].
  change (String c (q ++ body ++ String c q))
    with (String c q ++ body ++ String c q).
  rewrite <- append_assoc. apply ends_solid_append; [discriminate|exact He].
Qed.

(** The triple-quote branch of [prepare_docstring]. *)
Lemma prepare_docstring_triple c body :
  c = "034"%char \/ c = "'"%char ->
  let q := String c (String c (String c "")) in
  prepare_docstring (q ++ body ++ q)
  = Some (Str.strip (dedent_docstring body)).
Proof.
  intros Hc q. unfold prepare_docstring.
  assert (Hstrip : Str.strip (q ++ body ++ q) = q ++ body ++ q)
    by (destruct Hc as [-> | ->]; apply quoted_strip; reflexivity).
  rewrite Hstrip.
  assert (Hsl : Str.slice 3 3 (q ++ body ++ q) = body)
    by apply (slice_between q body q).
  rewrite Hsl.
  assert (H3 : Str.startswith (q ++ body ++ q) q = true)
    by apply startswith_append.
  assert (H1 : Str.startswith (q ++ body ++ q) "#" = false)
    by (destruct Hc as [-> | ->]; reflexivity).
  rewrite H1.
  destruct Hc as [-> | ->].
  - change triple_dquote with q. rewrite H3. reflexivity.
  - change "'''" with q. rewrite H3, orb_true_r. reflexivity.
Qed.

Lemma string_prefix_char_cases c :
  is_string_prefix_char c = true ->
  Str.is_space c = false /\ c <> "#"%char /\ c <> "034"%char /\ c <> "'"%char.
Proof.
  unfold is_string_prefix_char. simpl. intros H.
  repeat (apply orb_true_iff in H; destruct H as [H|H]);
    try discriminate H;
    apply Ascii.eqb_eq in H; subst c;
    (split; [reflexivity|]); repeat split; discriminate.
Qed.

(** [prepare_docstring] knows no literal that begins with a prefix
    character. *)
Lemma prepare_docstring_prefixed c v :
  is_string_prefix_char c = true -> prepare_docstring (String c v) = None.
Proof.
  intros H. apply string_prefix_char_cases in H as (Hs & H1 & H2 & H3).
  unfold prepare_docstring, Str.strip.
  rewrite (lstrip_solid c v Hs), (rstrip_solid c v Hs).
  unfold triple_dquote, dquote. cbn [append].
  rewrite !startswith_head by congruence. reflexivity.
Qed.

(** C10. When the first statement of a body is a string literal that
    begins with a prefix character ([r], [u], [f], [b] or their capitals),
    [get_docstring_from_first_node] returns [None]. *)
Theorem prefixed_literal_no_docstring parent node c v p ln rest :
  find (fun x => is_Node (focus x)) (children parent) = Some node ->
  focus node = Node syms.simple_stmt (Leaf token.STRING (String c v) p ln :: rest) ->
  is_string_prefix_char c = true ->
  get_docstring_from_first_node parent = Ok None.
Proof.
  intros Hfind Hnode Hc. unfold get_docstring_from_first_node.
  rewrite Hfind, Hnode. simpl.
  rewrite (prepare_docstring_prefixed c v Hc). reflexivity.
Qed.

Lemma prefixed_literal_no_docstring_run :
  get_docstring_from_first_node (root Examples.module_raw_doc) = Ok None.
Proof.
  apply (prefixed_literal_no_docstring (root Examples.module_raw_doc)
           Examples.raw_doc_stmt "r"%char "'doc'" "" 1
           [Leaf token.NEWLINE Str.nl "" 1]); reflexivity.
Defined.

(** ** Trivia resolver *)

Lemma last_with_snoc {A B} (f : A -> B) (l : list A) (c : A) :
  last_with f (l ++ [c]) = Some (f c).
Proof.
  induction l as [|x l IH]; [reflexivity|].
  simpl. simpl in IH. rewrite IH. reflexivity.
Qed.

(** The right-most descendant: a leaf and a node without children are
    their own; otherwise it is that of the last child. *)
Lemma rightmost_leaf t v p ln : rightmost (Leaf t v p ln) = Leaf t v p ln.
Proof. reflexivity. Qed.

Lemma rightmost_childless t : rightmost (Node t []) = Node t [].
Proof. reflexivity. Qed.

Lemma rightmost_last_child t ch c :
  rightmost (Node t (ch ++ [c])) = rightmost c.
Proof. simpl. rewrite last_with_snoc. reflexivity. Qed.

(** A first child and its parent have the same prefix. *)
Lemma prefix_plug_first f node :
  lefts f = [] -> prefix (plug f node) = prefix node.
Proof. intros H. unfold plug. rewrite H. reflexivity. Qed.

Lemma truthy_empty_prefix node :
  prefix node = "" -> Str.truthy (prefix node) = false.
Proof. intros ->. reflexivity. Qed.

Lemma truthy_nonempty s : s <> "" -> Str.truthy s = true.
Proof. destruct s; [contradiction|reflexivity]. Qed.

Lemma climb_to_root p : forall node,
  prefix node = "" ->
  Forall (fun f => lefts f = []) p ->
  climb node p = None.
Proof.
  induction p as [|f p IH]; intros node Hp Hall; simpl.
  - rewrite Hp. reflexivity.
  - inversion Hall as [|? ? Hf Hrest]; subst.
    unfold prev_sibling. simpl. rewrite Hf, Hp. simpl.
    apply IH; [|exact Hrest].
    now rewrite prefix_plug_first.
Qed.

Lemma climb_to_sibling above : forall node f below s ls,
  prefix node = "" ->
  Forall (fun g => lefts g = []) above ->
  lefts f = s :: ls ->
  exists node',
    climb node (above ++ f :: below) = Some (mkloc node' (f :: below))
    /\ prefix node' = "".
Proof.
  induction above as [|g above IH]; intros node f below s ls Hp Hall Hf.
  - exists node. split; [|exact Hp].
    simpl. unfold prev_sibling. simpl. rewrite Hf. reflexivity.
  - inversion Hall as [|? ? Hg Hrest]; subst.
    destruct (IH (plug g node) f below s ls) as (node' & Hc & Hp');
      [now rewrite prefix_plug_first|exact Hrest|exact Hf|].
    exists node'. split; [|exact Hp'].
    simpl. unfold prev_sibling. simpl. rewrite Hg, Hp. simpl. exact Hc.
Qed.

(** The resolver always returns: the access to [prev_sibling] after the
    first loop cannot fail. *)
Lemma climb_exit p : forall node n',
  climb node p = Some n' ->
  Str.truthy (prefix (focus n')) = true \/ exists s, prev_sibling n' = Some s.
Proof.
  induction p as [|f p IH]; intros node n' H; simpl in H.
  - unfold prev_sibling in H. simpl in H.
    destruct (Str.truthy (prefix node)) eqn:E; simpl in H; [|discriminate].
    injection H as <-. left. exact E.
  - destruct (prev_sibling (mkloc node (f :: p))) eqn:Es.
    + injection H as <-. right. eauto.
    + destruct (Str.truthy (prefix node)) eqn:E; simpl in H.
      * injection H as <-. left. exact E.
      * eapply IH. exact H.
Qed.

Lemma get_most_recent_prefix_total node :
  exists s, get_most_recent_prefix node = Ok s.
Proof.
  unfold get_most_recent_prefix.
  destruct (Str.truthy (prefix (focus node))); [eauto|].
  destruct (climb (focus node) (path node)) as [n'|] eqn:E; [|eauto].
  destruct (climb_exit _ _ _ E) as [H|[s H]].
  - rewrite H. eauto.
  - destruct (Str.truthy (prefix (focus n'))); [eauto|].
    rewrite H. simpl. eauto.
Qed.

(** The function [rightmost] finds the right-most descendant. *)
Lemma rightmost_of_sound s d : rightmost_of s d -> rightmost s = d.
Proof.
  induction 1 as [t v p ln|t|t ch c d _ IH].
  - apply rightmost_leaf.
  - apply rightmost_childless.
  - rewrite rightmost_last_child. exact IH.
Qed.

(** C7. [get_most_recent_prefix] returns the node's own prefix when it is
    not empty.  Otherwise it climbs through the ancestors as long as the
    node at hand is a first child: when it gets to the root that way, it
    returns the empty string; when it gets to a node with a previous
    sibling [s], it returns the trivia of the right-most descendant of
    [s]: of [s] itself when it is a leaf or has no children, and otherwise
    of the node found by going down from [s] through the last child of
    every node on the way.  (A first child and its parent share their
    prefix, so the climb itself finds no trivia.) *)
Theorem get_most_recent_prefix_spec node :
  (prefix (focus node) <> "" ->
   get_most_recent_prefix node = Ok (prefix (focus node)))
  /\ (prefix (focus node) = "" ->
      Forall (fun f => lefts f = []) (path node) ->
      get_most_recent_prefix node = Ok "")
  /\ (prefix (focus node) = "" ->
      forall above f below s ls d,
        path node = (above ++ f :: below)%list ->
        Forall (fun g => lefts g = []) above ->
        lefts f = s :: ls ->
        rightmost_of s d ->
        get_most_recent_prefix node = Ok (prefix d)).
Proof.
  unfold get_most_recent_prefix. repeat split.
  - intros H. now rewrite (truthy_nonempty _ H).
  - intros Hp Hall. rewrite (truthy_empty_prefix _ Hp).
    now rewrite (climb_to_root _ _ Hp Hall).
  - intros Hp above f below s ls d Hpath Hall Hf Hd.
    rewrite (truthy_empty_prefix _ Hp), Hpath.
    destruct (climb_to_sibling above (focus node) f below s ls Hp Hall Hf)
      as (node' & -> & Hp').
    simpl. rewrite (truthy_empty_prefix _ Hp').
    unfold prev_sibling. simpl. rewrite Hf.
    simpl. rewrite (rightmost_of_sound s d Hd). reflexivity.
Qed.

(** A name with a comment above it; the first node of a module; the
    statement [y = 2] that follows [x = 1  # c], whose previous sibling is
    the whole statement [x = 1]: its right-most descendant is the NEWLINE
    token with the comment, not the token the statement begins with; and
    the statement [y = 2] that follows an [if] block: the right-most
    descendant of the block is the DEDENT token of its body, two levels
    down. *)
Lemma get_most_recent_prefix_spec_run :
  get_most_recent_prefix
    (root (Leaf token.NAME "x" ("# c" ++ Str.nl) 1)) = Ok ("# c" ++ Str.nl)
  /\ get_most_recent_prefix (root Examples.module_C) = Ok ""
  /\ get_most_recent_prefix Examples.second_stmt = Ok "  # c"
  /\ get_most_recent_prefix Examples.after_if_stmt
     = Ok ("    # trailing" ++ Str.nl).
Proof.
  split; [|split; [|split]].
  - apply (proj1 (get_most_recent_prefix_spec
                    (root (Leaf token.NAME "x" ("# c" ++ Str.nl) 1)))).
    discriminate.
  - apply (proj1 (proj2 (get_most_recent_prefix_spec
                           (root Examples.module_C)))).
    + reflexivity.
    + constructor.
  - apply (proj2 (proj2 (get_most_recent_prefix_spec Examples.second_stmt))
             eq_refl
             [ mkframe syms.simple_stmt [] [ Leaf token.NEWLINE Str.nl "" 3 ] ]
             (mkframe syms.file_input [ Examples.first_stmt ]
                [ Leaf token.ENDMARKER "" "" 4 ])
             []
             Examples.first_stmt
             []
             (Leaf token.NEWLINE Str.nl "  # c" 2)).
    + reflexivity.
    + repeat constructor.
    + reflexivity.
    + apply (@rightmost_of_last syms.simple_stmt
               [ Node syms.expr_stmt
                   [ Leaf token.NAME "x" ("# top" ++ Str.nl) 2;
                     Leaf token.EQUAL "=" " " 2;
                     Leaf token.NUMBER "1" " " 2 ] ]
               (Leaf token.NEWLINE Str.nl "  # c" 2)
               (Leaf token.NEWLINE Str.nl "  # c" 2)).
      apply rightmost_of_leaf.
  - apply (proj2 (proj2 (get_most_recent_prefix_spec Examples.after_if_stmt))
             eq_refl
             [ mkframe syms.simple_stmt [] [ Leaf token.NEWLINE Str.nl "" 5 ] ]
             (mkframe syms.file_input [ Examples.if_block ]
                [ Leaf token.ENDMARKER "" "" 6 ])
             []
             Examples.if_block
             []
             (Leaf token.DEDENT "" ("    # trailing" ++ Str.nl) 5)).
    + reflexivity.
    + repeat constructor.
    + reflexivity.
    + apply (@rightmost_of_last syms.if_stmt
               [ Leaf token.NAME "if" ("# about x" ++ Str.nl) 2;
                 Leaf token.NAME "x" " " 2;
                 Leaf token.COLON ":" "" 2 ]
               (Node syms.suite
                  [ Leaf token.NEWLINE Str.nl "" 2;
                    Leaf token.INDENT "    " "" 3;
                    Node syms.simple_stmt
                      [ Leaf token.NAME "pass" "" 3;
                        Leaf token.NEWLINE Str.nl "" 3 ];
                    Leaf token.DEDENT "" ("    # trailing" ++ Str.nl) 5 ])
               (Leaf token.DEDENT "" ("    # trailing" ++ Str.nl) 5)).
      apply (@rightmost_of_last syms.suite
               [ Leaf token.NEWLINE Str.nl "" 2;
                 Leaf token.INDENT "    " "" 3;
                 Node syms.simple_stmt
                   [ Leaf token.NAME "pass" "" 3;
                     Leaf token.NEWLINE Str.nl "" 3 ] ]
               (Leaf token.DEDENT "" ("    # trailing" ++ Str.nl) 5)
               (Leaf token.DEDENT "" ("    # trailing" ++ Str.nl) 5)).
      apply rightmost_of_leaf.
Defined.

(** ** Assignments *)

Section Assignments.
Local Open Scope list_scope.

Lemma get_hashtag_docstring_from_prefix_total node :
  exists r, get_hashtag_docstring_from_prefix node = Ok r.
Proof.
  unfold get_hashtag_docstring_from_prefix.
  destruct (get_most_recent_prefix_total node) as [s ->]. simpl.
  destruct (scan_lines _ _ _). eauto.
Qed.

(** [get_statement_docstring] always returns. *)
Lemma get_statement_docstring_total node :
  exists d, get_statement_docstring node = Ok d.
Proof.
  unfold get_statement_docstring.
  destruct (get_most_recent_prefix_total node) as [s ->]. simpl.
  destruct (Nat.eqb _ 1); [|eauto].
  destruct (get_hashtag_docstring_from_prefix_total node) as [[d dt] ->].
  simpl. destruct dt as [[|]|]; eauto.
Qed.

(** A segment without ['='] goes to [expression] as it is. *)
Lemma split_targets_segment seg : forall rest b names expression,
  no_assign_op seg = true ->
  split_targets (seg ++ rest) b names expression
  = split_targets rest b names (expression ++ seg).
Proof.
  induction seg as [|n seg IH]; intros rest b names expression H.
  - now rewrite app_nil_r.
  - simpl in H. apply andb_true_iff in H as [Hn Hseg].
    apply negb_true_iff in Hn. simpl. rewrite Hn.
    rewrite (IH rest b names (expression ++ [n]) Hseg).
    now rewrite <- app_assoc.
Qed.

Lemma split_targets_plain children : forall b names expression,
  no_assign_op children = true ->
  split_targets children b names expression
  = (b, names, expression ++ children).
Proof.
  intros b names expression H.
  rewrite <- (app_nil_r children) at 1.
  rewrite (split_targets_segment children [] b names expression H).
  reflexivity.
Qed.

Lemma split_targets_targets targets : forall last b names,
  forallb well_formed_target targets = true ->
  no_assign_op last = true ->
  targets <> [] ->
  split_targets (assignment_children targets last) b names []
  = (true, names ++ map fst targets, last).
Proof.
  unfold assignment_children.
  induction targets as [|[seg op] targets IH]; intros last b names Hwf Hlast Hne.
  - contradiction.
  - simpl in Hwf. apply andb_true_iff in Hwf as [Hthis Hwf].
    apply andb_true_iff in Hthis as [Hseg Hop]. simpl in Hseg, Hop.
    simpl. rewrite <- !app_assoc.
    rewrite (split_targets_segment seg _ b names [] Hseg).
    simpl. rewrite Hop.
    destruct targets as [|tg targets'].
    + simpl. rewrite (split_targets_plain last true _ [] Hlast).
      simpl. reflexivity.
    + rewrite (IH last true (names ++ [seg])); try assumption;
        [|discriminate].
      now rewrite <- app_assoc.
Qed.

(** Every list of children with an ['='] leaf is an assignment. *)
Lemma assignment_children_exist children :
  no_assign_op children = false ->
  exists targets last,
    children = assignment_children targets last
    /\ targets <> []
    /\ forallb well_formed_target targets = true
    /\ no_assign_op last = true.
Proof.
  induction children as [|n children IH]; [discriminate|].
  intros H. simpl in H.
  destruct (is_assign_op n) eqn:En.
  - destruct (no_assign_op children) eqn:Ec.
    + exists [([], n)], children. repeat split; try discriminate; try assumption.
      unfold well_formed_target. simpl. now rewrite En.
    + destruct (IH eq_refl) as (targets & last & -> & Hne & Hwf & Hlast).
      exists (([], n) :: targets), last. repeat split; try discriminate;
        try assumption.
      simpl. unfold well_formed_target at 1. simpl. now rewrite En.
  - simpl in H. destruct (IH H) as (targets & last & -> & Hne & Hwf & Hlast).
    destruct targets as [|[seg op] targets]; [contradiction|].
    exists ((n :: seg, op) :: targets), last.
    repeat split; try discriminate; try assumption.
    simpl in Hwf |- *. apply andb_true_iff in Hwf as [Hthis Hwf].
    rewrite Hwf, andb_true_r. unfold well_formed_target in *. simpl in *.
    now rewrite En.
Qed.

Lemma last_with_map {A B C} (f : B -> C) (g : A -> B) (l : list A) :
  last_with f (map g l) = last_with (fun x => f (g x)) l.
Proof.
  induction l as [|x l IH]; [reflexivity|].
  simpl in *. rewrite IH. reflexivity.
Qed.

Lemma make_data_all self fn stmt docstring expr names :
  filename self = Some fn ->
  forall parent data,
    let mk name :=
      Data_ (mkLocation fn (get_lineno stmt)) (nodes_to_string name)
        docstring expr in
    make_data self stmt docstring expr names parent data
    = Ok (parent ++ map mk names,
          match last_with mk names with Some d => Some d | None => data end).
Proof.
  intros Hfn. induction names as [|name names IH]; intros parent data mk.
  - simpl. now rewrite app_nil_r.
  - simpl. unfold location_from. rewrite Hfn. simpl.
    rewrite IH. rewrite <- app_assoc. simpl.
    fold mk. destruct (last_with mk names); reflexivity.
Qed.

(** An ['='] leaf among the children of a statement is one of its
    tokens; the converse fails for a token further down. *)
Lemma own_assign_token n :
  no_assign_op (tree_children n) = false -> has_assign_token n = true.
Proof.
  destruct n as [t v p ln|ty ch]; [discriminate|].
  unfold no_assign_op. simpl.
  induction ch as [|c ch IH]; [discriminate|].
  simpl. destruct c as [t v p ln|ty' ch']; simpl.
  - destruct (String.eqb v "="); [reflexivity|exact IH].
  - intros H. rewrite (IH H). apply orb_true_r.
Qed.

(** C4, as the code has it.  An expression statement whose own children
    hold at least one ['='] leaf yields one Data entity per target, in
    order, appended to the parent; each is named by the text of its
    segment and all carry the expression made of the text after the last
    ['='] and the statement docstring; the call returns the last of them.
    A statement without an ['='] leaf among its own children adds nothing
    and returns [None], whatever tokens its children hold further down. *)
Theorem parse_statement_data self fn parent stmt :
  filename self = Some fn ->
  exists docstring,
    get_statement_docstring stmt = Ok docstring
    /\ (forall targets last,
          tree_children (focus stmt) = assignment_children targets last ->
          targets <> [] ->
          forallb well_formed_target targets = true ->
          no_assign_op last = true ->
          let mk tg :=
            Data_ (mkLocation fn (get_lineno (focus stmt)))
              (nodes_to_string (fst tg)) docstring
              (mkExpression (nodes_to_string last)) in
          parse_statement self parent stmt
          = Ok (parent ++ map mk targets, last_with mk targets))
    /\ (no_assign_op (tree_children (focus stmt)) = true ->
        parse_statement self parent stmt = Ok (parent, None)).
Proof.
  intros Hfn.
  destruct (get_statement_docstring_total stmt) as [docstring Hdoc].
  exists docstring. split; [exact Hdoc|]. split.
  - intros targets last Hch Hne Hwf Hlast mk.
    unfold parse_statement.
    rewrite Hch, (split_targets_targets targets last false [] Hwf Hlast Hne).
    rewrite Hdoc. simpl.
    destruct targets as [|tg targets]; [contradiction|].
    cbn [map List.length Nat.eqb negb assert bind].
    rewrite (make_data_all self fn (focus stmt) docstring _ _ Hfn).
    change (fst tg :: map fst targets) with (map fst (tg :: targets)).
    rewrite map_map, last_with_map. fold mk.
    destruct (last_with mk (tg :: targets)); reflexivity.
  - intros H. unfold parse_statement.
    rewrite (split_targets_plain _ false [] [] H). reflexivity.
Qed.

(** The statements [x = y = 1] under the comment [#: doc], and [x += 1]. *)
Lemma parse_statement_data_run :
  let self := mkParser (Some "m.py") in
  let location := mkLocation "m.py" (Some 2) in
  parse_statement self [] (Examples.assignment_loc "#: doc")
  = Ok ([ Data_ location "x" (Some "doc") (mkExpression "1");
          Data_ location "y" (Some "doc") (mkExpression "1") ],
        Some (Data_ location "y" (Some "doc") (mkExpression "1")))
  /\ parse_statement self [] Examples.augmented_loc = Ok ([], None).
Proof.
  intros self location. split.
  - destruct (parse_statement_data self "m.py" []
                (Examples.assignment_loc "#: doc") eq_refl)
      as (docstring & Hdoc & Hassign & _).
    vm_compute in Hdoc. injection Hdoc as <-.
    apply (Hassign
             [ ([Leaf token.NAME "x" ("#: doc" ++ Str.nl) 2],
                Leaf token.EQUAL "=" " " 2);
               ([Leaf token.NAME "y" " " 2], Leaf token.EQUAL "=" " " 2) ]
             [Leaf token.NUMBER "1" " " 2]).
    + reflexivity.
    + discriminate.
    + reflexivity.
    + reflexivity.
  - destruct (parse_statement_data self "m.py" []
                Examples.augmented_loc eq_refl)
      as (docstring & _ & _ & Hplain).
    apply Hplain. reflexivity.
Defined.

(** C4, as stated, fails on the annotated assignment [x: int = 1]: it is
    an expression statement with an ['='] token, and with the name [x]
    before it, yet [parse_statement] adds no Data entity and returns
    [None].  The ['='] lies inside the [annassign] child, and the loop
    looks at the children of the statement only. *)
Lemma parse_statement_annotated_no_data :
  type_eqb (type (focus Examples.annotated_loc)) syms.expr_stmt = true
  /\ has_assign_token (focus Examples.annotated_loc) = true
  /\ parse_statement (mkParser (Some "m.py")) [] Examples.annotated_loc
     = Ok ([], None)
  /\ ~ (exists members d,
          parse_statement (mkParser (Some "m.py")) [] Examples.annotated_loc
          = Ok (members, Some d)).
Proof.
  split; [reflexivity|]. split; [reflexivity|]. split; [reflexivity|].
  intros (members & d & H). discriminate H.
Qed.

End Assignments.

(** ** Statement docstrings *)

Section StatementDocstrings.
Implicit Types (s t : string) (c : ascii) (ls lines : list string).








(** Every prefix is a body that ends with a solid character, or is
    empty, followed by whitespace. *)
Lemma trailing_split_exists s :
  exists body ws,
    s = body ++ ws /\ all_space ws = true /\ ends_solid body = true.
Proof.
  induction s as [|c r (body & ws & -> & Hws & Hbody)].
  - now exists "", "".
  - destruct body as [|d body'].
    + destruct (Str.is_space c) eqn:Ec.
      * exists "", (String c ws). simpl. now rewrite Ec, Hws.
      * exists (String c ""), ws. simpl. now rewrite Ec.
    + exists (String c (String d body')), ws. auto.
Qed.


(** *** Lines *)

Lemma one_line_lstrip s : one_line s = true -> one_line (Str.lstrip s) = true.
Proof.
  induction s as [|c r IH]; [reflexivity|].
  intros H. simpl. destruct (Str.is_space c); [|exact H].
  simpl in H. apply andb_true_iff in H as [_ H]. now apply IH.
Qed.

Lemma one_line_rstrip s : one_line s = true -> one_line (Str.rstrip s) = true.
Proof.
  induction s as [|c r IH]; [reflexivity|].
  intros H. simpl in H. apply andb_true_iff in H as [Hc Hr].
  rewrite rstrip_cons. destruct (_ && _); [reflexivity|].
  simpl. now rewrite Hc, (IH Hr).
Qed.

Lemma one_line_strip s : one_line s = true -> one_line (Str.strip s) = true.
Proof. intros H. now apply one_line_rstrip, one_line_lstrip. Qed.

Lemma split_nl_one_lines s :
  Forall (fun l => one_line l = true) (Str.split_nl s).
Proof.
  induction s as [|c r IH]; simpl; [now repeat constructor|].
  destruct (Ascii.eqb c Str.nl_char) eqn:Ec.
  - constructor; [reflexivity|exact IH].
  - destruct (Str.split_nl r) as [|l ls].
    { constructor; [|constructor]. simpl. now rewrite Ec. }
    inversion IH as [|? ? Hl Hls]; subst. constructor; [|exact Hls].
    simpl. now rewrite Ec, Hl.
Qed.

Lemma ends_solid_rstrip s : ends_solid (Str.rstrip s) = true.
Proof.
  induction s as [|c r IH]; [reflexivity|].
  rewrite rstrip_cons.
  destruct (Str.is_space c) eqn:Ec; simpl.
  - destruct (Str.rstrip r) eqn:Er; [reflexivity|]. simpl. exact IH.
  - destruct (Str.rstrip r) eqn:Er; [now rewrite Ec|]. exact IH.
Qed.

Lemma strip_solid_or_empty s : Str.strip s = "" \/ solid (Str.strip s).
Proof.
  unfold Str.strip.
  destruct (lstrip_head s) as [->|(c & r & -> & Hc)]; [now left|].
  right. split; [apply ends_solid_rstrip|].
  rewrite (rstrip_solid c r Hc). eauto.
Qed.

Lemma truthy_strip_solid s :
  Str.truthy (Str.strip s) = true -> solid (Str.strip s).
Proof.
  destruct (strip_solid_or_empty s) as [->|H]; [discriminate|auto].
Qed.

Lemma startswith_hash_nonempty s :
  Str.startswith s "#" = true -> Str.truthy s = true.
Proof. destruct s; [discriminate|reflexivity]. Qed.

Lemma startswith_cons a p b s :
  Str.startswith (String b s) (String a p)
  = if ascii_dec a b then Str.startswith s p else false.
Proof. reflexivity. Qed.

Lemma startswith_nil s : Str.startswith s "" = true.
Proof. destruct s; reflexivity. Qed.

Lemma startswith_hashcolon_hash s :
  Str.startswith s "#:" = true -> Str.startswith s "#" = true.
Proof.
  destruct s as [|c r]; [discriminate|].
  rewrite !startswith_cons.
  destruct (ascii_dec "#" c); intros H; [|exact H].
  apply startswith_nil.
Qed.

(** *** The join of solid lines *)

Lemma join_nl_snoc_nonempty ls c r :
  Str.join_nl (ls ++ [String c r])%list <> "".
Proof.
  destruct ls as [|y ls]; [discriminate|].
  change ((y :: ls) ++ [String c r])%list with (y :: (ls ++ [String c r]))%list.
  rewrite join_nl_cons_nonempty by (destruct ls; discriminate).
  destruct y; discriminate.
Qed.

Lemma ends_solid_join ls l :
  solid l -> ends_solid (Str.join_nl (ls ++ [l])%list) = true.
Proof.
  intros [He (c & r & -> & Hc)].
  induction ls as [|x ls IH]; [exact He|].
  change ((x :: ls) ++ [String c r])%list with (x :: (ls ++ [String c r]))%list.
  rewrite join_nl_cons_nonempty by (destruct ls; discriminate).
  apply ends_solid_append.
  - discriminate.
  - change (Str.nl ++ ?x) with (String Str.nl_char x).
    destruct (Str.join_nl (ls ++ [String c r])) eqn:E; [|exact IH].
    now apply join_nl_snoc_nonempty in E.
Qed.

Lemma join_nl_head c r ls :
  exists t, Str.join_nl (String c r :: ls) = String c t.
Proof.
  destruct ls as [|y ls]; [now exists r|].
  rewrite join_nl_cons. simpl. eauto.
Qed.

(** *** The scan over the lines of a prefix *)

Lemma scan_inv_start : scan_inv [] None.
Proof. split; [constructor|congruence]. Qed.

Lemma scan_lines_inv rlines : forall lines dt,
  Forall (fun l => one_line l = true) rlines ->
  scan_inv lines dt ->
  scan_inv (fst (scan_lines rlines lines dt)) (snd (scan_lines rlines lines dt)).
Proof.
  induction rlines as [|line rest IH]; intros lines dt Hr Hinv; [exact Hinv|].
  inversion Hr as [|? ? Hline Hrest]; subst.
  cbn [scan_lines].
  destruct (negb (Nat.eqb (List.length lines) 0)
            && negb (Str.startswith (Str.strip line) "#")) eqn:Ebreak;
    [exact Hinv|].
  apply IH; [exact Hrest|].
  rewrite strip_idem.
  destruct Hinv as [Hlines Hlast].
  assert (Hone : one_line (Str.strip line) = true) by now apply one_line_strip.
  destruct (Str.startswith (Str.strip line) "#") eqn:Ehash.
  - (* a comment line: it is appended *)
    assert (Ht : Str.truthy (Str.strip line) = true)
      by now apply startswith_hash_nonempty.
    rewrite Ht, orb_true_r. split.
    + apply Forall_app. split; [exact Hlines|].
      constructor; [|constructor]. split; [exact Hone|].
      now apply truthy_strip_solid.
    + intros _. now exists lines, (Str.strip line).
  - (* not a comment: only possible while nothing is collected *)
    rewrite andb_true_r in Ebreak. apply negb_false_iff in Ebreak.
    apply Nat.eqb_eq in Ebreak.
    destruct lines; [|discriminate Ebreak]. simpl.
    assert (Hcolon : Str.startswith (Str.strip line) "#:" = false).
    { destruct (Str.startswith (Str.strip line) "#:") eqn:E; [|reflexivity].
      apply startswith_hashcolon_hash in E. congruence. }
    rewrite Hcolon.
    destruct (Str.truthy (Str.strip line)) eqn:Et.
    + split.
      * constructor; [|constructor]. split; [exact Hone|].
        now apply truthy_strip_solid.
      * intros Hdt. destruct dt; [|congruence].
        destruct (Hlast Hdt) as (ls & l & E & _).
        destruct ls; discriminate E.
    + split; [constructor|].
      intros Hdt. destruct dt; [|congruence].
      destruct (Hlast Hdt) as (ls & l & E & _).
      destruct ls; discriminate E.
Qed.

Lemma comment_run_inv pfx :
  scan_inv (List.rev (comment_run pfx)) (run_doc_type pfx).
Proof.
  unfold comment_run, run_doc_type. rewrite rev_involutive.
  apply scan_lines_inv; [|apply scan_inv_start].
  apply Forall_rev, split_nl_one_lines.
Qed.

(** A run whose type is known is turned into a docstring: the text of
    its lines without their markers. *)
Lemma prepare_docstring_run pfx :
  run_doc_type pfx <> None ->
  prepare_docstring (Str.join_nl (comment_run pfx))
  = Some (without_markers (comment_run pfx)).
Proof.
  intros Hdt. destruct (comment_run_inv pfx) as [Hlines Hlast].
  destruct (Hlast Hdt) as (ls & l & Erev & Hhash).
  assert (Erun : comment_run pfx = l :: List.rev ls).
  { rewrite <- (rev_involutive (comment_run pfx)), Erev, rev_app_distr.
    reflexivity. }
  assert (Hall : Forall (fun l => one_line l = true /\ solid l)
                   (comment_run pfx)).
  { rewrite <- (rev_involutive (comment_run pfx)). now apply Forall_rev. }
  assert (Hl : solid l).
  { rewrite Erun in Hall. inversion Hall as [|? ? [_ H] _]. exact H. }
  destruct Hl as [_ (c & r & -> & Hc)].
  (* the joined text is its own strip *)
  assert (Hstrip : Str.strip (Str.join_nl (comment_run pfx))
                   = Str.join_nl (comment_run pfx)).
  { destruct (join_nl_head c r (List.rev ls)) as [t Et].
    pose proof Et as Et'. rewrite <- Erun in Et'. rewrite Et'.
    apply strip_solid; [exact Hc|]. rewrite <- Et'.
    destruct (List.rev (comment_run pfx)) as [|x xs] eqn:Ex.
    - destruct ls; discriminate Erev.
    - rewrite <- (rev_involutive (comment_run pfx)), Ex.
      simpl. apply ends_solid_join.
      inversion Hlines as [|? ? [_ H] _]. exact H. }
  unfold prepare_docstring. rewrite Hstrip.
  assert (Hstart : Str.startswith (Str.join_nl (comment_run pfx)) "#" = true).
  { rewrite Erun. destruct (join_nl_head c r (List.rev ls)) as [t ->].
    rewrite startswith_cons in Hhash |- *.
    destruct (ascii_dec "#" c); [apply startswith_nil|discriminate Hhash]. }
  rewrite Hstart, split_join_nl; [reflexivity| |].
  - rewrite Erun. discriminate.
  - eapply Forall_impl; [|exact Hall]. intros a [H _]. exact H.
Qed.




End StatementDocstrings.

(** ** textwrap.dedent on an indented block *)

Lemma strip_margin_empty m : textwrap.strip_margin m "" = "".
Proof. destruct m; reflexivity. Qed.

Lemma dedent_margin_found text m :
  m <> "" ->
  fold_left textwrap.step_margin
    (textwrap.indents (map textwrap.blank_out (Str.split_nl text))) None
  = Some m ->
  textwrap.dedent text
  = Str.join_nl (map (textwrap.strip_margin m)
                   (map textwrap.blank_out (Str.split_nl text))).
Proof.
  intros Hne H. unfold textwrap.dedent. rewrite H.
  destruct m; [contradiction|reflexivity].
Qed.

Section Dedent.
Variable margin : string.
Hypothesis margin_blank : textwrap.all_blank margin = true.
Hypothesis margin_nonempty : margin <> "".

Lemma all_blank_append s t :
  textwrap.all_blank (s ++ t) = textwrap.all_blank s && textwrap.all_blank t.
Proof.
  induction s as [|c r IH]; simpl; [reflexivity|].
  now rewrite IH, andb_assoc.
Qed.

Lemma all_blank_one_line s : textwrap.all_blank s = true -> one_line s = true.
Proof.
  induction s as [|c r IH]; [reflexivity|].
  simpl. intros H. apply andb_true_iff in H as [Hc Hr].
  rewrite (IH Hr), andb_true_r.
  unfold textwrap.is_blank in Hc. apply orb_true_iff in Hc as [Hc|Hc];
    apply Ascii.eqb_eq in Hc; subst c; reflexivity.
Qed.

Lemma one_line_append s t : one_line (s ++ t) = one_line s && one_line t.
Proof.
  induction s as [|c r IH]; simpl; [reflexivity|].
  now rewrite IH, andb_assoc.
Qed.

Lemma leading_blanks_append s t :
  textwrap.all_blank s = true ->
  textwrap.leading_blanks (s ++ t) = s ++ textwrap.leading_blanks t.
Proof.
  induction s as [|c r IH]; [reflexivity|].
  simpl. intros H. apply andb_true_iff in H as [Hc Hr].
  now rewrite Hc, (IH Hr).
Qed.

Lemma drop_append s t : Str.drop (String.length s) (s ++ t) = t.
Proof. induction s as [|c r IH]; simpl; [now destruct t|exact IH]. Qed.

Lemma startswith_length s p :
  Str.startswith s p = true -> String.length p <= String.length s.
Proof.
  revert s. induction p as [|c p IH]; intros s H; simpl; [lia|].
  destruct s as [|d s]; [discriminate H|].
  rewrite startswith_cons in H. destruct (ascii_dec c d); [|discriminate H].
  specialize (IH s H). simpl. lia.
Qed.

Lemma append_same_length s x :
  String.length (s ++ x) <= String.length s -> x = "".
Proof.
  rewrite length_append. destruct x; [reflexivity|]. simpl. lia.
Qed.

Lemma cut_margin_append s x y :
  textwrap.cut_margin (s ++ x) (s ++ y) = s ++ textwrap.cut_margin x y.
Proof.
  induction s as [|c r IH]; [reflexivity|].
  simpl. now rewrite Ascii.eqb_refl, IH.
Qed.

(** *** The margin computed over the indents *)

Lemma step_margin_prefix x y :
  exists z,
    textwrap.step_margin (Some (margin ++ x)) (margin ++ y)
    = Some (margin ++ z).
Proof.
  unfold textwrap.step_margin.
  destruct (Str.startswith _ _); [eauto|].
  destruct (Str.startswith _ _); [eauto|].
  rewrite cut_margin_append. eauto.
Qed.

Lemma step_margin_exact_l y :
  textwrap.step_margin (Some margin) (margin ++ y) = Some margin.
Proof.
  unfold textwrap.step_margin. now rewrite startswith_append.
Qed.

Lemma step_margin_exact_r x :
  textwrap.step_margin (Some (margin ++ x)) margin = Some margin.
Proof.
  unfold textwrap.step_margin.
  destruct (Str.startswith margin (margin ++ x)) eqn:E.
  - apply startswith_length, append_same_length in E. subst x.
    now rewrite append_empty_r.
  - now rewrite startswith_append.
Qed.

Lemma fold_margin_exact l :
  Forall (fun i => exists y, i = margin ++ y) l ->
  fold_left textwrap.step_margin l (Some margin) = Some margin.
Proof.
  induction 1 as [|i l (y & ->) _ IH]; [reflexivity|].
  cbn [fold_left]. rewrite step_margin_exact_l. exact IH.
Qed.

Lemma fold_margin_reaches l : forall o,
  margin_state margin o ->
  Forall (fun i => exists y, i = margin ++ y) l ->
  In margin l ->
  fold_left textwrap.step_margin l o = Some margin.
Proof.
  induction l as [|i l IH]; intros o Ho Hall Hin; [contradiction|].
  inversion Hall as [|? ? (y & Hy) Hrest]; subst.
  cbn [fold_left].
  destruct Hin as [Hi|Hin].
  - assert (Hstep : textwrap.step_margin o (margin ++ y) = Some margin).
    { rewrite Hi. destruct Ho as [->|(x & ->)]; [reflexivity|].
      apply step_margin_exact_r. }
    rewrite Hstep. now apply fold_margin_exact.
  - apply IH; [|exact Hrest|exact Hin].
    destruct Ho as [->|(x & ->)].
    + right. now exists y.
    + right. destruct (step_margin_prefix x y) as [z ->]. now exists z.
Qed.

(** *** The lines of the block *)

Lemma indented_one_lines items :
  forallb well_formed_line items = true ->
  Forall (fun l => one_line l = true) (map (indented_line margin) items).
Proof.
  induction items as [|it items IH]; intros H; [constructor|].
  simpl in H. apply andb_true_iff in H as [Hit Hrest].
  constructor; [|now apply IH].
  destruct it as [w|b]; simpl in *.
  - now apply all_blank_one_line.
  - apply andb_true_iff in Hit as [_ Hb].
    now rewrite one_line_append, (all_blank_one_line margin margin_blank).
Qed.

Lemma blank_out_indented items :
  forallb well_formed_line items = true ->
  map textwrap.blank_out (map (indented_line margin) items)
  = map (blanked margin) items.
Proof.
  induction items as [|it items IH]; intros H; [reflexivity|].
  simpl in H. apply andb_true_iff in H as [Hit Hrest].
  simpl. rewrite (IH Hrest). f_equal.
  destruct it as [w|b]; simpl in *; unfold textwrap.blank_out.
  - now rewrite Hit.
  - apply andb_true_iff in Hit as [Hb _]. apply negb_true_iff in Hb.
    now rewrite all_blank_append, Hb, andb_false_r.
Qed.

Lemma indents_blanked items :
  forallb well_formed_line items = true ->
  Forall (fun i => exists y, i = margin ++ y)
    (textwrap.indents (map (blanked margin) items))
  /\ (existsb flush_left items = true ->
      In margin (textwrap.indents (map (blanked margin) items))).
Proof.
  induction items as [|it items IH]; intros H.
  - split; [constructor|discriminate].
  - simpl in H. apply andb_true_iff in H as [Hit Hrest].
    destruct (IH Hrest) as [Hall Hin].
    destruct it as [w|b]; simpl.
    + split; [exact Hall|exact Hin].
    + simpl in Hit. apply andb_true_iff in Hit as [Hb _].
      apply negb_true_iff in Hb.
      unfold textwrap.indent_of.
      rewrite all_blank_append, Hb, andb_false_r.
      rewrite (leading_blanks_append margin b margin_blank).
      split.
      * constructor; [eauto|exact Hall].
      * intros Hex. apply orb_true_iff in Hex as [Hflush|Hex].
        -- left. apply is_empty_true in Hflush. rewrite Hflush.
           apply append_empty_r.
        -- right. now apply Hin.
Qed.

Lemma strip_margin_blanked items :
  forallb well_formed_line items = true ->
  map (textwrap.strip_margin margin) (map (blanked margin) items)
  = map dedented_line items.
Proof.
  intros _. rewrite map_map. apply map_ext. intros [w|b]; simpl.
  - apply strip_margin_empty.
  - unfold textwrap.strip_margin.
    now rewrite startswith_append, drop_append.
Qed.

(** A block of lines indented by [margin], among them blank lines and
    lines indented deeper, with one line at least that begins right
    after the margin: [dedent] removes the margin from every line and
    empties the blank ones. *)
Lemma dedent_indented_block items :
  forallb well_formed_line items = true ->
  existsb flush_left items = true ->
  textwrap.dedent (Str.join_nl (map (indented_line margin) items))
  = Str.join_nl (map dedented_line items).
Proof.
  intros Hwf Hflush.
  assert (Hne : map (indented_line margin) items <> [])
    by (destruct items; [discriminate Hflush|discriminate]).
  assert (Hsplit : Str.split_nl (Str.join_nl (map (indented_line margin) items))
                   = map (indented_line margin) items)
    by apply (split_join_nl _ Hne (indented_one_lines items Hwf)).
  destruct (indents_blanked items Hwf) as [Hall Hin].
  rewrite (dedent_margin_found _ margin margin_nonempty);
    rewrite Hsplit, (blank_out_indented items Hwf).
  - now rewrite strip_margin_blanked.
  - apply (fold_margin_reaches _ None (or_introl eq_refl) Hall (Hin Hflush)).
Qed.

End Dedent.

(** The docstring of a literal whose further lines form an indented
    block: the stripped first line, then the block without its margin. *)
Lemma prepare_docstring_indented_block margin first items :
  textwrap.all_blank margin = true ->
  margin <> "" ->
  one_line first = true ->
  forallb well_formed_line items = true ->
  existsb flush_left items = true ->
  prepare_docstring
    ("'''" ++ (first ++ Str.nl
               ++ Str.join_nl (map (indented_line margin) items)) ++ "'''")
  = Some (Str.strip (Str.strip first ++ Str.nl
                     ++ Str.join_nl (map dedented_line items))).
Proof.
  intros Hm Hne Hfirst Hwf Hflush.
  rewrite (prepare_docstring_triple "'" _ (or_intror eq_refl)).
  rewrite (dedent_docstring_lines first _ Hfirst), strip_idem.
  now rewrite (dedent_indented_block margin Hm Hne items Hwf Hflush).
Qed.

Example prepare_docstring_indented_block_run :
  prepare_docstring
    ("'''" ++ ("Summary line." ++ Str.nl
               ++ Str.join_nl
                    (map (indented_line "    ")
                       [ Text "Details,"; Text "  indented more."; Blank "  " ]))
     ++ "'''")
  = Some ("Summary line." ++ Str.nl ++ "Details," ++ Str.nl
          ++ "  indented more.").
Proof.
  rewrite (prepare_docstring_indented_block "    " "Summary line."
             [ Text "Details,"; Text "  indented more."; Blank "  " ]);
    (reflexivity || discriminate).
Qed.

(** ** textwrap.dedent removes the margin of a text *)

Lemma startswith_refl s : Str.startswith s s = true.
Proof.
  induction s as [|c s IH]; [reflexivity|].
  rewrite startswith_cons. now destruct (ascii_dec c c).
Qed.

Lemma startswith_trans a : forall b c,
  Str.startswith a b = true -> Str.startswith b c = true ->
  Str.startswith a c = true.
Proof.
  induction a as [|x a IH]; intros b c Hab Hbc.
  - destruct b; [exact Hbc|discriminate Hab].
  - destruct c as [|z c]; [reflexivity|].
    destruct b as [|y b]; [discriminate Hbc|].
    rewrite startswith_cons in *.
    destruct (ascii_dec z y) as [->|]; [|discriminate Hbc].
    destruct (ascii_dec y x) as [->|]; [|discriminate Hab].
    now apply (IH b c).
Qed.

Lemma startswith_leading_blanks l :
  Str.startswith l (textwrap.leading_blanks l) = true.
Proof.
  induction l as [|c l IH]; [reflexivity|].
  cbn [textwrap.leading_blanks].
  destruct (textwrap.is_blank c); [|apply startswith_nil].
  rewrite startswith_cons. now destruct (ascii_dec c c).
Qed.

(** The common prefix of two strings is a prefix of both. *)
Lemma startswith_common_l a : forall b,
  Str.startswith a (common_prefix a b) = true.
Proof.
  induction a as [|x a IH]; intros b; [reflexivity|].
  destruct b as [|y b]; [reflexivity|].
  cbn [common_prefix]. destruct (Ascii.eqb x y); [|reflexivity].
  rewrite startswith_cons. destruct (ascii_dec x x); [apply IH|congruence].
Qed.

Lemma startswith_common_r a : forall b,
  Str.startswith b (common_prefix a b) = true.
Proof.
  induction a as [|x a IH]; intros b; [apply startswith_nil|].
  destruct b as [|y b]; [reflexivity|].
  cbn [common_prefix]. destruct (Ascii.eqb x y) eqn:E; [|reflexivity].
  apply Ascii.eqb_eq in E. subst y.
  rewrite startswith_cons. destruct (ascii_dec x x); [apply IH|congruence].
Qed.

Lemma common_prefix_margin m : forall i,
  Str.startswith i m = true -> common_prefix m i = m.
Proof.
  induction m as [|x m IH]; intros i H; [reflexivity|].
  destruct i as [|y i]; [discriminate H|].
  rewrite startswith_cons in H.
  destruct (ascii_dec x y) as [<-|]; [|discriminate H].
  cbn [common_prefix]. rewrite Ascii.eqb_refl. now rewrite IH.
Qed.

Lemma common_prefix_indent m : forall i,
  Str.startswith m i = true -> common_prefix m i = i.
Proof.
  induction m as [|x m IH]; intros i H.
  - destruct i; [reflexivity|discriminate H].
  - destruct i as [|y i]; [reflexivity|].
    rewrite startswith_cons in H.
    destruct (ascii_dec y x) as [->|]; [|discriminate H].
    cbn [common_prefix]. rewrite Ascii.eqb_refl. now rewrite IH.
Qed.

(** The loop that cuts the margin is run when neither of the margin and
    the indent begins with the other: it leaves their common prefix. *)
Lemma cut_margin_common m : forall i,
  Str.startswith m i = false ->
  textwrap.cut_margin m i = common_prefix m i.
Proof.
  induction m as [|x m IH]; intros i H; [reflexivity|].
  destruct i as [|y i]; [discriminate H|].
  cbn [textwrap.cut_margin common_prefix].
  destruct (Ascii.eqb x y) eqn:E; [|reflexivity].
  apply Ascii.eqb_eq in E. subst y.
  rewrite startswith_cons in H.
  destruct (ascii_dec x x); [|congruence].
  now rewrite IH.
Qed.

Lemma step_margin_common m i :
  textwrap.step_margin (Some m) i = Some (common_prefix m i).
Proof.
  unfold textwrap.step_margin.
  destruct (Str.startswith i m) eqn:E1;
    [now rewrite common_prefix_margin|].
  destruct (Str.startswith m i) eqn:E2;
    [now rewrite common_prefix_indent|].
  now rewrite cut_margin_common.
Qed.

Lemma fold_margin_common indents : forall m,
  fold_left textwrap.step_margin indents (Some m)
  = Some (fold_left common_prefix indents m).
Proof.
  induction indents as [|i indents IH]; intros m; [reflexivity|].
  cbn [fold_left]. rewrite step_margin_common. apply IH.
Qed.

Lemma indents_blank_out lines :
  textwrap.indents (map textwrap.blank_out lines)
  = map textwrap.leading_blanks
      (filter (fun l => negb (textwrap.all_blank l)) lines).
Proof.
  induction lines as [|l lines IH]; [reflexivity|].
  cbn [map filter textwrap.indents].
  unfold textwrap.blank_out at 1, textwrap.indent_of.
  destruct (textwrap.all_blank l) eqn:E; cbn [negb].
  - exact IH.
  - rewrite E. cbn [map]. now rewrite IH.
Qed.

Lemma fold_common_prefix_head rest : forall i,
  Str.startswith i (fold_left common_prefix rest i) = true.
Proof.
  induction rest as [|r rest IH]; intros i; [apply startswith_refl|].
  cbn [fold_left].
  apply (startswith_trans i (common_prefix i r)); [|apply IH].
  apply startswith_common_l.
Qed.

Lemma fold_common_prefix_in rest : forall i r,
  In r rest -> Str.startswith r (fold_left common_prefix rest i) = true.
Proof.
  induction rest as [|a rest IH]; intros i r Hin; [contradiction|].
  cbn [fold_left]. destruct Hin as [->|Hin]; [|now apply IH].
  apply (startswith_trans r (common_prefix i r));
    [apply startswith_common_r|apply fold_common_prefix_head].
Qed.

(** Every line with a character other than space and tab begins with
    the margin. *)
Lemma common_margin_prefix lines l :
  In l lines -> textwrap.all_blank l = false ->
  Str.startswith l (common_margin lines) = true.
Proof.
  intros Hin Hl.
  assert (H : In (textwrap.leading_blanks l)
                (map textwrap.leading_blanks
                   (filter (fun l => negb (textwrap.all_blank l)) lines))).
  { apply in_map, filter_In. split; [exact Hin|now rewrite Hl]. }
  apply (startswith_trans l (textwrap.leading_blanks l));
    [apply startswith_leading_blanks|].
  unfold common_margin.
  destruct (map _ _) as [|i rest]; [contradiction|].
  destruct H as [<-|H].
  - apply fold_common_prefix_head.
  - now apply fold_common_prefix_in.
Qed.

(** The margin that the loop of [dedent] arrives at. *)
Lemma dedent_margin lines :
  fold_left textwrap.step_margin
    (textwrap.indents (map textwrap.blank_out lines)) None
  = match map textwrap.leading_blanks
            (filter (fun l => negb (textwrap.all_blank l)) lines) with
    | [] => None
    | _ :: _ => Some (common_margin lines)
    end.
Proof.
  rewrite indents_blank_out. unfold common_margin.
  destruct (map _ _) as [|i rest]; [reflexivity|].
  cbn [fold_left textwrap.step_margin]. apply fold_margin_common.
Qed.

Lemma common_margin_none lines :
  map textwrap.leading_blanks
    (filter (fun l => negb (textwrap.all_blank l)) lines) = [] ->
  common_margin lines = "".
Proof. unfold common_margin. now intros ->. Qed.

(** [textwrap.dedent] computes the dedented text. *)
Lemma dedent_dedented text : textwrap.dedent text = dedented text.
Proof.
  unfold textwrap.dedent, dedented. rewrite dedent_margin.
  pose proof (common_margin_prefix (Str.split_nl text)) as Hpre.
  pose proof (common_margin_none (Str.split_nl text)) as Hnone.
  destruct (map textwrap.leading_blanks _) as [|i rest].
  - rewrite Hnone by reflexivity. reflexivity.
  - clear Hnone.
    destruct (common_margin (Str.split_nl text)) as [|c m] eqn:Em.
    + reflexivity.
    + rewrite map_map. f_equal. apply map_ext_in. intros l Hin.
      unfold textwrap.blank_out.
      destruct (textwrap.all_blank l) eqn:E; [apply strip_margin_empty|].
      unfold textwrap.strip_margin. now rewrite (Hpre l Hin E).
Qed.

(** C8. A triple-quoted literal whose text is a first line followed by
    further lines is turned into the stripped first line, a newline and
    the further lines dedented, the whole stripped.  The further lines
    dedented are these lines without their margin, the longest string of
    spaces and tabs that all of them begin with, the lines made of spaces
    and tabs only being left aside, and emptied. *)
Theorem prepare_docstring_triple_quoted q first rest :
  q = triple_dquote \/ q = "'''" ->
  one_line first = true ->
  prepare_docstring (q ++ (first ++ Str.nl ++ rest) ++ q)
  = Some (Str.strip (Str.strip first ++ Str.nl ++ dedented rest)).
Proof.
  intros Hq Hfirst.
  rewrite <- dedent_dedented.
  rewrite <- (strip_idem (Str.strip first ++ Str.nl ++ textwrap.dedent rest)).
  rewrite <- (dedent_docstring_lines first rest Hfirst).
  destruct Hq as [-> | ->]; apply prepare_docstring_triple.
  - now left.
  - now right.
Qed.

(** The docstring
[[
'''Summary line.
    Details,
  <tab>mixed,
      indented more.
    '''
]]
    whose lines share two spaces, and no more: the second begins with
    two spaces and a tab. *)
Lemma prepare_docstring_triple_quoted_run :
  prepare_docstring
    ("'''" ++ ("Summary line." ++ Str.nl
               ++ "    Details," ++ Str.nl
               ++ "  " ++ String "009"%char "mixed," ++ Str.nl
               ++ "      indented more." ++ Str.nl ++ "    ") ++ "'''")
  = Some ("Summary line." ++ Str.nl ++ "  Details," ++ Str.nl
          ++ String "009"%char "mixed," ++ Str.nl
          ++ "    indented more.").
Proof.
  rewrite (prepare_docstring_triple_quoted "'''" "Summary line."
             ("    Details," ++ Str.nl
              ++ "  " ++ String "009"%char "mixed," ++ Str.nl
              ++ "      indented more." ++ Str.nl ++ "    ")).
  - reflexivity.
  - right. reflexivity.
  - reflexivity.
Defined.

(** ** Fuel

    The recursion bounds of the embedding are never reached: neither
    [parse_parameters] nor [parse] ends in [OutOfFuel]. *)

Section Fuel.
Local Open Scope list_scope.

Lemma ff_ok {A} (a : A) : fuel_free (Ok a).
Proof. discriminate. Qed.

Lemma ff_raise {A} e : e <> OutOfFuel -> fuel_free (@Raise A e).
Proof. unfold fuel_free. congruence. Qed.

Lemma ff_bind {A B} (c : result A) (k : A -> result B) :
  fuel_free c -> (forall a, c = Ok a -> fuel_free (k a)) ->
  fuel_free (bind c k).
Proof.
  unfold fuel_free. destruct c as [a|e]; simpl; intros Hc Hk.
  - now apply Hk.
  - intros H. apply Hc. congruence.
Qed.

Lemma ff_deref {A} (o : option A) : fuel_free (deref o).
Proof. destruct o; discriminate. Qed.

Lemma ff_getitem {A} (l : list A) i : fuel_free (getitem l i).
Proof. unfold getitem. destruct (nth_error l i); discriminate. Qed.

Lemma ff_value n : fuel_free (value n).
Proof. destruct n; discriminate. Qed.

Lemma ff_assert b p : fuel_free (assert b p).
Proof. destruct b; discriminate. Qed.

Lemma ff_node_to_string o : fuel_free (node_to_string o).
Proof. destruct o; discriminate. Qed.

Lemma ff_current (sc : node_scanner) : fuel_free (ListScanner.current sc).
Proof. apply ff_getitem. Qed.

Lemma ff_advance (sc : node_scanner) :
  fuel_free (snd (ListScanner.advance false sc)).
Proof. rewrite advance_no_expect. discriminate. Qed.

Lemma ff_index_of x l : fuel_free (index_of x l).
Proof.
  induction l as [|y l IH]; simpl; [discriminate|].
  destruct (tree_eqb y x); [discriminate|].
  apply ff_bind; [exact IH|discriminate].
Qed.

Lemma ff_location_from self n : fuel_free (location_from self n).
Proof. unfold location_from. destruct (filename self); discriminate. Qed.

Lemma ff_get_most_recent_prefix n : fuel_free (get_most_recent_prefix n).
Proof. destruct (get_most_recent_prefix_total n) as [s ->]. discriminate. Qed.

Lemma ff_get_statement_docstring n : fuel_free (get_statement_docstring n).
Proof. destruct (get_statement_docstring_total n) as [s ->]. discriminate. Qed.

Lemma ff_get_hashtag n : fuel_free (get_hashtag_docstring_from_prefix n).
Proof.
  destruct (get_hashtag_docstring_from_prefix_total n) as [s ->]. discriminate.
Qed.

Create HintDb ff.
#[local] Hint Resolve ff_ok ff_deref ff_getitem ff_value ff_assert
  ff_node_to_string ff_current ff_index_of ff_location_from
  ff_get_most_recent_prefix ff_get_statement_docstring ff_get_hashtag : ff.

Ltac ff_step :=
  match goal with
  | |- fuel_free (Ok _) => apply ff_ok
  | |- fuel_free (Raise _) => apply ff_raise; discriminate
  | |- fuel_free (bind _ _) => apply ff_bind; [|intros ? ?]
  | |- fuel_free (snd (ListScanner.advance false _)) => apply ff_advance
  | |- fuel_free (match ?x with _ => _ end) => destruct x eqn:?
  | |- fuel_free _ => solve [auto with ff]
  end.

Ltac ff := repeat ff_step.

Lemma ff_name_to_string n : fuel_free (name_to_string n).
Proof.
  unfold name_to_string. destruct (type_eqb _ _); [|apply ff_value].
  induction (tree_children n) as [|x l IH]; simpl; ff.
Qed.

Lemma ff_advance_pair (sc sc' : node_scanner) r :
  ListScanner.advance false sc = (sc', r) -> fuel_free r.
Proof.
  intros H. pose proof (ff_advance sc) as Hff. now rewrite H in Hff.
Qed.

#[local] Hint Resolve ff_name_to_string : ff.
#[local] Hint Extern 1 (fuel_free ?r) =>
  match goal with
  | H : ListScanner.advance false _ = (_, r) |- _ =>
      exact (ff_advance_pair _ _ _ H)
  end : ff.

Lemma ff_parse_annotated_name node : fuel_free (parse_annotated_name node).
Proof. unfold parse_annotated_name. ff. Qed.

#[local] Hint Resolve ff_parse_annotated_name : ff.

Lemma ff_parse_argument node k sc : fuel_free (parse_argument node k sc).
Proof. unfold parse_argument. ff. Qed.

#[local] Hint Resolve ff_parse_argument : ff.

Lemma ff_parameters_body st : fuel_free (parameters_body st).
Proof. unfold parameters_body. ff. Qed.

(** Scanner positions: [advance] and [parse_argument] keep the list and
    move the index forward. *)
Lemma advance_pair (sc sc' : node_scanner) r :
  ListScanner.advance false sc = (sc', r) ->
  ListScanner._list sc' = ListScanner._list sc
  /\ ListScanner._index sc' = ListScanner._index sc + 1.
Proof.
  intros H. pose proof (advance_list false sc) as Hl.
  pose proof (advance_index false sc) as Hi.
  rewrite H in Hl, Hi. auto.
Qed.

Ltac scanner_facts :=
  repeat match goal with
  | H : ListScanner.advance false _ = (_, _) |- _ =>
      apply advance_pair in H; destruct H as [? ?]
  end.

Ltac ok_inv H :=
  repeat match type of H with
  | bind ?c _ = Ok _ =>
      let E := fresh "E" in
      destruct c eqn:E; simpl in H; [|discriminate H]
  | match ?c with _ => _ end = Ok _ =>
      let E := fresh "E" in
      destruct c eqn:E; simpl in H; try discriminate H
  end.

Lemma parse_argument_progress node k (sc sc' : node_scanner) arg :
  parse_argument node k sc = Ok (arg, sc') ->
  ListScanner._list sc' = ListScanner._list sc
  /\ ListScanner._index sc < ListScanner._index sc'.
Proof.
  unfold parse_argument. intros H. ok_inv H;
    injection H as <- <-; scanner_facts; split; (congruence || lia).
Qed.

Lemma parameters_body_progress index result argtype index' result' argtype' :
  parameters_body (index, result, argtype) = Ok (index', result', argtype') ->
  ListScanner._list index' = ListScanner._list index
  /\ ListScanner._index index < ListScanner._index index'.
Proof.
  unfold parameters_body. intros H. ok_inv H;
    try (injection H as <- <- <-);
    repeat match goal with
    | E : parse_argument _ _ _ = Ok _ |- _ =>
        apply parse_argument_progress in E; destruct E as [? ?]
    end;
    scanner_facts; split; (congruence || lia).
Qed.

(** The loop of [parse_parameters] ends within
    [len(children) - index + 1] steps. *)
Lemma parameters_loop_fuel fuel : forall index0 index result argtype,
  List.length (ListScanner._list index) - ListScanner._index index < fuel ->
  fuel_free (parameters_loop fuel (ListScanner.Suspended index0)
               (index, result, argtype))
  /\ fuel_free (parameters_loop fuel ListScanner.Fresh
                  (index, result, argtype)).
Proof.
  induction fuel as [|fuel IH]; intros index0 index result argtype Hlt; [lia|].
  assert (Hhead : forall i0,
    fuel_free
      match ListScanner.loop_head i0 index with
      | (g, index1, ListScanner.Yield _) =>
          st <- parameters_body (index1, result, argtype) ;;
          parameters_loop fuel g st
      | (_, _, ListScanner.StopIteration) => Ok result
      | (_, _, ListScanner.Raised e) => Raise e
      end).
  { intros i0. unfold ListScanner.loop_head.
    destruct (ListScanner.bool_ index) eqn:Eb; [|apply ff_ok].
    unfold ListScanner.bool_ in Eb. apply Nat.ltb_lt in Eb.
    unfold ListScanner.current, getitem.
    destruct (nth_error _ _) eqn:En;
      [|apply nth_error_None in En; lia].
    apply ff_bind; [apply ff_parameters_body|].
    intros [[index' result'] argtype'] Hbody.
    apply parameters_body_progress in Hbody as [Hl Hi].
    apply IH. rewrite Hl. lia. }
  split.
  - cbn [parameters_loop ListScanner.next].
    destruct (Nat.eqb _ index0); [apply ff_raise; discriminate|].
    apply Hhead.
  - cbn [parameters_loop ListScanner.next]. apply Hhead.
Qed.

(** [parse_parameters] never runs out of fuel. *)
Lemma ff_parse_parameters parameters : fuel_free (parse_parameters parameters).
Proof.
  unfold parse_parameters. ff.
  apply parameters_loop_fuel; [exact 0|]. simpl. lia.
Qed.

(** *** The declaration parser *)

Lemma depth_pos n : 0 < depth n.
Proof. destruct n; simpl; lia. Qed.

Lemma depth_child t ch x : In x ch -> depth x < depth (Node t ch).
Proof.
  intros H. simpl. apply Nat.lt_succ_r.
  induction ch as [|c ch IH]; [contradiction|].
  destruct H as [->|H].
  - apply Nat.le_max_l.
  - etransitivity; [apply IH, H|apply Nat.le_max_r].
Qed.

Lemma children_from_focus ty rs : forall ls p c,
  In c (children_from ty ls rs p) -> In (focus c) rs.
Proof.
  induction rs as [|r rs IH]; intros ls p c H; [contradiction|].
  destruct H as [<-|H]; [now left|]. right. eapply IH, H.
Qed.

Lemma children_depth node child :
  In child (children node) -> depth (focus child) < depth (focus node).
Proof.
  unfold children. destruct (focus node) as [|ty ch]; [contradiction|].
  intros H. apply children_from_focus in H. now apply depth_child.
Qed.

Lemma getitem_In {A} (l : list A) i a : getitem l i = Ok a -> In a l.
Proof.
  unfold getitem. destruct (nth_error l i) eqn:E; [|discriminate].
  intros [= <-]. eapply nth_error_In, E.
Qed.

Lemma find_In {A} (p : A -> bool) l a : find p l = Some a -> In a l.
Proof.
  induction l as [|x l IH]; simpl; [discriminate|].
  destruct (p x); [intros [= <-]; now left|].
  intros H. right. now apply IH.
Qed.

Lemma ff_get_docstring_from_first_node parent :
  fuel_free (get_docstring_from_first_node parent).
Proof. unfold get_docstring_from_first_node. ff. Qed.

Lemma ff_get_return_annotation node : fuel_free (get_return_annotation node).
Proof. unfold get_return_annotation. ff. Qed.

Lemma ff_parse_decorator node : fuel_free (parse_decorator node).
Proof. unfold parse_decorator. ff. Qed.

#[local] Hint Resolve ff_get_docstring_from_first_node
  ff_get_return_annotation ff_parse_decorator ff_parse_parameters : ff.

Lemma ff_parse_decorators nodes : forall decorators,
  fuel_free (parse_decorators nodes decorators).
Proof. induction nodes as [|n nodes IH]; intros decorators; simpl; ff. Qed.

Lemma ff_make_data self stmt docstring expr names : forall parent data,
  fuel_free (make_data self stmt docstring expr names parent data).
Proof.
  induction names as [|name names IH]; intros parent data; simpl; ff.
Qed.

#[local] Hint Resolve ff_parse_decorators ff_make_data : ff.

Lemma ff_parse_statement self parent stmt :
  fuel_free (parse_statement self parent stmt).
Proof. unfold parse_statement. ff. Qed.

Lemma ff_parse_funcdef self parent node is_async decorators :
  fuel_free (parse_funcdef self parent node is_async decorators).
Proof. unfold parse_funcdef. ff. Qed.

Lemma ff_class_arguments args : forall bases metaclass,
  fuel_free (class_arguments args bases metaclass).
Proof. induction args as [|a args IH]; intros bases metaclass; simpl; ff. Qed.

#[local] Hint Resolve ff_parse_statement ff_parse_funcdef
  ff_class_arguments : ff.

Lemma ff_class_body rec children : forall members metaclass,
  (forall child members, In child children -> fuel_free (rec members child)) ->
  fuel_free (class_body rec children members metaclass).
Proof.
  induction children as [|child children IH]; intros members metaclass Hrec;
    simpl; [apply ff_ok|].
  assert (Hrest : forall members metaclass,
            fuel_free (class_body rec children members metaclass))
    by (intros; apply IH; intros; apply Hrec; now right).
  destruct (is_Node (focus child)); [|apply Hrest].
  apply ff_bind; [apply Hrec; now left|].
  intros [members' member] _.
  destruct metaclass; [apply Hrest|].
  destruct member as [[]|]; try apply Hrest.
  destruct (String.eqb _ _); apply Hrest.
Qed.

Lemma ff_parse_classdef_with rec self parent node decorators :
  (forall suite child members,
     In suite (children node) -> In child (children suite) ->
     fuel_free (rec members child)) ->
  fuel_free (parse_classdef_with rec self parent node decorators).
Proof.
  intros Hrec. unfold parse_classdef_with.
  apply ff_bind; [ff|intros n _].
  apply ff_bind; [ff|intros name _].
  apply ff_bind; [ff|intros [bases metaclass] _].
  apply ff_bind; [ff|intros suite Hsuite].
  apply ff_bind; [ff|intros docstring _].
  apply ff_bind; [ff|intros location _].
  apply ff_bind; [|intros [members mc] _; apply ff_ok].
  apply ff_class_body. intros child members Hin.
  apply (Hrec suite); [|exact Hin].
  destruct (find _ (children node)) eqn:E; [|discriminate Hsuite].
  injection Hsuite as <-. eapply find_In, E.
Qed.

(** With fuel for the depth of the node, [parse_declaration] does not
    run out of it. *)
Lemma ff_parse_declaration fuel : forall self parent node decorators,
  depth (focus node) <= fuel ->
  fuel_free (parse_declaration fuel self parent node decorators).
Proof.
  induction fuel as [|fuel IH]; intros self parent node decorators Hd.
  - pose proof (depth_pos (focus node)). lia.
  - cbn [parse_declaration].
    destruct (type_eqb _ syms.simple_stmt); [ff|].
    destruct (type_eqb _ syms.funcdef); [ff|].
    destruct (type_eqb _ syms.classdef).
    { apply ff_parse_classdef_with. intros suite child members Hs Hc.
      apply IH. apply children_depth in Hs, Hc. lia. }
    destruct (_ || _); [ff|].
    destruct (type_eqb _ syms.decorated); [|apply ff_ok].
    apply ff_bind; [ff|intros _ _].
    apply ff_bind; [ff|intros first _].
    apply ff_bind; [ff|intros decorator_nodes _].
    apply ff_bind; [ff|intros decorators' _].
    apply ff_bind; [ff|intros child Hchild].
    apply IH. apply getitem_In, children_depth in Hchild. lia.
Qed.

Lemma ff_module_body fuel self children : forall members,
  (forall child, In child children -> depth (focus child) <= fuel) ->
  fuel_free (module_body fuel self children members).
Proof.
  induction children as [|node children IH]; intros members Hd; simpl;
    [apply ff_ok|].
  apply ff_bind.
  - apply ff_parse_declaration, Hd. now left.
  - intros [members' r] _. apply IH. intros child Hin. apply Hd. now right.
Qed.

(** [parse] gives its recursion enough fuel. *)
Lemma ff_parse self ast filename module_name :
  fuel_free (snd (parse self ast filename module_name)).
Proof.
  unfold parse. cbn [snd].
  apply ff_bind; [destruct (tree_children ast); ff|intros docstring _].
  apply ff_bind; [ff|intros location _].
  apply ff_bind; [|intros members _; apply ff_ok].
  apply ff_module_body. intros child Hin.
  apply children_depth in Hin. simpl in Hin. lia.
Qed.

End Fuel.

(** * Further properties *)

(** ** ListScanner *)

Section ScannerMore.
Context {A : Type}.
Implicit Types (self : ListScanner.t A) (l : list A).

(** [advance] without [expect] never raises and returns the element
    after the current one, or [None] past the end.  [can_advance] holds
    exactly when [advance(expect=True)] returns an element; when it does
    not hold, that call raises IndexError, and has moved the index all
    the same. *)
Theorem advance_can_advance self :
  snd (ListScanner.advance false self)
  = Ok (nth_error (ListScanner._list self) (ListScanner._index self + 1))
  /\ (ListScanner.can_advance self = true <->
      exists a, snd (ListScanner.advance true self) = Ok (Some a))
  /\ (ListScanner.can_advance self = false ->
      snd (ListScanner.advance true self) = Raise IndexError
      /\ ListScanner._index (fst (ListScanner.advance true self))
         = ListScanner._index self + 1).
Proof.
  split; [apply advance_no_expect|].
  destruct self as [l i].
  unfold ListScanner.can_advance, ListScanner.advance, ListScanner.current,
    getitem. simpl.
  destruct (nth_error l (i + 1)) eqn:E.
  - assert (Hlt : i + 1 < List.length l) by (apply nth_error_Some; congruence).
    split.
    + split.
      * intros _. exists a. reflexivity.
      * intros _. apply Nat.ltb_lt. lia.
    + intros H. apply Nat.ltb_ge in H. lia.
  - apply nth_error_None in E. split.
    + split; [|intros [a Ha]; discriminate Ha].
      intros H. apply Nat.ltb_lt in H. lia.
    + intros _. split; reflexivity.
Qed.

Lemma loop_head_yield index l i a :
  nth_error l i = Some a ->
  ListScanner.loop_head index (ListScanner.make l i)
  = (ListScanner.Suspended index, ListScanner.make l i, ListScanner.Yield a).
Proof.
  intros H. unfold ListScanner.loop_head, ListScanner.bool_,
    ListScanner.current, getitem. simpl. rewrite H.
  assert (Hlt : i < List.length l) by (apply nth_error_Some; congruence).
  apply Nat.ltb_lt in Hlt. now rewrite Hlt.
Qed.

Lemma loop_head_stop index l i :
  List.length l <= i ->
  ListScanner.loop_head index (ListScanner.make l i)
  = (ListScanner.Finished, ListScanner.make l i, ListScanner.StopIteration).
Proof.
  intros H. unfold ListScanner.loop_head, ListScanner.bool_. simpl.
  apply Nat.ltb_ge in H. now rewrite H.
Qed.

Lemma advance_make expect l i :
  fst (ListScanner.advance expect (ListScanner.make l i))
  = ListScanner.make l (i + 1).
Proof.
  unfold ListScanner.advance. simpl.
  destruct (ListScanner.current _); reflexivity.
Qed.

Lemma skipn_nth_error l : forall i a,
  nth_error l i = Some a -> skipn i l = a :: skipn (S i) l.
Proof.
  induction l as [|x l IH]; intros [|i] a H; try discriminate H.
  - injection H as ->. reflexivity.
  - simpl in H. simpl. now apply IH.
Qed.

Lemma iterate_auto_suspended fuel : forall index0 l i,
  List.length l - (i + 1) < fuel ->
  iterate fuel true (ListScanner.Suspended index0) (ListScanner.make l i)
  = Ok (skipn (i + 1) l,
        ListScanner.make l (Nat.max (i + 1) (List.length l))).
Proof.
  induction fuel as [|fuel IH]; intros index0 l i Hf; [lia|].
  cbn [iterate ListScanner.next]. rewrite advance_make.
  destruct (nth_error l (i + 1)) as [a|] eqn:E.
  - rewrite (loop_head_yield index0 l (i + 1) a E).
    assert (Hlt : i + 1 < List.length l) by (apply nth_error_Some; congruence).
    rewrite IH by lia. simpl.
    rewrite (skipn_nth_error l (i + 1) a E).
    replace (S (i + 1)) with (i + 1 + 1) by lia.
    rewrite !Nat.max_r by lia. reflexivity.
  - apply nth_error_None in E.
    rewrite (loop_head_stop index0 l (i + 1) E).
    rewrite skipn_all2 by exact E. rewrite Nat.max_l by lia. reflexivity.
Qed.

(** With [auto_advance], a loop over [safe_iter()] that leaves the
    scanner alone is given every element from the current index on, once
    and in order, and ends with the scanner at the end of the list. *)
Theorem safe_iter_auto_all fuel l i :
  List.length l - i < fuel ->
  iterate fuel true ListScanner.Fresh (ListScanner.make l i)
  = Ok (skipn i l, ListScanner.make l (Nat.max i (List.length l))).
Proof.
  intros Hf. destruct fuel as [|fuel]; [lia|].
  cbn [iterate ListScanner.next]. simpl ListScanner._index.
  destruct (nth_error l i) as [a|] eqn:E.
  - rewrite (loop_head_yield i l i a E).
    assert (Hlt : i < List.length l) by (apply nth_error_Some; congruence).
    rewrite iterate_auto_suspended by lia. simpl.
    rewrite (skipn_nth_error l i a E).
    replace (S i) with (i + 1) by lia.
    rewrite !Nat.max_r by lia. reflexivity.
  - apply nth_error_None in E.
    rewrite (loop_head_stop i l i E).
    rewrite skipn_all2 by exact E. rewrite Nat.max_l by lia. reflexivity.
Qed.

End ScannerMore.

Lemma advance_can_advance_run :
  ListScanner.can_advance (ListScanner.make ["x"; "y"] 0) = true
  /\ snd (ListScanner.advance true (ListScanner.make ["x"; "y"] 0))
     = Ok (Some "y")
  /\ snd (ListScanner.advance true (ListScanner.make ["x"; "y"] 1))
     = Raise IndexError
  /\ ListScanner._index
       (fst (ListScanner.advance true (ListScanner.make ["x"; "y"] 1)))
     = 2.
Proof.
  pose proof (advance_can_advance (ListScanner.make ["x"; "y"] 1))
    as (_ & _ & Hlast).
  split; [reflexivity|]. split; [reflexivity|].
  apply Hlast. reflexivity.
Defined.

Lemma safe_iter_auto_all_run :
  iterate 4 true ListScanner.Fresh (ListScanner.make ["x"; "y"; "z"] 1)
  = Ok (["y"; "z"], ListScanner.make ["x"; "y"; "z"] 3).
Proof.
  apply (safe_iter_auto_all 4 ["x"; "y"; "z"] 1). simpl. lia.
Defined.

(** ** Trees and their text *)

Lemma tree_induction (P : tree -> Prop) :
  (forall t v p ln, P (Leaf t v p ln)) ->
  (forall ty ch, Forall P ch -> P (Node ty ch)) ->
  forall n, P n.
Proof.
  intros HL HN. fix IH 1. intros [t v p ln|ty ch]; [apply HL|].
  apply HN. induction ch as [|c ch IHch]; constructor; [apply IH|exact IHch].
Qed.

(** Every tree has one right-most descendant, the one [rightmost]
    returns. *)
Lemma rightmost_of_iff s d : rightmost_of s d <-> rightmost s = d.
Proof.
  split; [apply rightmost_of_sound|]. intros <-.
  induction s as [t v p ln|ty ch IH] using tree_induction.
  - apply rightmost_of_leaf.
  - destruct ch as [|c0 ch0] using rev_ind; [apply rightmost_of_childless|].
    rewrite rightmost_last_child. apply rightmost_of_last.
    apply Forall_app in IH as [_ IH]. now inversion IH.
Qed.

Lemma generator_node_Node ty ch :
  generator_node (Node ty ch) = generator true ch.
Proof. reflexivity. Qed.

Lemma str_tree_Node ty ch : str_tree (Node ty ch) = str_all ch.
Proof.
  simpl. induction ch as [|c ch IH]; [reflexivity|].
  simpl. now rewrite IH.
Qed.

Lemma generator_cons skip n ns :
  generator skip (n :: ns)
  = (if skip then "" else prefix n) ++ generator_node n ++ generator false ns.
Proof. reflexivity. Qed.

Lemma str_all_generator l :
  Forall (fun n => str_tree n = prefix n ++ generator_node n) l ->
  str_all l = generator false l.
Proof.
  induction 1 as [|n ns Hn _ IH]; [reflexivity|].
  cbn [str_all]. rewrite generator_cons, Hn, IH. apply append_assoc.
Qed.

Lemma str_tree_generator n : str_tree n = prefix n ++ generator_node n.
Proof.
  induction n as [t v p ln|ty ch IH] using tree_induction; [reflexivity|].
  rewrite str_tree_Node, generator_node_Node, (str_all_generator ch IH).
  destruct ch as [|c cs]; reflexivity.
Qed.

(** [nodes_to_string([node])] is the text of the node without its
    leading prefix: [str(node) == node.prefix + nodes_to_string([node])].
    For a list, only the prefix of the first node is left out. *)
Theorem nodes_to_string_str n ns :
  str_tree n = prefix n ++ nodes_to_string [n]
  /\ str_all (n :: ns) = prefix n ++ nodes_to_string (n :: ns).
Proof.
  unfold nodes_to_string. rewrite !generator_cons. cbn [append generator].
  split.
  - rewrite append_empty_r. apply str_tree_generator.
  - cbn [str_all]. rewrite str_tree_generator, append_assoc.
    rewrite (str_all_generator ns); [reflexivity|].
    apply Forall_forall. intros x _. apply str_tree_generator.
Qed.

(** [tree_eqb] is reflexive, so [l.index(x)] finds what [find] found. *)
Lemma tree_eqb_refl n : tree_eqb n n = true.
Proof.
  induction n as [t v p ln|ty ch IH] using tree_induction; simpl.
  - now rewrite type_eqb_refl, String.eqb_refl.
  - rewrite type_eqb_refl. simpl.
    induction IH as [|c cs Hc _ IHcs]; [reflexivity|].
    now rewrite Hc, IHcs.
Qed.

Lemma index_of_found (p : tree -> bool) l x :
  find p l = Some x -> exists i, index_of x l = Ok i.
Proof.
  induction l as [|y l IH]; simpl; [discriminate|].
  destruct (p y) eqn:Ep.
  - intros [= ->]. rewrite tree_eqb_refl. eauto.
  - intros H. destruct (tree_eqb y x); [eauto|].
    destruct (IH H) as [i ->]. simpl. eauto.
Qed.

(** ** The errors of the signature parser *)

Section ShapeErrors.
Local Open Scope list_scope.

Lemma ro_ok {A} (a : A) : raises_only shape_error (Ok a).
Proof. exact I. Qed.

Lemma ro_bind {A B} (c : result A) (k : A -> result B) :
  raises_only shape_error c ->
  (forall a, c = Ok a -> raises_only shape_error (k a)) ->
  raises_only shape_error (bind c k).
Proof.
  destruct c as [a|e]; simpl; intros Hc Hk; [now apply Hk|exact Hc].
Qed.

Lemma ro_deref {A} (o : option A) : raises_only shape_error (deref o).
Proof. destruct o; reflexivity || exact I. Qed.

Lemma ro_getitem {A} (l : list A) i : raises_only shape_error (getitem l i).
Proof. unfold getitem. destruct (nth_error l i); reflexivity || exact I. Qed.

Lemma ro_value n : raises_only shape_error (value n).
Proof. destruct n; reflexivity || exact I. Qed.

Lemma ro_assert b p : raises_only shape_error (assert b p).
Proof. destruct b; reflexivity || exact I. Qed.

Lemma ro_node_to_string o : raises_only shape_error (node_to_string o).
Proof. destruct o; reflexivity || exact I. Qed.

Lemma ro_current (sc : node_scanner) :
  raises_only shape_error (ListScanner.current sc).
Proof. apply ro_getitem. Qed.

Lemma ro_advance_pair (sc sc' : node_scanner) r :
  ListScanner.advance false sc = (sc', r) -> raises_only shape_error r.
Proof.
  intros H. pose proof (advance_no_expect sc) as Hs.
  rewrite H in Hs. simpl in Hs. now rewrite Hs.
Qed.

Create HintDb ro.
#[local] Hint Resolve ro_ok ro_deref ro_getitem ro_value ro_assert
  ro_node_to_string ro_current : ro.
#[local] Hint Extern 1 (raises_only shape_error ?r) =>
  match goal with
  | H : ListScanner.advance false _ = (_, r) |- _ =>
      exact (ro_advance_pair _ _ _ H)
  end : ro.

Ltac ro_step :=
  match goal with
  | |- raises_only shape_error (Ok _) => exact I
  | |- raises_only shape_error (Raise _) => reflexivity
  | |- raises_only shape_error (bind _ _) => apply ro_bind; [|intros ? ?]
  | |- raises_only shape_error (match ?x with _ => _ end) => destruct x eqn:?
  | |- raises_only shape_error _ => solve [auto with ro]
  end.

Ltac ro := repeat ro_step.

Lemma ro_parse_annotated_name node :
  raises_only shape_error (parse_annotated_name node).
Proof. unfold parse_annotated_name. ro. Qed.

#[local] Hint Resolve ro_parse_annotated_name : ro.

Lemma ro_parse_argument node k sc :
  raises_only shape_error (parse_argument node k sc).
Proof. unfold parse_argument. ro. Qed.

#[local] Hint Resolve ro_parse_argument : ro.

Lemma ro_parameters_body st : raises_only shape_error (parameters_body st).
Proof. unfold parameters_body. ro. Qed.

(** Every pass of the loop moves the scanner, so the check of
    [safe_iter] passes and the loop ends before its fuel does. *)
Lemma ro_parameters_loop fuel : forall index0 index result argtype,
  List.length (ListScanner._list index) - ListScanner._index index < fuel ->
  (index0 < ListScanner._index index ->
   raises_only shape_error
     (parameters_loop fuel (ListScanner.Suspended index0)
        (index, result, argtype)))
  /\ raises_only shape_error
       (parameters_loop fuel ListScanner.Fresh (index, result, argtype)).
Proof.
  induction fuel as [|fuel IH]; intros index0 index result argtype Hlt; [lia|].
  assert (Hhead : forall i0, i0 <= ListScanner._index index ->
    raises_only shape_error
      match ListScanner.loop_head i0 index with
      | (g, index1, ListScanner.Yield _) =>
          st <- parameters_body (index1, result, argtype) ;;
          parameters_loop fuel g st
      | (_, _, ListScanner.StopIteration) => Ok result
      | (_, _, ListScanner.Raised e) => Raise e
      end).
  { intros i0 Hi0. unfold ListScanner.loop_head.
    destruct (ListScanner.bool_ index) eqn:Eb; [|exact I].
    unfold ListScanner.bool_ in Eb. apply Nat.ltb_lt in Eb.
    unfold ListScanner.current, getitem.
    destruct (nth_error _ _) eqn:En;
      [|apply nth_error_None in En; lia].
    apply ro_bind; [apply ro_parameters_body|].
    intros [[index' result'] argtype'] Hbody.
    apply parameters_body_progress in Hbody as [Hl Hi].
    apply IH; [rewrite Hl; lia|lia]. }
  split.
  - intros Hmoved. cbn [parameters_loop ListScanner.next].
    destruct (Nat.eqb_spec (ListScanner._index index) index0); [lia|].
    apply Hhead. lia.
  - cbn [parameters_loop ListScanner.next]. apply Hhead. lia.
Qed.

(** [parse_parameters] returns or fails with an assertion, attribute or
    index error.  The RuntimeError of [safe_iter] is never raised: every
    pass of the loop advances the scanner. *)
Theorem parse_parameters_errors parameters :
  raises_only shape_error (parse_parameters parameters).
Proof.
  unfold parse_parameters.
  apply ro_bind; [ro|intros params _].
  apply ro_bind; [ro|intros _ _].
  destruct (find _ (tree_children params)) as [arglist|].
  - apply ro_parameters_loop; [exact 0|]. simpl. lia.
  - destruct (find _ (tree_children params)) as [tname|] eqn:Et; [|ro].
    destruct (index_of_found _ _ _ Et) as [i ->]. simpl. ro.
Qed.

End ShapeErrors.

(** ** The signature parser on regular parameter lists *)

Section Parameters.
Local Open Scope list_scope.
Implicit Types (l toks before rest : list tree) (sc : node_scanner).

Lemma advance_at l i :
  ListScanner.advance false (ListScanner.make l i)
  = (ListScanner.make l (i + 1), Ok (nth_error l (i + 1))).
Proof.
  unfold ListScanner.advance, ListScanner.current, getitem. simpl.
  destruct (nth_error l (i + 1)); reflexivity.
Qed.

Lemma name_node_type n name ann :
  name_node n name ann ->
  type_eqb (type n) token.STAR = false
  /\ type_eqb (type n) token.DOUBLESTAR = false
  /\ type_eqb (type n) token.COMMA = false.
Proof. intros []; repeat split; reflexivity. Qed.

Lemma parse_annotated_name_node n name ann :
  name_node n name ann ->
  parse_annotated_name (Some n) = Ok (name, ann).
Proof.
  intros [v p ln|v p ln colon a Hc]; [reflexivity|].
  unfold parse_annotated_name. simpl.
  rewrite Hc. reflexivity.
Qed.

(** [parse_argument] on a parameter without a default value. *)
Lemma parse_argument_bare l i n name ann k :
  name_node n name ann ->
  match nth_error l (i + 1) with
  | Some t => type_eqb (type t) token.EQUAL = false
  | None => True
  end ->
  parse_argument (Some n) k (ListScanner.make l i)
  = Ok (Argument.make name ann None k, ListScanner.make l (i + 1)).
Proof.
  intros Hn Hnext. unfold parse_argument.
  rewrite (parse_annotated_name_node n name ann Hn). simpl.
  rewrite advance_at. simpl.
  destruct (nth_error l (i + 1)); [now rewrite Hnext|reflexivity].
Qed.

(** [parse_argument] on a parameter with a default value. *)
Lemma parse_argument_default l i n name ann k eq d :
  name_node n name ann ->
  nth_error l (i + 1) = Some eq ->
  type eq = token.EQUAL ->
  nth_error l (i + 2) = Some d ->
  parse_argument (Some n) k (ListScanner.make l i)
  = Ok (Argument.make name ann (Some (mkExpression (nodes_to_string [d]))) k,
        ListScanner.make l (i + 3)).
Proof.
  intros Hn Heq Hty Hd. unfold parse_argument.
  rewrite (parse_annotated_name_node n name ann Hn). simpl.
  rewrite advance_at. simpl. rewrite Heq, Hty. simpl.
  rewrite advance_at. simpl.
  replace (i + 1 + 1) with (i + 2) by lia. rewrite Hd. simpl.
  rewrite advance_at. simpl.
  replace (i + 2 + 1) with (i + 3) by lia. reflexivity.
Qed.

Lemma nth_error_at before x rest :
  nth_error (before ++ x :: rest) (List.length before) = Some x.
Proof. rewrite nth_error_app2 by lia. now rewrite Nat.sub_diag. Qed.

Lemma nth_error_after before toks j :
  nth_error (before ++ toks) (List.length before + j) = nth_error toks j.
Proof.
  rewrite nth_error_app2 by lia. f_equal. lia.
Qed.

Lemma current_at before x rest :
  ListScanner.current
    (ListScanner.make (before ++ x :: rest) (List.length before)) = Ok x.
Proof.
  unfold ListScanner.current, getitem. simpl. now rewrite nth_error_at.
Qed.

(** One pass of the loop over one parameter that is followed by [rest]:
    the scanner ends after the token that follows the parameter. *)
Lemma parameters_body_param before toks rest name ann default res k :
  one_param toks name ann default ->
  match rest with
  | t :: _ => type_eqb (type t) token.EQUAL = false
  | [] => True
  end ->
  parameters_body
    (ListScanner.make (before ++ toks ++ rest) (List.length before), res, k)
  = Ok (ListScanner.make (before ++ toks ++ rest)
          (List.length before + List.length toks + 1),
        res ++ [Argument.make name ann default k], k).
Proof.
  intros Hp Hrest. unfold parameters_body.
  destruct Hp as [n name ann Hn|n name ann eq d Hn Heq].
  - cbn [app]. rewrite current_at. simpl.
    destruct (name_node_type n name ann Hn) as (-> & -> & _).
    rewrite (parse_argument_bare _ _ n name ann k Hn).
    + simpl. rewrite advance_at. simpl.
      repeat f_equal; lia.
    + rewrite (nth_error_after before (n :: rest) 1). simpl.
      destruct rest; [exact I|exact Hrest].
  - cbn [app]. rewrite current_at. simpl.
    destruct (name_node_type n name ann Hn) as (-> & -> & _).
    rewrite (parse_argument_default _ _ n name ann k eq d Hn).
    + simpl. rewrite advance_at. simpl. repeat f_equal; lia.
    + now rewrite (nth_error_after before (n :: eq :: d :: rest) 1).
    + exact Heq.
    + now rewrite (nth_error_after before (n :: eq :: d :: rest) 2).
Qed.

Lemma resumable_next g l i :
  resumable g i ->
  exists index,
    index <= i
    /\ ListScanner.next false g (ListScanner.make l i)
       = ListScanner.loop_head index (ListScanner.make l i).
Proof.
  intros [->|(index & -> & Hlt)].
  - exists i. split; [lia|reflexivity].
  - exists index. split; [lia|]. simpl.
    destruct (Nat.eqb_spec i index); [lia|reflexivity].
Qed.

(** The loop at the end of the list. *)
Lemma parameters_loop_stop fuel g l i res k :
  resumable g i -> List.length l <= i ->
  parameters_loop (S fuel) g (ListScanner.make l i, res, k) = Ok res.
Proof.
  intros Hg Hi. cbn [parameters_loop].
  destruct (resumable_next g l i Hg) as (index & _ & ->).
  now rewrite loop_head_stop.
Qed.

(** One pass of the loop: the generator yields, the body runs. *)
Lemma parameters_loop_step fuel g l i x res k :
  resumable g i -> nth_error l i = Some x ->
  exists g',
    (forall j, i < j -> resumable g' j)
    /\ parameters_loop (S fuel) g (ListScanner.make l i, res, k)
       = (st <- parameters_body (ListScanner.make l i, res, k) ;;
          parameters_loop fuel g' st).
Proof.
  intros Hg Hx. cbn [parameters_loop].
  destruct (resumable_next g l i Hg) as (index & Hle & ->).
  rewrite (loop_head_yield index l i x Hx).
  exists (ListScanner.Suspended index). split; [|reflexivity].
  intros j Hj. right. exists index. split; [reflexivity|lia].
Qed.

Lemma one_param_length toks name ann default :
  one_param toks name ann default ->
  exists n rest, toks = n :: rest.
Proof. intros []; eauto. Qed.

(** The loop of [parse_parameters] over a regular parameter list. *)
Lemma parameters_loop_params k toks args :
  param_list k toks args ->
  forall fuel g before res,
    resumable g (List.length before) ->
    List.length toks < fuel ->
    parameters_loop fuel g
      (ListScanner.make (before ++ toks) (List.length before), res, k)
    = Ok (res ++ args).
Proof.
  induction 1 as
    [ k
    | k toks name ann default Hp
    | k toks name ann default comma rest args Hp Hcomma _ IH
    | k star comma rest args Hstar Hcomma _ IH
    | k star n name ann Hstar Hn
    | k dstar n name ann Hd Hn ];
    intros fuel g before res Hg Hfuel;
    (destruct fuel as [|fuel]; [lia|]).
  - (* the end of the list *)
    rewrite app_nil_r in *. rewrite parameters_loop_stop; auto.
    now rewrite app_nil_r.
  - (* the last parameter *)
    destruct (one_param_length _ _ _ _ Hp) as (n & r & Htoks).
    destruct (parameters_loop_step fuel g (before ++ toks)
                (List.length before) n res k Hg) as (g' & Hg' & ->).
    { rewrite Htoks. apply nth_error_at. }
    rewrite <- (app_nil_r toks) at 1.
    rewrite (parameters_body_param before toks [] name ann default res k Hp I).
    simpl. rewrite app_nil_r.
    destruct fuel as [|fuel].
    { rewrite Htoks in Hfuel. simpl in Hfuel. lia. }
    apply parameters_loop_stop; [apply Hg'; lia|].
    rewrite length_app. lia.
  - (* a parameter and a comma *)
    destruct (one_param_length _ _ _ _ Hp) as (n & r & Htoks).
    destruct (parameters_loop_step fuel g (before ++ toks ++ comma :: rest)
                (List.length before) n res k Hg) as (g' & Hg' & ->).
    { rewrite Htoks. apply nth_error_at. }
    rewrite (parameters_body_param before toks (comma :: rest)
               name ann default res k Hp)
      by (rewrite Hcomma; reflexivity).
    simpl.
    replace (before ++ toks ++ comma :: rest)
      with ((before ++ toks ++ [comma]) ++ rest)
      by (now rewrite <- !app_assoc).
    replace (List.length before + List.length toks + 1)
      with (List.length (before ++ toks ++ [comma]))
      by (rewrite !length_app; simpl; lia).
    rewrite IH.
    + now rewrite <- app_assoc.
    + apply Hg'. rewrite !length_app. simpl. lia.
    + rewrite length_app in Hfuel. simpl in Hfuel. lia.
  - (* the separator *)
    destruct (parameters_loop_step fuel g (before ++ star :: comma :: rest)
                (List.length before) star res k Hg) as (g' & Hg' & ->).
    { apply nth_error_at. }
    unfold parameters_body. rewrite current_at. simpl.
    rewrite Hstar. simpl. rewrite advance_at. simpl.
    rewrite (nth_error_after before (star :: comma :: rest) 1). simpl.
    rewrite Hcomma. simpl. rewrite advance_at. simpl.
    replace (before ++ star :: comma :: rest)
      with ((before ++ [star; comma]) ++ rest)
      by (now rewrite <- app_assoc).
    replace (List.length before + 1 + 1)
      with (List.length (before ++ [star; comma]))
      by (rewrite length_app; simpl; lia).
    rewrite IH.
    + now rewrite <- app_assoc.
    + apply Hg'. rewrite length_app. simpl. lia.
    + simpl in Hfuel. lia.
  - (* [*name] at the end *)
    destruct (parameters_loop_step fuel g (before ++ [star; n])
                (List.length before) star res k Hg) as (g' & Hg' & ->).
    { apply nth_error_at. }
    unfold parameters_body. rewrite current_at. simpl.
    rewrite Hstar. simpl. rewrite advance_at. simpl.
    rewrite (nth_error_after before [star; n] 1). simpl.
    destruct (name_node_type n name ann Hn) as (_ & _ & ->).
    rewrite (parse_argument_bare _ _ n name ann _ Hn).
    + simpl. destruct fuel as [|fuel]; [simpl in Hfuel; lia|].
      apply parameters_loop_stop; [apply Hg'; lia|].
      rewrite length_app. simpl. lia.
    + replace (List.length before + 1 + 1) with (List.length before + 2) by lia.
      now rewrite (nth_error_after before [star; n] 2).
  - (* [**name] at the end *)
    destruct (parameters_loop_step fuel g (before ++ [dstar; n])
                (List.length before) dstar res k Hg) as (g' & Hg' & ->).
    { apply nth_error_at. }
    unfold parameters_body. rewrite current_at. simpl.
    rewrite Hd. simpl. rewrite advance_at. simpl.
    rewrite (nth_error_after before [dstar; n] 1). simpl.
    rewrite (parse_argument_bare _ _ n name ann _ Hn).
    + simpl. destruct fuel as [|fuel]; [simpl in Hfuel; lia|].
      apply parameters_loop_stop; [apply Hg'; lia|].
      rewrite length_app. simpl. lia.
    + replace (List.length before + 1 + 1) with (List.length before + 2) by lia.
      now rewrite (nth_error_after before [dstar; n] 2).
Qed.

(** On a regular parameter list - parameters with or without annotation
    and default value, a bare [*] separator, and at most a [*name] or a
    [**name] as the last token - [parse_parameters] returns the arguments
    the list stands for: plain parameters are positional before the
    separator and keyword-only after it. *)
Theorem parse_parameters_regular pl pr ll lr toks args :
  param_list Argument.POS toks args ->
  parse_parameters
    (Some (parameters_node pl pr ll lr [Node syms.typedargslist toks]))
  = Ok args.
Proof.
  intros H. unfold parse_parameters, parameters_node. simpl.
  apply (parameters_loop_params Argument.POS toks args H
           (S (List.length toks)) ListScanner.Fresh [] []).
  - now left.
  - lia.
Qed.

End Parameters.

(** The parameter list [(a, b=1, *, c: int = 2, **kw)]. *)
Lemma parse_parameters_regular_run :
  parse_parameters
    (Some (parameters_node "" "" 1 1
       [ Node syms.typedargslist
           [ Leaf token.NAME "a" "" 1; Leaf token.COMMA "," "" 1;
             Leaf token.NAME "b" " " 1; Leaf token.EQUAL "=" "" 1;
             Leaf token.NUMBER "1" "" 1; Leaf token.COMMA "," "" 1;
             Leaf token.STAR "*" " " 1; Leaf token.COMMA "," "" 1;
             Node syms.tname
               [ Leaf token.NAME "c" " " 1; Leaf token.COLON ":" "" 1;
                 Leaf token.NAME "int" " " 1 ];
             Leaf token.EQUAL "=" " " 1; Leaf token.NUMBER "2" " " 1;
             Leaf token.COMMA "," "" 1;
             Leaf token.DOUBLESTAR "**" " " 1; Leaf token.NAME "kw" "" 1 ] ]))
  = Ok [ Argument.make "a" None None Argument.POS;
         Argument.make "b" None (Some (mkExpression "1")) Argument.POS;
         Argument.make "" None None Argument.KW_SEPARATOR;
         Argument.make "c" (Some (mkExpression "int"))
           (Some (mkExpression "2")) Argument.KW_ONLY;
         Argument.make "kw" None None Argument.KW_REMAINDER ].
Proof.
  apply parse_parameters_regular.
  apply (@params_cons Argument.POS [Leaf token.NAME "a" "" 1] "a" None None);
    [apply param_bare, name_plain|reflexivity|].
  apply (@params_cons Argument.POS
           [Leaf token.NAME "b" " " 1; Leaf token.EQUAL "=" "" 1;
            Leaf token.NUMBER "1" "" 1] "b" None
           (Some (mkExpression "1")));
    [apply (@param_default _ "b" None); [apply name_plain|reflexivity]
    |reflexivity|].
  apply params_separator; [reflexivity|reflexivity|].
  apply (@params_cons Argument.KW_ONLY
           [Node syms.tname
              [ Leaf token.NAME "c" " " 1; Leaf token.COLON ":" "" 1;
                Leaf token.NAME "int" " " 1 ];
            Leaf token.EQUAL "=" " " 1; Leaf token.NUMBER "2" " " 1]
           "c" (Some (mkExpression "int")) (Some (mkExpression "2")));
    [apply (@param_default _ "c" (Some (mkExpression "int")));
       [apply (@name_annotated "c" " " 1); reflexivity|reflexivity]
    |reflexivity|].
  apply params_double_star; [reflexivity|apply name_plain].
Defined.

(** The parameter lists that lib2to3 does not wrap in a
    [typedargslist]: [()] has no argument, and a single parameter
    without a default value, annotated or not, is one positional
    argument. *)
Theorem parse_parameters_single pl pr ll lr :
  parse_parameters (Some (parameters_node pl pr ll lr [])) = Ok []
  /\ (forall n name ann,
        name_node n name ann ->
        parse_parameters (Some (parameters_node pl pr ll lr [n]))
        = Ok [Argument.make name ann None Argument.POS]).
Proof.
  split; [reflexivity|].
  intros n name ann [v p ln|v p ln colon a Hc]; [reflexivity|].
  unfold parse_parameters, parameters_node. simpl.
  rewrite ?type_eqb_refl, ?String.eqb_refl, ?tree_eqb_refl. simpl.
  rewrite (parse_argument_bare _ 1 _ v
             (Some (mkExpression (nodes_to_string [a]))) Argument.POS);
    [reflexivity|now apply name_annotated|reflexivity].
Qed.

Lemma parse_parameters_single_run :
  parse_parameters
    (Some (parameters_node "" "" 1 1
             [ Node syms.tname
                 [ Leaf token.NAME "x" "" 1; Leaf token.COLON ":" "" 1;
                   Leaf token.NAME "int" " " 1 ] ]))
  = Ok [Argument.make "x" (Some (mkExpression "int")) None Argument.POS].
Proof.
  apply (proj2 (parse_parameters_single "" "" 1 1) _ "x"
           (Some (mkExpression "int"))).
  apply (@name_annotated "x" "" 1). reflexivity.
Defined.

(** ** Comment docstrings *)

Section CommentRuns.
Local Open Scope list_scope.
Implicit Types (lines run above blanks rlines : list string).

Lemma scan_skip_blanks blanks : forall rlines,
  Forall (fun b => Str.strip b = ""%string) blanks ->
  scan_lines (blanks ++ rlines) [] None = scan_lines rlines [] None.
Proof.
  induction blanks as [|b blanks IH]; intros rlines H; [reflexivity|].
  inversion H as [|? ? Hb Hrest]; subst.
  cbn [app scan_lines]. rewrite Hb. simpl. now apply IH.
Qed.

Lemma scan_run run : forall rlines lines d,
  lines <> [] ->
  Forall (fun x => Str.startswith (Str.strip x) "#" = true) run ->
  scan_lines (run ++ rlines) lines (Some d)
  = scan_lines rlines (lines ++ map Str.strip run) (Some d).
Proof.
  induction run as [|x run IH]; intros rlines lines d Hne H.
  - simpl. now rewrite app_nil_r.
  - inversion H as [|? ? Hx Hrest]; subst.
    cbn [app scan_lines]. rewrite Hx. cbn [negb andb].
    rewrite andb_false_r.
    destruct lines as [|l ls]; [contradiction|].
    cbn [List.length Nat.eqb negb orb].
    rewrite IH; [|destruct ls; discriminate|exact Hrest].
    simpl. now rewrite <- app_assoc.
Qed.

Lemma scan_stop s rlines lines dt :
  lines <> [] ->
  Str.startswith (Str.strip s) "#" = false ->
  scan_lines (s :: rlines) lines dt = (lines, dt).
Proof.
  intros Hne Hs. cbn [scan_lines]. rewrite Hs.
  destruct lines; [contradiction|reflexivity].
Qed.

(** The comment run of a prefix, read off its lines.  Let the lines of
    the prefix be [above], then the comment lines [run], then the comment
    line [line], then blank lines, where the line before [run], if any,
    is not a comment.  The run collected is [run] and [line], stripped;
    its type is given by the marker of [line], the line nearest to the
    node, whatever the markers of the lines above it. *)
Theorem comment_run_lines pfx above run line blanks :
  Str.split_nl pfx = above ++ run ++ line :: blanks ->
  Forall (fun b => Str.strip b = ""%string) blanks ->
  Str.startswith (Str.strip line) "#" = true ->
  Forall (fun x => Str.startswith (Str.strip x) "#" = true) run ->
  (above = [] \/
   exists a s, above = a ++ [s] /\ Str.startswith (Str.strip s) "#" = false) ->
  comment_run pfx = map Str.strip (run ++ [line])
  /\ run_doc_type pfx
     = Some (if Str.startswith (Str.strip line) "#:" then statement
             else block).
Proof.
  intros Hsplit Hblanks Hline Hrun Habove.
  unfold comment_run, run_doc_type. rewrite Hsplit.
  rewrite !rev_app_distr. cbn [List.rev]. rewrite <- !app_assoc.
  rewrite scan_skip_blanks by now apply Forall_rev.
  cbn [app scan_lines List.length Nat.eqb negb andb orb].
  rewrite strip_idem.
  rewrite (startswith_hash_nonempty _ Hline).
  set (ty := if Str.startswith (Str.strip line) "#:" then statement else block).
  assert (Hty : (if Str.startswith (Str.strip line) "#:" then Some statement
                 else if Str.startswith (Str.strip line) "#" then Some block
                 else None) = Some ty).
  { unfold ty. rewrite Hline. now destruct (Str.startswith _ "#:"). }
  rewrite Hty.
  rewrite scan_run; [|discriminate|now apply Forall_rev].
  assert (Hend : scan_lines (List.rev above)
                   ([Str.strip line] ++ map Str.strip (List.rev run)) (Some ty)
                 = ([Str.strip line] ++ map Str.strip (List.rev run), Some ty)).
  { destruct Habove as [->|(a & s & -> & Hs)]; [reflexivity|].
    rewrite rev_app_distr. apply scan_stop; [discriminate|exact Hs]. }
  rewrite Hend. cbn [fst snd]. split; [|reflexivity].
  rewrite rev_app_distr, map_rev, rev_involutive, map_app. reflexivity.
Qed.

End CommentRuns.

(** The prefix [# a / #: b / blank]: the run is both lines, its type is
    the one of the lower line. *)
Lemma comment_run_lines_run :
  comment_run ("x" ++ Str.nl ++ "# a" ++ Str.nl ++ "  #: b" ++ Str.nl ++ "  ")
  = ["# a"; "#: b"]
  /\ run_doc_type
       ("x" ++ Str.nl ++ "# a" ++ Str.nl ++ "  #: b" ++ Str.nl ++ "  ")
     = Some statement.
Proof.
  apply (comment_run_lines
           ("x" ++ Str.nl ++ "# a" ++ Str.nl ++ "  #: b" ++ Str.nl ++ "  ")
           ["x"] ["# a"] "  #: b" ["  "]).
  - reflexivity.
  - repeat constructor.
  - reflexivity.
  - repeat constructor.
  - right. exists [], "x". split; reflexivity.
Defined.

(** When the first statement of a body is not a string literal, its
    docstring is the comment run before it, provided the run is of type
    [block]; blank lines between the run and the statement do not
    matter.  A run marked [#:] documents no body. *)
Theorem get_docstring_from_comments parent node pfx :
  find (fun x => is_Node (focus x)) (children parent) = Some node ->
  (type_eqb (type (focus node)) syms.simple_stmt = false
   \/ exists first rest,
        tree_children (focus node) = first :: rest
        /\ type_eqb (type first) token.STRING = false) ->
  get_most_recent_prefix node = Ok pfx ->
  get_docstring_from_first_node parent
  = Ok (match run_doc_type pfx with
        | Some block => Some (without_markers (comment_run pfx))
        | _ => None
        end).
Proof.
  intros Hfind Hshape Hpfx. unfold get_docstring_from_first_node.
  rewrite Hfind.
  assert (Hhash :
    ('(docstring, dt) <- get_hashtag_docstring_from_prefix node ;;
     match dt with
     | Some block => Ok docstring
     | _ => Ok None
     end)
    = Ok (match run_doc_type pfx with
          | Some block => Some (without_markers (comment_run pfx))
          | _ => None
          end)).
  { unfold get_hashtag_docstring_from_prefix. rewrite Hpfx. simpl.
    pose proof (prepare_docstring_run pfx) as Hrun.
    unfold run_doc_type, comment_run in *.
    destruct (scan_lines _ _ _) as [lines dt]. simpl in *.
    destruct dt as [[|]|]; try reflexivity.
    now rewrite Hrun by discriminate. }
  destruct Hshape as [Hty|(first & rest & Hch & Hfirst)].
  - rewrite Hty. exact Hhash.
  - destruct (type_eqb _ syms.simple_stmt); [|exact Hhash].
    rewrite Hch. simpl. rewrite Hfirst. exact Hhash.
Qed.

(** Every docstring the extractor returns is stripped: it neither
    begins nor ends with whitespace. *)
Theorem docstrings_stripped :
  (forall s d, prepare_docstring s = Some d -> Str.strip d = d)
  /\ (forall node d,
        get_statement_docstring node = Ok (Some d) -> Str.strip d = d)
  /\ (forall parent d,
        get_docstring_from_first_node parent = Ok (Some d) -> Str.strip d = d).
Proof.
  assert (Hprep : forall s d, prepare_docstring s = Some d -> Str.strip d = d).
  { intros s d. unfold prepare_docstring.
    destruct (Str.startswith _ "#"); [intros [= <-]; apply strip_idem|].
    destruct (_ || _); [intros [= <-]; apply strip_idem|].
    destruct (_ || _); [intros [= <-]; apply strip_idem|discriminate]. }
  assert (Hhash : forall node doc dt d,
            get_hashtag_docstring_from_prefix node = Ok (doc, dt) ->
            doc = Some d -> Str.strip d = d).
  { intros node doc dt d. unfold get_hashtag_docstring_from_prefix.
    destruct (get_most_recent_prefix node); [|discriminate]. simpl.
    destruct (scan_lines _ _ _). intros [= <- _]. apply Hprep. }
  split; [exact Hprep|]. split.
  - intros node d. unfold get_statement_docstring.
    destruct (get_most_recent_prefix node); [|discriminate]. simpl.
    destruct (Nat.eqb _ 1); [|discriminate].
    destruct (get_hashtag_docstring_from_prefix node) as [[doc dt]|] eqn:E;
      [|discriminate].
    simpl. destruct dt as [[|]|]; try discriminate.
    intros [= ->]. eapply Hhash; [exact E|reflexivity].
  - intros parent d. unfold get_docstring_from_first_node.
    destruct (find _ _) as [node|]; [|discriminate].
    assert (Hh :
      ('(docstring, dt) <- get_hashtag_docstring_from_prefix node ;;
       match dt with
       | Some block => Ok docstring
       | _ => Ok None
       end) = Ok (Some d) -> Str.strip d = d).
    { destruct (get_hashtag_docstring_from_prefix node) as [[doc dt]|] eqn:E;
        [|discriminate].
      simpl. destruct dt as [[|]|]; try discriminate.
      intros [= ->]. eapply Hhash; [exact E|reflexivity]. }
    destruct (type_eqb _ syms.simple_stmt); [|exact Hh].
    destruct (getitem _ 0) as [first|]; [|discriminate]. simpl.
    destruct (type_eqb _ token.STRING); [|exact Hh].
    destruct (value first); [|discriminate]. simpl.
    intros [= H]. now apply Hprep in H.
Qed.

Lemma get_docstring_from_comments_run :
  get_docstring_from_first_node (root MoreExamples.commented_suite)
  = Ok (Some "The doc.").
Proof.
  apply (get_docstring_from_comments (root MoreExamples.commented_suite)
           MoreExamples.commented_stmt
           ("    # The doc." ++ Str.nl ++ Str.nl)).
  - reflexivity.
  - right. eexists _, _. split; reflexivity.
  - reflexivity.
Defined.

Lemma docstrings_stripped_run :
  prepare_docstring "'  doc  '" = Some "doc" /\ Str.strip "doc" = "doc".
Proof.
  split; [reflexivity|].
  apply (proj1 docstrings_stripped "'  doc  '" "doc"). reflexivity.
Defined.

(** ** Locations *)

Section Locations.
Local Open Scope list_scope.
Variable self : Parser.
Variable fn : string.
Hypothesis self_filename : filename self = Some fn.

Lemma location_from_filename n location :
  location_from self n = Ok location -> loc_filename location = fn.
Proof.
  unfold location_from. rewrite self_filename. simpl. now intros [= <-].
Qed.

Lemma forallb_snoc {A} (p : A -> bool) l x :
  forallb p (l ++ [x]) = forallb p l && p x.
Proof. rewrite forallb_app. simpl. now rewrite andb_true_r. Qed.

Lemma forallb_removelast {A} (p : A -> bool) l :
  forallb p l = true -> forallb p (removelast l) = true.
Proof.
  induction l as [|x l IH]; [reflexivity|].
  simpl. intros H. apply andb_true_iff in H as [Hx Hl].
  destruct l; [reflexivity|]. cbn [forallb]. rewrite Hx. now apply IH.
Qed.

Lemma make_data_located stmt docstring expr names :
  forall parent data members r,
    forallb (located fn) parent = true ->
    make_data self stmt docstring expr names parent data = Ok (members, r) ->
    forallb (located fn) members = true.
Proof.
  induction names as [|name names IH]; intros parent data members r Hp H.
  - now injection H as <- _.
  - simpl in H. destruct (location_from self stmt) as [location|] eqn:El;
      [|discriminate H].
    simpl in H. eapply IH; [|exact H].
    rewrite forallb_snoc, Hp. simpl.
    rewrite (location_from_filename _ _ El). apply String.eqb_refl.
Qed.

Lemma parse_statement_located parent stmt members r :
  forallb (located fn) parent = true ->
  parse_statement self parent stmt = Ok (members, r) ->
  forallb (located fn) members = true.
Proof.
  intros Hp. unfold parse_statement.
  destruct (split_targets _ _ _ _) as [[is_assignment names] expression].
  destruct is_assignment; [|now intros [= <- _]].
  destruct (get_statement_docstring stmt); [|discriminate]. simpl.
  destruct (assert _ _); [|discriminate]. simpl.
  now apply make_data_located.
Qed.

Lemma parse_funcdef_located parent node is_async decorators members r :
  forallb (located fn) parent = true ->
  parse_funcdef self parent node is_async decorators = Ok (members, r) ->
  forallb (located fn) members = true.
Proof.
  intros Hp. unfold parse_funcdef.
  destruct (getitem _ 1); [simpl|discriminate].
  destruct (value _); [simpl|discriminate].
  destruct (deref _); [simpl|discriminate].
  destruct (get_docstring_from_first_node _); [simpl|discriminate].
  destruct (parse_parameters _); [simpl|discriminate].
  destruct (get_return_annotation _); [simpl|discriminate].
  destruct (location_from self (focus node)) as [location|] eqn:El;
    [simpl|discriminate].
  intros [= <- _]. rewrite forallb_snoc, Hp. simpl.
  rewrite (location_from_filename _ _ El). apply String.eqb_refl.
Qed.

Lemma class_body_located rec children :
  (forall members child members' r,
     forallb (located fn) members = true ->
     rec members child = Ok (members', r) ->
     forallb (located fn) members' = true) ->
  forall members metaclass members' metaclass',
    forallb (located fn) members = true ->
    class_body rec children members metaclass = Ok (members', metaclass') ->
    forallb (located fn) members' = true.
Proof.
  intros Hrec. induction children as [|child children IH];
    intros members metaclass members' metaclass' Hm H.
  - now injection H as <- _.
  - simpl in H. destruct (is_Node (focus child)); [|now apply IH in H].
    destruct (rec members child) as [[ms member]|] eqn:Er; [|discriminate H].
    simpl in H. apply Hrec in Er; [|exact Hm].
    destruct metaclass; [now apply IH in H|].
    destruct member as [[]|]; try (now apply IH in H).
    destruct (String.eqb _ _); [|now apply IH in H].
    apply IH in H; [exact H|]. now apply forallb_removelast.
Qed.

Lemma parse_classdef_with_located rec parent node decorators members r :
  (forall members child members' r,
     forallb (located fn) members = true ->
     rec members child = Ok (members', r) ->
     forallb (located fn) members' = true) ->
  forallb (located fn) parent = true ->
  parse_classdef_with rec self parent node decorators = Ok (members, r) ->
  forallb (located fn) members = true.
Proof.
  intros Hrec Hp. unfold parse_classdef_with.
  destruct (getitem _ 1); [simpl|discriminate].
  destruct (value _); [simpl|discriminate].
  match goal with
  | |- bind ?c _ = Ok _ -> _ => destruct c as [[bases metaclass]|];
                                 [simpl|discriminate]
  end.
  destruct (deref _) as [suite|]; [simpl|discriminate].
  destruct (get_docstring_from_first_node _); [simpl|discriminate].
  destruct (location_from self (focus node)) as [location|] eqn:El;
    [simpl|discriminate].
  destruct (class_body rec (children suite) [] metaclass)
    as [[ms mc]|] eqn:Eb; [simpl|discriminate].
  intros [= <- _]. rewrite forallb_snoc, Hp. cbn [located andb].
  rewrite (location_from_filename _ _ El), String.eqb_refl.
  eapply class_body_located; [exact Hrec| |exact Eb]. reflexivity.
Qed.

Lemma parse_declaration_located fuel :
  forall parent node decorators members r,
    forallb (located fn) parent = true ->
    parse_declaration fuel self parent node decorators = Ok (members, r) ->
    forallb (located fn) members = true.
Proof.
  induction fuel as [|fuel IH]; intros parent node decorators members r Hp;
    [discriminate|].
  cbn [parse_declaration].
  destruct (type_eqb _ syms.simple_stmt).
  { destruct (assert _ _); [|discriminate]. simpl.
    destruct (getitem _ 0) as [stmt|]; [|discriminate]. simpl.
    destruct (_ || _); [now intros [= <- _]|].
    destruct (type_eqb _ syms.expr_stmt); [|now intros [= <- _]].
    now apply parse_statement_located. }
  destruct (type_eqb _ syms.funcdef); [now apply parse_funcdef_located|].
  destruct (type_eqb _ syms.classdef).
  { apply parse_classdef_with_located; [|exact Hp].
    intros ms child ms' r' Hms. now apply IH. }
  destruct (_ || _).
  { destruct (getitem _ 1) as [child|]; [|discriminate]. simpl.
    destruct (type_eqb _ syms.funcdef); [now apply parse_funcdef_located|].
    now intros [= <- _]. }
  destruct (type_eqb _ syms.decorated); [|now intros [= <- _]].
  destruct (assert _ _); [|discriminate]. simpl.
  destruct (getitem _ 0) as [first|]; [|discriminate]. simpl.
  match goal with
  | |- bind ?c _ = Ok _ -> _ => destruct c; [simpl|discriminate]
  end.
  destruct (parse_decorators _ _); [|discriminate]. simpl.
  destruct (getitem _ 1) as [child|]; [|discriminate]. simpl.
  now apply IH.
Qed.

Lemma module_body_located fuel children : forall members members',
  forallb (located fn) members = true ->
  module_body fuel self children members = Ok members' ->
  forallb (located fn) members' = true.
Proof.
  induction children as [|node children IH]; intros members members' Hm H.
  - now injection H as <-.
  - simpl in H.
    destruct (parse_declaration fuel self members node None)
      as [[ms r]|] eqn:E; [|discriminate H].
    simpl in H. eapply IH; [|exact H].
    eapply parse_declaration_located; [exact Hm|exact E].
Qed.

End Locations.

(** Every entity of the reflection tree that [parse] returns, the
    module and all that is nested in it, is located in the file whose
    name was given to [parse]. *)
Theorem parse_located self ast filename module_name m :
  snd (parse self ast filename module_name) = Ok m ->
  located filename m = true.
Proof.
  unfold parse. cbn [snd].
  destruct (match tree_children ast with [] => _ | _ :: _ => _ end);
    [simpl|discriminate].
  destruct (location_from (mkParser (Some filename)) ast)
    as [location|] eqn:El; [simpl|discriminate].
  destruct (module_body _ _ _ _) as [members|] eqn:Em; [simpl|discriminate].
  intros [= <-]. cbn [located loc_filename].
  rewrite String.eqb_refl.
  eapply (module_body_located (mkParser (Some filename)) filename eq_refl);
    [|exact Em]. reflexivity.
Qed.

Lemma parse_located_run :
  snd (parse (mkParser None) Examples.module_C "m.py" None)
  = Ok (Module_ (mkLocation "m.py" (Some 1)) "m" None
          [Examples.class_C_parsed])
  /\ located "m.py"
       (Module_ (mkLocation "m.py" (Some 1)) "m" None
          [Examples.class_C_parsed]) = true.
Proof.
  split; [reflexivity|].
  apply (parse_located (mkParser None) Examples.module_C "m.py" None).
  reflexivity.
Defined.

(** ** PythonLoader *)

Section LoaderFacts.
Variables isfile isdir : string -> bool.
Variable listdir : string -> list string.

Lemma iter_module_files_file fuel module_name path :
  isfile path = true ->
  Loader._iter_module_files isfile isdir listdir (S fuel) module_name path
  = ([(module_name, path)], None).
Proof. intros H. simpl. now rewrite H. Qed.

(** The ends of the walk.  A path that is a file is the one module
    yielded.  A path that is neither a file nor a directory raises
    LoaderError, and so does a directory in which [__init__.py] is
    neither: nothing is yielded for it, whatever else it holds. *)
Theorem iter_module_files_ends fuel module_name path :
  (isfile path = true ->
   Loader._iter_module_files isfile isdir listdir (S fuel) module_name path = ([(module_name, path)], None))
  /\ (isfile path = false -> isdir path = false ->
      Loader._iter_module_files isfile isdir listdir (S fuel) module_name path = ([], Some (Loader.LoaderError path)))
  /\ (isfile path = false -> isdir path = true ->
      isfile (Loader.join path "__init__.py") = false ->
      isdir (Loader.join path "__init__.py") = false ->
      Loader._iter_module_files isfile isdir listdir (S (S fuel)) module_name path
      = ([], Some (Loader.LoaderError (Loader.join path "__init__.py")))).
Proof.
  repeat split.
  - apply iter_module_files_file.
  - intros Hf Hd. simpl. now rewrite Hf, Hd.
  - intros Hf Hd Hif Hid. cbn [Loader._iter_module_files].
    now rewrite Hf, Hd, Hif, Hid.
Qed.

(** The entries of a package directory without subdirectories. *)
Lemma iter_items_flat fuel module_name path items :
  (forall item, In item items -> isdir (Loader.join path item) = false) ->
  Loader.iter_items isfile isdir (Loader._iter_module_files isfile isdir listdir (S fuel)) module_name path items
  = (map (fun item =>
            (module_name ++ "." ++ Loader.rstrip_chars ".py" item,
             Loader.join path item))
       (filter (Loader.is_submodule_file isfile path) items),
     None).
Proof.
  induction items as [|item items IH]; intros Hflat; [reflexivity|].
  assert (Hrest : forall x, In x items -> isdir (Loader.join path x) = false)
    by (intros x Hx; apply Hflat; now right).
  specialize (IH Hrest).
  cbn [Loader.iter_items filter]. unfold Loader.is_submodule_file at 1.
  destruct (String.eqb item "__init__.py"); [exact IH|].
  rewrite (Hflat item (or_introl eq_refl)). cbn [andb negb].
  destruct (isfile (Loader.join path item)) eqn:Ef; [|exact IH].
  destruct (Loader.endswith (Loader.join path item) ".py"); [|exact IH].
  cbn [andb]. rewrite (iter_module_files_file fuel _ _ Ef).
  cbn [Loader.next]. rewrite IH. reflexivity.
Qed.

(** A package directory with an [__init__.py] file and no subdirectory:
    the walk yields the package itself, with the path of [__init__.py],
    and then, in the order of the listing, every other entry that is a
    file whose path ends in [.py], under the name of the package, a dot,
    and the entry without its trailing [.], [p] and [y] characters. *)
Theorem iter_module_files_flat fuel module_name path :
  isfile path = false ->
  isdir path = true ->
  isfile (Loader.join path "__init__.py") = true ->
  (forall item, In item (listdir path) ->
     isdir (Loader.join path item) = false) ->
  Loader._iter_module_files isfile isdir listdir (S (S fuel)) module_name path
  = ((module_name, Loader.join path "__init__.py")
     :: map (fun item =>
               (module_name ++ "." ++ Loader.rstrip_chars ".py" item,
                Loader.join path item))
          (filter (Loader.is_submodule_file isfile path) (listdir path)),
     None).
Proof.
  intros Hf Hd Hinit Hflat.
  pose proof (iter_items_flat fuel module_name path (listdir path) Hflat)
    as Hitems.
  pose proof (iter_module_files_file fuel module_name _ Hinit) as Hnext.
  change (Loader._iter_module_files isfile isdir listdir (S (S fuel))
            module_name path)
    with (if isfile path then ([(module_name, path)], None)
          else if isdir path then
            match Loader.next
                    (Loader._iter_module_files isfile isdir listdir (S fuel)
                       module_name (Loader.join path "__init__.py")) with
            | inl e => ([], Some e)
            | inr x =>
                let '(ys, e) :=
                  Loader.iter_items isfile isdir
                    (Loader._iter_module_files isfile isdir listdir (S fuel))
                    module_name path (listdir path) in
                (x :: ys, e)
            end
          else ([], Some (Loader.LoaderError path))).
  rewrite Hf, Hd, Hnext, Hitems. reflexivity.
Qed.

End LoaderFacts.

(** The name of a submodule.  [rstrip('.py')] takes characters, not a
    suffix: after the extension it goes on through every [.], [p] and
    [y] at the end of the stem. *)
Lemma rstrip_chars_append chars s t :
  Loader.rstrip_chars chars t = "" ->
  Loader.rstrip_chars chars (s ++ t) = Loader.rstrip_chars chars s.
Proof.
  intros Ht. induction s as [|c r IH]; [exact Ht|].
  simpl. now rewrite IH.
Qed.

Lemma rstrip_chars_solid chars s :
  Loader.last_char_in chars s = false -> Loader.rstrip_chars chars s = s.
Proof.
  induction s as [|c r IH]; [reflexivity|].
  intros H. cbn [Loader.rstrip_chars].
  destruct r as [|d r'].
  - simpl in H. simpl. now rewrite H.
  - rewrite (IH H). simpl. now rewrite andb_false_r.
Qed.

Lemma rstrip_chars_all chars t :
  Loader.all_chars_in chars t = true -> Loader.rstrip_chars chars t = "".
Proof.
  induction t as [|c t IH]; [reflexivity|].
  cbn [Loader.all_chars_in Loader.rstrip_chars].
  intros H. apply andb_true_iff in H as [Hc Ht].
  now rewrite (IH Ht), Hc.
Qed.

Lemma all_chars_in_append chars s t :
  Loader.all_chars_in chars s = true -> Loader.all_chars_in chars t = true ->
  Loader.all_chars_in chars (s ++ t) = true.
Proof.
  intros Hs Ht. induction s as [|c s IH]; [exact Ht|].
  cbn [Loader.all_chars_in append] in *.
  apply andb_true_iff in Hs as [Hc Hs]. now rewrite Hc, IH.
Qed.

(** What [rstrip] leaves of a string that ends with a run of the
    characters: the part before the run. *)
Lemma rstrip_chars_run chars core tail :
  Loader.last_char_in chars core = false ->
  Loader.all_chars_in chars tail = true ->
  Loader.rstrip_chars chars (core ++ tail) = core.
Proof.
  intros Hcore Htail.
  rewrite rstrip_chars_append by now apply rstrip_chars_all.
  now apply rstrip_chars_solid.
Qed.

(** [rstrip] leaves a string as it is only if its last character is
    none of the characters. *)
Lemma rstrip_chars_fixed chars s :
  Loader.rstrip_chars chars s = s <-> Loader.last_char_in chars s = false.
Proof.
  split; [|apply rstrip_chars_solid].
  induction s as [|c r IH]; [reflexivity|].
  cbn [Loader.rstrip_chars]. intros H.
  destruct (os_path.has_char c chars && Str.is_empty (Loader.rstrip_chars chars r))
    eqn:E; [discriminate H|].
  injection H as H. specialize (IH H).
  destruct r as [|d r']; [|exact IH].
  simpl in E. rewrite andb_true_r in E. exact E.
Qed.

Lemma endswith_append a b s :
  Loader.endswith b s = true -> Loader.endswith (a ++ b) s = true.
Proof.
  intros H. induction a as [|c a IH]; [exact H|].
  cbn [append Loader.endswith]. rewrite IH. apply orb_true_r.
Qed.

Lemma endswith_join path item s :
  Loader.endswith item s = true ->
  Loader.endswith (Loader.join path item) s = true.
Proof.
  intros H. unfold Loader.join.
  destruct (Str.startswith item "/"); [exact H|].
  destruct (Str.is_empty path || Loader.endswith path "/").
  - now apply endswith_append.
  - apply endswith_append. now apply (endswith_append "/").
Qed.

Section SubmoduleNames.
Variables isfile isdir : string -> bool.
Variable listdir : string -> list string.

(** The walk through a package directory: [__init__.py] first, then
    the entries. *)
Lemma iter_module_files_package fuel module_name path :
  isfile path = false ->
  isdir path = true ->
  isfile (Loader.join path "__init__.py") = true ->
  Loader._iter_module_files isfile isdir listdir (S (S fuel)) module_name path
  = let '(ys, e) :=
      Loader.iter_items isfile isdir
        (Loader._iter_module_files isfile isdir listdir (S fuel))
        module_name path (listdir path) in
    ((module_name, Loader.join path "__init__.py") :: ys, e).
Proof.
  intros Hf Hd Hinit.
  pose proof (iter_module_files_file isfile isdir listdir fuel module_name
                _ Hinit) as Hnext.
  change (Loader._iter_module_files isfile isdir listdir (S (S fuel))
            module_name path)
    with (if isfile path then ([(module_name, path)], None)
          else if isdir path then
            match Loader.next
                    (Loader._iter_module_files isfile isdir listdir (S fuel)
                       module_name (Loader.join path "__init__.py")) with
            | inl e => ([], Some e)
            | inr x =>
                let '(ys, e) :=
                  Loader.iter_items isfile isdir
                    (Loader._iter_module_files isfile isdir listdir (S fuel))
                    module_name path (listdir path) in
                (x :: ys, e)
            end
          else ([], Some (Loader.LoaderError path))).
  rewrite Hf, Hd, Hnext. reflexivity.
Qed.

(** In a package directory without subdirectories, the file of the
    entry [stem.py] is yielded under the name of the package, a dot, and
    the stem without the run of [.], [p] and [y] characters it ends with:
    when the stem is [core ++ tail], where [core] ends with none of the
    three characters and [tail] is made of them, the name ends in
    [core]. *)
Theorem submodule_file_name fuel module_name path core tail :
  isfile path = false ->
  isdir path = true ->
  isfile (Loader.join path "__init__.py") = true ->
  (forall item, In item (listdir path) ->
     isdir (Loader.join path item) = false) ->
  In (core ++ tail ++ ".py") (listdir path) ->
  core ++ tail ++ ".py" <> "__init__.py" ->
  isfile (Loader.join path (core ++ tail ++ ".py")) = true ->
  Loader.last_char_in ".py" core = false ->
  Loader.all_chars_in ".py" tail = true ->
  In (module_name ++ "." ++ core, Loader.join path (core ++ tail ++ ".py"))
    (fst (Loader._iter_module_files isfile isdir listdir (S (S fuel))
            module_name path)).
Proof.
  intros Hf Hd Hinit Hflat Hin Hne Hfile Hcore Htail.
  rewrite (iter_module_files_package fuel module_name path Hf Hd Hinit).
  rewrite (iter_items_flat isfile isdir listdir fuel module_name path
             (listdir path) Hflat).
  cbn [fst]. right. apply in_map_iff.
  exists (core ++ tail ++ ".py"). split.
  - rewrite (rstrip_chars_run ".py" core (tail ++ ".py") Hcore);
      [reflexivity|].
    now apply all_chars_in_append.
  - apply filter_In. split; [exact Hin|].
    unfold Loader.is_submodule_file. rewrite Hfile.
    rewrite endswith_join by (do 2 apply endswith_append; reflexivity).
    destruct (String.eqb_spec (core ++ tail ++ ".py") "__init__.py");
      [contradiction|reflexivity].
Qed.

End SubmoduleNames.

(** The files [pkg/happy.py] and [pkg/util.py]. *)
Lemma submodule_file_name_run :
  In ("pkg.ha", "pkg/happy.py")
    (fst (Loader._iter_module_files FileSystemExample.isfile
            FileSystemExample.isdir FileSystemExample.listdir 2 "pkg" "pkg"))
  /\ In ("pkg.util", "pkg/util.py")
       (fst (Loader._iter_module_files FileSystemExample.isfile
               FileSystemExample.isdir FileSystemExample.listdir 2 "pkg" "pkg")).
Proof.
  split.
  - apply (submodule_file_name FileSystemExample.isfile
             FileSystemExample.isdir FileSystemExample.listdir
             0 "pkg" "pkg" "ha" "ppy").
    + reflexivity.
    + reflexivity.
    + reflexivity.
    + intros item Hin. simpl in Hin.
      repeat (destruct Hin as [<-|Hin]; [reflexivity|]). contradiction.
    + simpl. do 3 right. left. reflexivity.
    + discriminate.
    + reflexivity.
    + reflexivity.
    + reflexivity.
  - apply (submodule_file_name FileSystemExample.isfile
             FileSystemExample.isdir FileSystemExample.listdir
             0 "pkg" "pkg" "util" "").
    + reflexivity.
    + reflexivity.
    + reflexivity.
    + intros item Hin. simpl in Hin.
      repeat (destruct Hin as [<-|Hin]; [reflexivity|]). contradiction.
    + simpl. left. reflexivity.
    + discriminate.
    + reflexivity.
    + reflexivity.
    + reflexivity.
Defined.

Lemma iter_module_files_ends_run :
  Loader._iter_module_files FileSystemExample.isfile FileSystemExample.isdir
    FileSystemExample.listdir 1 "single" "single.py"
  = ([("single", "single.py")], None)
  /\ Loader._iter_module_files FileSystemExample.isfile
       FileSystemExample.isdir FileSystemExample.listdir 1 "gone" "gone.py"
     = ([], Some (Loader.LoaderError "gone.py"))
  /\ Loader._iter_module_files FileSystemExample.isfile
       FileSystemExample.isdir FileSystemExample.listdir 2 "empty" "empty"
     = ([], Some (Loader.LoaderError "empty/__init__.py")).
Proof.
  split; [|split].
  - apply (proj1 (iter_module_files_ends FileSystemExample.isfile
                    FileSystemExample.isdir FileSystemExample.listdir
                    0 "single" "single.py")).
    reflexivity.
  - apply (proj1 (proj2 (iter_module_files_ends FileSystemExample.isfile
                           FileSystemExample.isdir FileSystemExample.listdir
                           0 "gone" "gone.py"))); reflexivity.
  - apply (proj2 (proj2 (iter_module_files_ends FileSystemExample.isfile
                           FileSystemExample.isdir FileSystemExample.listdir
                           0 "empty" "empty"))); reflexivity.
Defined.

Lemma iter_module_files_flat_run :
  Loader._iter_module_files FileSystemExample.isfile FileSystemExample.isdir
    FileSystemExample.listdir 2 "pkg" "pkg"
  = ([ ("pkg", "pkg/__init__.py"); ("pkg.util", "pkg/util.py");
       ("pkg.ha", "pkg/happy.py") ], None).
Proof.
  apply (iter_module_files_flat FileSystemExample.isfile
           FileSystemExample.isdir FileSystemExample.listdir 0 "pkg" "pkg").
  - reflexivity.
  - reflexivity.
  - reflexivity.
  - intros item Hin. simpl in Hin.
    repeat (destruct Hin as [<-|Hin]; [reflexivity|]). contradiction.
Defined.

(** *** The search path of [load] *)

Section SearchPath.
Local Open Scope list_scope.

Lemma index_first x before after :
  existsb (String.eqb x) before = false ->
  Loader.index x (before ++ x :: after) = List.length before.
Proof.
  induction before as [|y before IH]; simpl.
  - now rewrite String.eqb_refl.
  - intros H. apply orb_false_iff in H as [Hy Hb].
    rewrite String.eqb_sym, Hy. now rewrite IH.
Qed.

(** [load] searches [sys.path] when the loader has no search path, and
    the search path as it is when no entry is ["*"].  Otherwise the
    first ["*"] entry, and only that one, is replaced by the entries of
    [sys.path], in the loader's own list. *)
Theorem load_search_path_star sys_path :
  Loader.load_search_path None sys_path = (None, sys_path)
  /\ (forall sp,
        existsb (String.eqb "*") sp = false ->
        Loader.load_search_path (Some sp) sys_path = (Some sp, sp))
  /\ (forall before after,
        existsb (String.eqb "*") before = false ->
        Loader.load_search_path (Some (before ++ "*"%string :: after)) sys_path
        = (Some (before ++ sys_path ++ after), before ++ sys_path ++ after)).
Proof.
  split; [reflexivity|]. split.
  - intros sp H. unfold Loader.load_search_path. now rewrite H.
  - intros before after H. unfold Loader.load_search_path.
    rewrite existsb_app. simpl. rewrite orb_true_r.
    rewrite (index_first "*" before after H).
    rewrite firstn_app, firstn_all, Nat.sub_diag. simpl.
    rewrite app_nil_r.
    replace (List.length before + 1) with (List.length before + 1 + 0) by lia.
    rewrite skipn_app, skipn_all2 by lia.
    replace (List.length before + 1 + 0 - List.length before) with 1 by lia.
    reflexivity.
Qed.

End SearchPath.

Lemma load_search_path_star_run :
  Loader.load_search_path (Some ["src"; "*"; "lib"; "*"]) ["/usr/lib"; "."]
  = (Some ["src"; "/usr/lib"; "."; "lib"; "*"],
     ["src"; "/usr/lib"; "."; "lib"; "*"]).
Proof.
  apply (proj2 (proj2 (load_search_path_star ["/usr/lib"; "."]))
           ["src"] ["lib"; "*"]).
  reflexivity.
Defined.

(** ** The default module name *)

Section ModuleName.
Implicit Types (s dir stem ext : string) (c : ascii).

Lemma has_char_append c s t :
  os_path.has_char c (s ++ t) = os_path.has_char c s || os_path.has_char c t.
Proof.
  induction s as [|d r IH]; cbn [append os_path.has_char orb]; [reflexivity|].
  now rewrite IH, orb_assoc.
Qed.

Lemma basename_nosep s :
  os_path.has_char "/" s = false -> os_path.basename s = s.
Proof.
  destruct s as [|c r]; [reflexivity|].
  cbn [os_path.has_char os_path.basename]. intros H.
  apply orb_false_iff in H as [Hc Hr].
  rewrite Hr. rewrite Ascii.eqb_sym, Hc. reflexivity.
Qed.

Lemma basename_dir d s :
  os_path.has_char "/" s = false ->
  os_path.basename ((d ++ "/") ++ s) = s.
Proof.
  intros Hs. induction d as [|c r IH].
  - cbn [append os_path.basename]. rewrite Hs, Ascii.eqb_refl. reflexivity.
  - cbn [append os_path.basename].
    rewrite !has_char_append. cbn [os_path.has_char].
    rewrite Ascii.eqb_refl. cbn [orb]. rewrite orb_true_r. cbn [orb].
    exact IH.
Qed.

Lemma splitext_root_component_stem stem ext :
  os_path.has_char "." stem = false ->
  os_path.has_char "." ext = false ->
  os_path.splitext_root_component (stem ++ String "." ext) = stem.
Proof.
  intros Hstem Hext. induction stem as [|c r IH].
  - cbn [append os_path.splitext_root_component].
    rewrite Hext, Ascii.eqb_refl. reflexivity.
  - cbn [os_path.has_char] in Hstem.
    apply orb_false_iff in Hstem as [Hc Hr].
    cbn [append os_path.splitext_root_component].
    rewrite has_char_append. cbn [os_path.has_char].
    rewrite Ascii.eqb_refl. cbn [orb]. rewrite orb_true_r.
    now rewrite (IH Hr).
Qed.

Lemma splitext_root_stem stem ext :
  stem <> "" ->
  os_path.has_char "/" stem = false ->
  os_path.has_char "." stem = false ->
  os_path.has_char "/" ext = false ->
  os_path.has_char "." ext = false ->
  os_path.splitext_root (stem ++ String "." ext) = stem.
Proof.
  intros Hne Hs1 Hs2 He1 He2.
  destruct stem as [|c r]; [contradiction|].
  cbn [append os_path.splitext_root].
  change (String c (r ++ String "." ext)) with (String c r ++ String "." ext).
  assert (Hsep : os_path.has_char "/" (String c r ++ String "." ext) = false).
  { rewrite !has_char_append, Hs1. cbn [os_path.has_char orb].
    rewrite He1. reflexivity. }
  rewrite Hsep.
  unfold os_path.splitext_root_nosep.
  rewrite (splitext_root_component_stem (String c r) ext Hs2 He2).
  cbn [os_path.has_char] in Hs2. apply orb_false_iff in Hs2 as [Hc _].
  cbn [os_path.all_dots]. rewrite Ascii.eqb_sym, Hc. reflexivity.
Qed.

(** Without a module name, [parse] names the module after the file:
    for a file [stem.ext] in any directory, where the stem is not empty
    and has no dot, the result is the one for the module name [stem]. *)
Theorem parse_default_module_name self ast dir stem ext :
  (dir = "" \/ exists d, dir = d ++ "/") ->
  stem <> "" ->
  os_path.has_char "/" stem = false ->
  os_path.has_char "." stem = false ->
  os_path.has_char "/" ext = false ->
  os_path.has_char "." ext = false ->
  parse self ast (dir ++ stem ++ "." ++ ext) None
  = parse self ast (dir ++ stem ++ "." ++ ext) (Some stem).
Proof.
  intros Hdir Hne Hs1 Hs2 He1 He2. unfold parse.
  change (stem ++ "." ++ ext) with (stem ++ String "." ext).
  assert (Hbase : os_path.basename (dir ++ stem ++ String "." ext)
                  = stem ++ String "." ext).
  { assert (Hsep : os_path.has_char "/" (stem ++ String "." ext) = false)
      by (rewrite !has_char_append, Hs1; cbn [os_path.has_char orb];
          rewrite He1; reflexivity).
    destruct Hdir as [->|[d ->]].
    - now apply basename_nosep.
    - now apply basename_dir. }
  rewrite Hbase, (splitext_root_stem stem ext Hne Hs1 Hs2 He1 He2).
  reflexivity.
Qed.

End ModuleName.

Lemma parse_default_module_name_run :
  parse (mkParser None) Examples.module_C "src/pkg/mod.py" None
  = parse (mkParser None) Examples.module_C "src/pkg/mod.py" (Some "mod").
Proof.
  apply (parse_default_module_name (mkParser None) Examples.module_C
           "src/pkg/" "mod" "py").
  - right. now exists "src/pkg".
  - discriminate.
  - reflexivity.
  - reflexivity.
  - reflexivity.
  - reflexivity.
Defined.

(** ** find *)

Section Find.
Local Open Scope list_scope.
Context {A : Type}.
Variable predicate : A -> bool.

Lemma find_none l :
  find predicate l = None <-> forallb (fun y => negb (predicate y)) l = true.
Proof.
  induction l as [|y l IH]; simpl; [tauto|].
  destruct (predicate y); simpl; [split; discriminate|exact IH].
Qed.

(** [find] returns the first item the predicate holds for: no item
    before it satisfies the predicate.  It returns [None] exactly when
    the predicate holds for no item. *)
Theorem find_first l :
  (forall x,
     find predicate l = Some x <->
     exists before after,
       l = before ++ x :: after
       /\ forallb (fun y => negb (predicate y)) before = true
       /\ predicate x = true)
  /\ (find predicate l = None <->
      forallb (fun y => negb (predicate y)) l = true).
Proof.
  split; [|apply find_none].
  induction l as [|y l IH]; intros x; simpl.
  - split; [discriminate|]. intros (before & after & H & _).
    now destruct before.
  - destruct (predicate y) eqn:Ey.
    + split.
      * intros [= ->]. now exists [], l.
      * intros (before & after & H & Hb & Hx).
        destruct before as [|b before]; [now injection H as ->|].
        injection H as -> _. simpl in Hb. now rewrite Ey in Hb.
    + rewrite IH. split.
      * intros (before & after & -> & Hb & Hx).
        exists (y :: before), after. simpl. now rewrite Ey.
      * intros (before & after & H & Hb & Hx).
        destruct before as [|b before].
        -- injection H as -> _. congruence.
        -- injection H as -> ->. simpl in Hb.
           apply andb_true_iff in Hb as [_ Hb]. now exists before, after.
Qed.

End Find.

Lemma find_first_run :
  find (fun n => Nat.even n) [1; 3; 4; 6] = Some 4.
Proof.
  apply (proj1 (find_first (fun n => Nat.even n) [1; 3; 4; 6]) 4).
  exists [1; 3], [6]. repeat split.
Defined.

(** ** Class headers *)

(** A class header in which lib2to3 builds no [arglist] node - no
    argument at all, or a single base or keyword - gives the class no
    base and no metaclass; its name is the value of the second child. *)
Theorem parse_classdef_no_arglist fuel self parent node decorators members c :
  find (fun x => type_eqb (type x) syms.arglist) (tree_children (focus node))
    = None ->
  parse_classdef fuel self parent node decorators = Ok (members, Some c) ->
  bases_of c = [] /\ metaclass_of c = None
  /\ exists n,
       nth_error (tree_children (focus node)) 1 = Some n
       /\ value n = Ok (name_of c).
Proof.
  intros Hargs H. unfold parse_classdef, parse_classdef_with in H.
  rewrite Hargs in H. unfold getitem in H.
  destruct (nth_error (tree_children (focus node)) 1) as [n|] eqn:En;
    [|discriminate H].
  simpl in H. destruct (value n) as [name|] eqn:Ev; [|discriminate H].
  simpl in H.
  destruct (deref _); [|discriminate H]. simpl in H.
  destruct (get_docstring_from_first_node _); [|discriminate H]. simpl in H.
  destruct (location_from _ _); [|discriminate H]. simpl in H.
  destruct (class_body _ _ _ _) as [[ms mc]|]; [|discriminate H]. simpl in H.
  injection H as _ <-. simpl. repeat split. now exists n.
Qed.

Lemma parse_classdef_no_arglist_run :
  parse_classdef 2 (mkParser (Some "m.py")) [] ClassExamples.classdef_D None
  = Ok ([ClassExamples.class_D_parsed], Some ClassExamples.class_D_parsed)
  /\ bases_of ClassExamples.class_D_parsed = [].
Proof.
  split; [reflexivity|].
  apply (parse_classdef_no_arglist 2 (mkParser (Some "m.py")) []
           ClassExamples.classdef_D None
           [ClassExamples.class_D_parsed] ClassExamples.class_D_parsed);
    reflexivity.
Defined.

(** ** More on docstrings *)

(** The docstring of a triple-quoted literal whose further lines form a
    block indented by a margin of spaces and tabs - blank lines and
    lines indented deeper among them, and one line at least that begins
    right after the margin: the stripped first line, then the block
    without its margin and with its blank lines emptied, the whole
    stripped. *)
Theorem docstring_of_indented_block q margin first items :
  q = triple_dquote \/ q = "'''" ->
  textwrap.all_blank margin = true ->
  margin <> "" ->
  one_line first = true ->
  forallb well_formed_line items = true ->
  existsb flush_left items = true ->
  prepare_docstring
    (q ++ (first ++ Str.nl
           ++ Str.join_nl (map (indented_line margin) items)) ++ q)
  = Some (Str.strip (Str.strip first ++ Str.nl
                     ++ Str.join_nl (map dedented_line items))).
Proof.
  intros Hq Hm Hne Hfirst Hwf Hflush.
  assert (H : prepare_docstring
                (q ++ (first ++ Str.nl
                       ++ Str.join_nl (map (indented_line margin) items)) ++ q)
              = Some (Str.strip
                        (dedent_docstring
                           (first ++ Str.nl
                            ++ Str.join_nl (map (indented_line margin) items))))).
  { destruct Hq as [-> | ->].
    - apply (prepare_docstring_triple "034" _ (or_introl eq_refl)).
    - apply (prepare_docstring_triple "'" _ (or_intror eq_refl)). }
  rewrite H, (dedent_docstring_lines first _ Hfirst), strip_idem.
  now rewrite (dedent_indented_block margin Hm Hne items Hwf Hflush).
Qed.

Lemma docstring_of_indented_block_run :
  prepare_docstring
    ("'''" ++ ("Summary line." ++ Str.nl
               ++ Str.join_nl
                    (map (indented_line "    ")
                       [ Text "Details,"; Blank "  "; Text "  indented more." ]))
     ++ "'''")
  = Some ("Summary line." ++ Str.nl ++ "Details," ++ Str.nl ++ Str.nl
          ++ "  indented more.").
Proof.
  rewrite (docstring_of_indented_block "'''" "    " "Summary line."
             [ Text "Details,"; Blank "  "; Text "  indented more." ]).
  - reflexivity.
  - now right.
  - reflexivity.
  - discriminate.
  - reflexivity.
  - reflexivity.
  - reflexivity.
Defined.

(** The trivia resolver and the comment helpers built on it never
    raise: when the climb of [get_most_recent_prefix] stops at a node
    without a prefix of its own, that node has a previous sibling, so
    the attribute access on it cannot fail. *)
Theorem trivia_helpers_never_raise node :
  (exists pfx, get_most_recent_prefix node = Ok pfx)
  /\ (exists r, get_hashtag_docstring_from_prefix node = Ok r)
  /\ (exists d, get_statement_docstring node = Ok d).
Proof.
  split; [apply get_most_recent_prefix_total|].
  split; [apply get_hashtag_docstring_from_prefix_total|].
  apply get_statement_docstring_total.
Qed.
